(** * Consensus core of Sia (package [sia], blocks.go) and the negotiation
      framing of package [modules]: a shallow embedding and its properties.

    The Go code is embedded function by function.  Go values become Rocq
    values as follows:
    - [[32]byte] arrays (block ids, targets, depths, hashes) are [list byte];
    - [uint64] and [int64] are [Z] with the wrap-around written out;
    - [*big.Int] is [Z], [*big.Rat] is [Q] (compared by value);
    - Go maps are [gmap], the set [map[BlockID]struct{}] is a [gset];
    - [*BlockNode] and [*OpenContract] are addresses into two stores that
      are part of the state, so that aliasing is kept;
    - a run-time panic is the outcome [Panic], a loop whose termination is
      not evident takes fuel and answers [OutOfFuel] when it is used up. *)

From Stdlib Require Import ZArith NArith QArith Qround Lia List Bool Sorted.
From Stdlib.Strings Require Import String Byte.
From stdpp Require Import gmap strings list.

Local Open Scope Z_scope.

(** ** Go run-time primitives *)

Module Go.

(** Outcome of running a piece of Go code. *)
Inductive run (A : Type) : Type :=
| Ret (a : A)
| Panic
| OutOfFuel.
Arguments Ret {A} a.
Arguments Panic {A}.
Arguments OutOfFuel {A}.

Definition bind {A B} (m : run A) (k : A -> run B) : run B :=
  match m with
  | Ret a => k a
  | Panic => Panic
  | OutOfFuel => OutOfFuel
  end.

(** Whether a run came to its end. *)
Definition returns {A} (m : run A) : bool :=
  match m with
  | Ret _ => true
  | _ => false
  end.

(** Dereferencing a pointer read out of a map: nil panics. *)
Definition deref {A} (o : option A) : run A :=
  match o with
  | Some a => Ret a
  | None => Panic
  end.

(** Wrap-around of the fixed-width integer types. *)
Definition u64 (z : Z) : Z := z mod 2 ^ 64.
Definition i64 (z : Z) : Z := (z + 2 ^ 63) mod 2 ^ 64 - 2 ^ 63.

(** The numeric value of a byte. *)
Definition byte_val (b : byte) : Z := Z.of_N (Byte.to_N b).

Definition byte_of_Z (z : Z) : byte :=
  match Byte.of_N (Z.to_N (z mod 256)) with
  | Some b => b
  | None => x00
  end.

(** [new(big.Int).SetBytes(buf)]: [buf] read as a big-endian unsigned
    integer. *)
Definition SetBytes (buf : list byte) : Z :=
  fold_left (fun acc b => 256 * acc + byte_val b) buf 0.

(** Digits of a non-negative integer in base 256, least significant first. *)
Fixpoint le_digits (fuel : nat) (z : Z) : list byte :=
  match fuel with
  | O => []
  | S fuel' =>
      if z <=? 0 then []
      else byte_of_Z z :: le_digits fuel' (z / 256)
  end.

(** [x.Bytes()]: the absolute value of [x] as a big-endian byte slice
    without leading zeros. *)
Definition Bytes (x : Z) : list byte :=
  rev (le_digits (Z.to_nat (Z.log2 (Z.abs x)) + 1) (Z.abs x)).

(** [bytes.Compare(a, b)]: lexicographic comparison, as -1, 0 or 1. *)
Fixpoint bytes_Compare (a b : list byte) : Z :=
  match a, b with
  | [], [] => 0
  | [], _ :: _ => -1
  | _ :: _, [] => 1
  | x :: a', y :: b' =>
      match byte_val x ?= byte_val y with
      | Lt => -1
      | Gt => 1
      | Eq => bytes_Compare a' b'
      end
  end.

(** [sort.Ints]: insertion into a sorted slice, and the sort built on it. *)
Fixpoint insert_sorted (x : Z) (l : list Z) : list Z :=
  match l with
  | [] => [x]
  | y :: l' => if x <=? y then x :: l else y :: insert_sorted x l'
  end.

Definition sort_Ints (l : list Z) : list Z :=
  fold_right insert_sorted [] l.

(** [copy(dst[off:], src)] for a non-negative [off <= len(dst)]: as many
    elements as fit are copied; a negative or too large [off] makes the
    slice expression [dst[off:]] panic. *)
Definition copy_at (dst : list byte) (off : Z) (src : list byte)
  : run (list byte) :=
  if (off <? 0) || (Z.of_nat (length dst) <? off) then Panic
  else
    let o := Z.to_nat off in
    let n := Nat.min (length dst - o) (length src) in
    Ret (firstn o dst ++ firstn n src ++ skipn (o + n) dst).

(** [big.NewRat(a, b)] and [new(big.Rat).SetFrac(a, b)] panic on a zero
    denominator. *)
Definition NewRat (a b : Z) : run Q :=
  if b =? 0 then Panic
  else if 0 <? b then Ret (a # Z.to_pos b)
  else Ret ((- a) # Z.to_pos (- b)).

(** [new(big.Int).Div(x, y)]: Euclidean division, panics when [y = 0]. *)
Definition Int_Div (x y : Z) : run Z :=
  if y =? 0 then Panic
  else if 0 <? y then Ret (x / y)
  else Ret (- (x / - y)).

(** [r.Cmp(q)] on rationals: -1, 0 or 1. *)
Definition Rat_Cmp (r q : Q) : Z :=
  match (r ?= q)%Q with
  | Lt => -1
  | Eq => 0
  | Gt => 1
  end.

End Go.

#[global] Instance run_ret : MRet Go.run := @Go.Ret.
#[global] Instance run_bind : MBind Go.run := fun A B k m => Go.bind m k.
#[global] Instance run_fmap : FMap Go.run :=
  fun A B f m => Go.bind m (fun a => Go.Ret (f a)).

Import Go.

(** The zero value of a [[32]byte]. *)
Definition zeroHash : list byte := replicate 32 x00.

#[global] Instance byte_eq_dec : EqDecision byte := Byte.byte_eq_dec.

#[global] Instance byte_countable : Countable byte :=
  inj_countable Byte.to_N Byte.of_N Byte.of_to_N.

(** ** Data model *)

(** [BlockID], [OutputID], [ContractID], [CoinAddress], [hash.Hash] and
    [Target] are all [[32]byte]. *)
Abbreviation Hash := (list byte) (only parsing).

(** Addresses of heap objects ([*BlockNode], [*OpenContract]). *)
Abbreviation ptr := positive (only parsing).

(** The [error] interface: [None] is [nil]. *)
Inductive error : Type := errors_New (msg : string).

Definition Error (e : error) : string := let 'errors_New msg := e in msg.

(** Modelled from the spec: the type declarations of [Output],
    [FileContract], [OpenContract], [MissedStorageProof], [Transaction],
    [Block], [BlockNode] and [State] are not in blocks.go; the fields are
    those blocks.go reads and writes.  [Currency] is an arbitrary-precision
    non-negative integer, [BlockHeight] and the failure counters are
    unsigned 64-bit, [Timestamp] is signed 64-bit. *)
Module Output.
Record t := mk { Value : N; SpendHash : Hash }.
Definition zero : t := mk 0%N zeroHash.
End Output.

Module FileContract.
Record t := mk {
  Start : Z;
  End_ : Z;
  ChallengeFrequency : Z;
  Tolerance : Z;
  MissedProofPayout : N;
  ValidProofAddress : Hash;
  MissedProofAddress : Hash
}.
End FileContract.

Module OpenContract.
Record t := mk {
  FileContract : FileContract.t;
  ContractID : Hash;
  FundsRemaining : N;
  Failures : Z;
  WindowSatisfied : bool
}.
End OpenContract.

Module MissedStorageProof.
Record t := mk { OutputID : Hash; ContractID : Hash }.
End MissedStorageProof.

Module Transaction.
(** Only [MinerFees] is read by blocks.go; [Inputs] and [Outputs] are for
    the transaction functions, which live in another file. *)
Record t := mk {
  Inputs : list Hash;
  Outputs : list (Hash * Output.t);
  MinerFees : list N
}.
End Transaction.

Module Block.
Record t := mk {
  ParentBlock : Hash;
  Timestamp : Z;
  Nonce : Z;
  MinerAddress : Hash;
  MerkleRoot : Hash;
  Transactions : list Transaction.t
}.
End Block.

Module BlockNode.
Record t := mk {
  Block : Block.t;
  Children : list ptr;
  Height : Z;
  RecentTimestamps : list Z;
  Target : Hash;
  Depth : Hash;
  ContractTerminations : list ptr;
  MissedStorageProofs : list MissedStorageProof.t
}.

Definition with_Children (f : list ptr -> list ptr) (n : t) : t :=
  mk (Block n) (f (Children n)) (Height n) (RecentTimestamps n) (Target n)
     (Depth n) (ContractTerminations n) (MissedStorageProofs n).
Definition with_ContractTerminations (f : list ptr -> list ptr) (n : t) : t :=
  mk (Block n) (Children n) (Height n) (RecentTimestamps n) (Target n)
     (Depth n) (f (ContractTerminations n)) (MissedStorageProofs n).
Definition with_MissedStorageProofs
    (f : list MissedStorageProof.t -> list MissedStorageProof.t) (n : t) : t :=
  mk (Block n) (Children n) (Height n) (RecentTimestamps n) (Target n)
     (Depth n) (ContractTerminations n) (f (MissedStorageProofs n)).
End BlockNode.

Module State.
(** [nodes] and [contracts] are the stores the [*BlockNode] and
    [*OpenContract] pointers of the other fields point into. *)
Record t := mk {
  BlockRoot : ptr;
  BadBlocks : gset Hash;
  BlockMap : gmap Hash ptr;
  CurrentBlock : Hash;
  CurrentPath : gmap Z Hash;
  UnspentOutputs : gmap Hash Output.t;
  OpenContracts : gmap Hash ptr;
  nodes : gmap ptr BlockNode.t;
  contracts : gmap ptr OpenContract.t
}.

Definition with_BadBlocks (f : gset Hash -> gset Hash) (s : t) : t :=
  mk (BlockRoot s) (f (BadBlocks s)) (BlockMap s) (CurrentBlock s)
     (CurrentPath s) (UnspentOutputs s) (OpenContracts s) (nodes s)
     (contracts s).
Definition with_BlockMap (f : gmap Hash ptr -> gmap Hash ptr) (s : t) : t :=
  mk (BlockRoot s) (BadBlocks s) (f (BlockMap s)) (CurrentBlock s)
     (CurrentPath s) (UnspentOutputs s) (OpenContracts s) (nodes s)
     (contracts s).
Definition with_CurrentBlock (id : Hash) (s : t) : t :=
  mk (BlockRoot s) (BadBlocks s) (BlockMap s) id
     (CurrentPath s) (UnspentOutputs s) (OpenContracts s) (nodes s)
     (contracts s).
Definition with_CurrentPath (f : gmap Z Hash -> gmap Z Hash) (s : t) : t :=
  mk (BlockRoot s) (BadBlocks s) (BlockMap s) (CurrentBlock s)
     (f (CurrentPath s)) (UnspentOutputs s) (OpenContracts s) (nodes s)
     (contracts s).
Definition with_UnspentOutputs
    (f : gmap Hash Output.t -> gmap Hash Output.t) (s : t) : t :=
  mk (BlockRoot s) (BadBlocks s) (BlockMap s) (CurrentBlock s)
     (CurrentPath s) (f (UnspentOutputs s)) (OpenContracts s) (nodes s)
     (contracts s).
Definition with_OpenContracts (f : gmap Hash ptr -> gmap Hash ptr) (s : t) : t :=
  mk (BlockRoot s) (BadBlocks s) (BlockMap s) (CurrentBlock s)
     (CurrentPath s) (UnspentOutputs s) (f (OpenContracts s)) (nodes s)
     (contracts s).
Definition with_nodes
    (f : gmap ptr BlockNode.t -> gmap ptr BlockNode.t) (s : t) : t :=
  mk (BlockRoot s) (BadBlocks s) (BlockMap s) (CurrentBlock s)
     (CurrentPath s) (UnspentOutputs s) (OpenContracts s) (f (nodes s))
     (contracts s).
Definition with_contracts
    (f : gmap ptr OpenContract.t -> gmap ptr OpenContract.t) (s : t) : t :=
  mk (BlockRoot s) (BadBlocks s) (BlockMap s) (CurrentBlock s)
     (CurrentPath s) (UnspentOutputs s) (OpenContracts s) (nodes s)
     (f (contracts s)).
End State.

(** ** What blocks.go takes from other files

    The hash functions, the transaction functions and the consensus
    constants are defined elsewhere; the development is parametric in
    them. *)
Class Externals := {
  (** [b.ID()] and [b.SubsidyID()] *)
  ID : Block.t -> Hash;
  SubsidyID : Block.t -> Hash;
  (** [hash.HashBytes(encoding.Marshal(txn))] and [hash.MerkleRoot] *)
  HashTransaction : Transaction.t -> Hash;
  hash_MerkleRoot : list Hash -> Hash;
  (** [fc.StorageProofOutputID(id, height, proofValid)], which may fail,
      and [fc.ContractTerminationOutputID(id, status)] *)
  StorageProofOutputID : FileContract.t -> Hash -> Z -> bool -> error + Hash;
  ContractTerminationOutputID : FileContract.t -> Hash -> bool -> Hash;
  (** the transaction functions of the state *)
  validTransaction : State.t -> Transaction.t -> option error;
  applyTransaction : State.t -> Transaction.t -> State.t;
  reverseTransaction : State.t -> Transaction.t -> State.t;
  (** consensus constants *)
  FutureThreshold : Z;
  TargetWindow : Z;
  BlockFrequency : Z;
  MaxAdjustmentUp : Q;
  MaxAdjustmentDown : Q
}.

Section Consensus.
Context `{Externals}.

(** ** Accessors of the state *)

(** Modelled from the spec: [currentBlockNode], [currentBlock], [Height],
    [Depth], [currentBlockWeight] and [blockAtHeight] are methods of the
    state that are not in blocks.go.  The current block node is the node
    the block map holds for the current tip; height and depth are that
    node's cached fields; the current block weight is [1 / target] of that
    node, as in the first line of [childDepth]; the block at a height is
    found through [CurrentPath].  A lookup that finds nothing yields a nil
    pointer, whose dereference panics. *)
Definition currentBlockNodePtr (s : State.t) : option ptr :=
  State.BlockMap s !! State.CurrentBlock s.

Definition currentBlockNode (s : State.t) : run BlockNode.t :=
  p ← deref (currentBlockNodePtr s);
  deref (State.nodes s !! p).

Definition currentBlock (s : State.t) : run Block.t :=
  n ← currentBlockNode s; mret (BlockNode.Block n).

Definition Height (s : State.t) : run Z :=
  n ← currentBlockNode s; mret (BlockNode.Height n).

Definition Depth (s : State.t) : run Hash :=
  n ← currentBlockNode s; mret (BlockNode.Depth n).

Definition currentBlockWeight (s : State.t) : run Q :=
  n ← currentBlockNode s; NewRat 1 (SetBytes (BlockNode.Target n)).

(** [s.CurrentPath[h]]: a missing key reads as the zero value. *)
Definition pathAt (s : State.t) (h : Z) : Hash :=
  default zeroHash (State.CurrentPath s !! h).

(** [s.BlockMap[id]] followed by a field access. *)
Definition nodeOf (s : State.t) (id : Hash) : run BlockNode.t :=
  p ← deref (State.BlockMap s !! id);
  deref (State.nodes s !! p).

Definition blockAtHeight (s : State.t) (h : Z) : run Block.t :=
  n ← nodeOf s (pathAt s h); mret (BlockNode.Block n).

(** ** Looking a block up *)

Definition errKnownInvalid := errors_New "block is known to be invalid".
Definition errBlockExists := errors_New "Block exists in block map.".
Definition errOrphan := errors_New "Block is an orphan".

(** [checkMaps]: the parent's node, or the reason the block is turned
    away. *)
Definition checkMaps (s : State.t) (b : Block.t) : error + ptr :=
  if decide (ID b ∈ State.BadBlocks s) then inl errKnownInvalid
  else if decide (is_Some (State.BlockMap s !! ID b)) then inl errBlockExists
  else match State.BlockMap s !! Block.ParentBlock b with
       | None => inl errOrphan
       | Some parentBlockNode => inr parentBlockNode
       end.

(** ** Header validation *)

Definition checkTarget (b : Block.t) (target : Hash) : bool :=
  let blockHash := ID b in
  0 <=? bytes_Compare target blockHash.

Definition expectedTransactionMerkleRoot (b : Block.t) : Hash :=
  hash_MerkleRoot (map HashTransaction (Block.Transactions b)).

Definition errFuture := errors_New "timestamp too far in future".
Definition errPast := errors_New "timestamp invalid for being in the past".
Definition errMerkle :=
  errors_New "merkle root does not match transactions sent.".
Definition errTarget := errors_New "block does not meet target".

Definition markBad (id : Hash) (s : State.t) : State.t :=
  State.with_BadBlocks (fun bad => {[id]} ∪ bad) s.

(** [validateHeader]; [now] is [time.Now().Unix()]. *)
Definition validateHeader (now : Z) (s : State.t) (parent : ptr) (b : Block.t)
  : run (State.t * option error) :=
  let skew := i64 (Block.Timestamp b - i64 now) in
  if FutureThreshold <? skew then mret (s, Some errFuture)
  else
    parentNode ← deref (State.nodes s !! parent);
    let intTimestamps := sort_Ints (BlockNode.RecentTimestamps parentNode) in
    median ← deref (intTimestamps !! 5%nat);
    if Block.Timestamp b <? median then
      mret (markBad (ID b) s, Some errPast)
    else if negb (bool_decide
                    (Block.MerkleRoot b = expectedTransactionMerkleRoot b)) then
      mret (markBad (ID b) s, Some errMerkle)
    else if negb (checkTarget b (BlockNode.Target parentNode)) then
      mret (s, Some errTarget)
    else mret (s, None).

(** ** Retargeting *)

(** Lines 104-127 of [childTarget]: the clamped adjustment. *)
Definition targetAdjustment (s : State.t) (newNode : BlockNode.t) : run Q :=
  '(timePassed, expectedTimePassed) ←
    (if BlockNode.Height newNode <? TargetWindow then
       root ← deref (State.nodes s !! State.BlockRoot s);
       mret (i64 (Block.Timestamp (BlockNode.Block newNode)
                  - Block.Timestamp (BlockNode.Block root)),
             i64 (BlockFrequency * i64 (BlockNode.Height newNode)))
     else
       adjustmentBlock ←
         blockAtHeight s (u64 (BlockNode.Height newNode - TargetWindow));
       mret (i64 (Block.Timestamp (BlockNode.Block newNode)
                  - Block.Timestamp adjustmentBlock),
             i64 (BlockFrequency * i64 TargetWindow)));
  targetAdjustment ← NewRat timePassed expectedTimePassed;
  if Rat_Cmp targetAdjustment MaxAdjustmentUp =? 1 then mret MaxAdjustmentUp
  else if Rat_Cmp targetAdjustment MaxAdjustmentDown =? -1 then
    mret MaxAdjustmentDown
  else mret targetAdjustment.

(** [childTarget], lines 129-138 after the adjustment. *)
Definition childTarget (s : State.t) (parentNode newNode : BlockNode.t)
  : run Hash :=
  targetAdjustment ← targetAdjustment s newNode;
  let oldTarget := SetBytes (BlockNode.Target parentNode) in
  let ratOldTarget := inject_Z oldTarget in
  let ratNewTarget := Qred (targetAdjustment * ratOldTarget) in
  intNewTarget ← Int_Div (Qnum ratNewTarget) (Z.pos (Qden ratNewTarget));
  let newTargetBytes := Bytes intNewTarget in
  let offset := 32 - Z.of_nat (length newTargetBytes) in
  copy_at zeroHash offset newTargetBytes.

Definition childDepth (parentNode : BlockNode.t) : run Hash :=
  blockWeight ← NewRat 1 (SetBytes (BlockNode.Target parentNode));
  ratParentDepth ← NewRat 1 (SetBytes (BlockNode.Depth parentNode));
  let ratChildDepth := Qred (ratParentDepth + blockWeight) in
  intChildDepth ← Int_Div (Z.pos (Qden ratChildDepth)) (Qnum ratChildDepth);
  let bytesChildDepth := Bytes intChildDepth in
  let offset := 32 - Z.of_nat (length bytesChildDepth) in
  copy_at zeroHash offset bytesChildDepth.

(** ** Fork choice *)

Definition SurpassThreshold : Q := 5 # 100.

Definition heavierFork (s : State.t) (newNode : BlockNode.t) : run bool :=
  w ← currentBlockWeight s;
  let threshold := (w * SurpassThreshold)%Q in
  sdepth ← Depth s;
  currentDepth ← NewRat 1 (SetBytes sdepth);
  let requiredDepth := (currentDepth + threshold)%Q in
  newNodeDepth ← NewRat 1 (SetBytes (BlockNode.Depth newNode));
  mret (Rat_Cmp newNodeDepth requiredDepth =? 1).


(** ** Applying and reversing a block *)

(** A [for] loop over a slice whose body may panic. *)
Fixpoint forEach {A S} (body : S -> A -> run S) (s : S) (l : list A) : run S :=
  match l with
  | [] => mret s
  | a :: l' => s' ← body s a; forEach body s' l'
  end.

(** Lines 192-196 of [rewindABlock], one termination record. *)
Definition reopenContract (s : State.t) (p : ptr) : run State.t :=
  openContract ← deref (State.contracts s !! p);
  let s := State.with_OpenContracts
             <[OpenContract.ContractID openContract := p]> s in
  let fc := OpenContract.FileContract openContract in
  let contractStatus :=
    bool_decide (OpenContract.Failures openContract = FileContract.Tolerance fc) in
  mret (State.with_UnspentOutputs
          (delete (ContractTerminationOutputID
                     fc (OpenContract.ContractID openContract) contractStatus))
          s).

(** Lines 199-203 of [rewindABlock], one missed-proof record. *)
Definition reverseMissedProof (s : State.t) (missedProof : MissedStorageProof.t)
  : run State.t :=
  let cid := MissedStorageProof.ContractID missedProof in
  let oid := MissedStorageProof.OutputID missedProof in
  p ← deref (State.OpenContracts s !! cid);
  c ← deref (State.contracts s !! p);
  let value := Output.Value (default Output.zero (State.UnspentOutputs s !! oid)) in
  let c := OpenContract.mk (OpenContract.FileContract c)
             (OpenContract.ContractID c)
             (OpenContract.FundsRemaining c + value)%N
             (OpenContract.Failures c) (OpenContract.WindowSatisfied c) in
  let c := OpenContract.mk (OpenContract.FileContract c)
             (OpenContract.ContractID c) (OpenContract.FundsRemaining c)
             (u64 (OpenContract.Failures c - 1))
             (OpenContract.WindowSatisfied c) in
  let s := State.with_contracts <[p := c]> s in
  mret (State.with_UnspentOutputs (delete oid) s).

(** Lines 207-209 of [rewindABlock]: [i] runs from the number of
    transactions down to zero. *)
Fixpoint reverseTransactions (s : State.t) (i : nat) : run State.t :=
  match i with
  | O => mret s
  | S i' =>
      b ← currentBlock s;
      txn ← deref (Block.Transactions b !! i');
      reverseTransactions (reverseTransaction s txn) i'
  end.

Definition rewindABlock (s : State.t) : run State.t :=
  node ← currentBlockNode s;
  s ← forEach reopenContract s (BlockNode.ContractTerminations node);
  node ← currentBlockNode s;
  s ← forEach reverseMissedProof s (BlockNode.MissedStorageProofs node);
  b ← currentBlock s;
  s ← reverseTransactions s (length (Block.Transactions b));
  b ← currentBlock s;
  let s := State.with_CurrentBlock (Block.ParentBlock b) s in
  h ← Height s;
  mret (State.with_CurrentPath (delete h) s).

(** Lines 221-236 of [integrateBlock]: validate and apply the transactions
    until one fails. *)
Fixpoint applyTransactions (b : Block.t) (s : State.t)
    (txns appliedTransactions : list Transaction.t) (minerSubsidy : N)
  : State.t * list Transaction.t * N * option error :=
  match txns with
  | [] => (s, appliedTransactions, minerSubsidy, None)
  | txn :: txns' =>
      match validTransaction s txn with
      | Some err => (markBad (ID b) s, appliedTransactions, minerSubsidy, Some err)
      | None =>
          applyTransactions b (applyTransaction s txn) txns'
            (appliedTransactions ++ [txn])
            (fold_left N.add (Transaction.MinerFees txn) minerSubsidy)
      end
  end.

(** Appending to an undo log of the current block node. *)
Definition updateCurrentBlockNode (f : BlockNode.t -> BlockNode.t) (s : State.t)
  : run State.t :=
  p ← deref (currentBlockNodePtr s);
  node ← deref (State.nodes s !! p);
  mret (State.with_nodes <[p := f node]> s).

(** Lines 252-282 of [integrateBlock]: the window of one contract. *)
Definition windowRollover (s : State.t) (p : ptr) : run State.t :=
  openContract ← deref (State.contracts s !! p);
  let fc := OpenContract.FileContract openContract in
  h ← Height s;
  if FileContract.ChallengeFrequency fc =? 0 then Panic
  else if (u64 (h - FileContract.Start fc) mod FileContract.ChallengeFrequency fc =? 0)
          && (FileContract.Start fc <? h) then
    '(s, openContract) ←
      (if negb (OpenContract.WindowSatisfied openContract) then
         let payout :=
           if (OpenContract.FundsRemaining openContract
                 <? FileContract.MissedProofPayout fc)%N
           then OpenContract.FundsRemaining openContract
           else FileContract.MissedProofPayout fc in
         newOutputID ←
           match StorageProofOutputID
                   fc (OpenContract.ContractID openContract) h false with
           | inl _ => Panic
           | inr id => mret id
           end;
         let output := Output.mk payout (FileContract.MissedProofAddress fc) in
         let s := State.with_UnspentOutputs <[newOutputID := output]> s in
         let msp := MissedStorageProof.mk
                      newOutputID (OpenContract.ContractID openContract) in
         s ← updateCurrentBlockNode
               (BlockNode.with_MissedStorageProofs (fun l => l ++ [msp])) s;
         mret (s, OpenContract.mk fc (OpenContract.ContractID openContract)
                    (OpenContract.FundsRemaining openContract - payout)%N
                    (u64 (OpenContract.Failures openContract + 1))
                    (OpenContract.WindowSatisfied openContract))
       else mret (s, openContract));
    let openContract :=
      OpenContract.mk fc (OpenContract.ContractID openContract)
        (OpenContract.FundsRemaining openContract)
        (OpenContract.Failures openContract) false in
    mret (State.with_contracts <[p := openContract]> s)
  else mret s.

(** Lines 285-308 of [integrateBlock]: the termination of one contract. *)
Definition terminateContract (st : State.t * list Hash) (p : ptr)
  : run (State.t * list Hash) :=
  let '(s, contractsToDelete) := st in
  openContract ← deref (State.contracts s !! p);
  let fc := OpenContract.FileContract openContract in
  h ← Height s;
  if (OpenContract.FundsRemaining openContract =? 0)%N
     || (FileContract.End_ fc =? h)
     || (FileContract.Tolerance fc =? OpenContract.Failures openContract) then
    let s :=
      if negb (OpenContract.FundsRemaining openContract =? 0)%N then
        let contractStatus :=
          OpenContract.Failures openContract =? FileContract.Tolerance fc in
        let outputID :=
          ContractTerminationOutputID
            fc (OpenContract.ContractID openContract) contractStatus in
        let output :=
          Output.mk (OpenContract.FundsRemaining openContract)
            (if FileContract.Tolerance fc =? OpenContract.Failures openContract
             then FileContract.MissedProofAddress fc
             else FileContract.ValidProofAddress fc) in
        State.with_UnspentOutputs <[outputID := output]> s
      else s in
    s ← updateCurrentBlockNode
          (BlockNode.with_ContractTerminations (fun l => l ++ [p])) s;
    mret (s, contractsToDelete ++ [OpenContract.ContractID openContract])
  else mret (s, contractsToDelete).

(** The body of the loop over [s.OpenContracts]. *)
Definition maintainContract (st : State.t * list Hash) (p : ptr)
  : run (State.t * list Hash) :=
  let '(s, contractsToDelete) := st in
  s ← windowRollover s p;
  terminateContract (s, contractsToDelete) p.

(** [integrateBlock].  Go leaves the order in which a map is ranged over
    open; the loop over the open contracts takes them in the order of
    [map_to_list]. *)
Definition integrateBlock (s : State.t) (b : Block.t)
  : run (State.t * option error) :=
  let '(s, appliedTransactions, minerSubsidy, err) :=
    applyTransactions b s (Block.Transactions b) [] 0%N in
  match err with
  | Some e =>
      mret (fold_left reverseTransaction (rev appliedTransactions) s, Some e)
  | None =>
      '(s, contractsToDelete) ←
        forEach maintainContract (s, [])
          (map snd (map_to_list (State.OpenContracts s)));
      let s := fold_left
                 (fun s contractID => State.with_OpenContracts (delete contractID) s)
                 contractsToDelete s in
      let minerSubsidy := (minerSubsidy + 1000)%N in
      let minerSubsidyOutput := Output.mk minerSubsidy (Block.MinerAddress b) in
      let s := State.with_UnspentOutputs <[SubsidyID b := minerSubsidyOutput]> s in
      let s := State.with_CurrentBlock (ID b) s in
      node ← nodeOf s (ID b);
      mret (State.with_CurrentPath <[BlockNode.Height node := ID b]> s, None)
  end.

(** ** The block tree *)

Definition zeroBlock : Block.t := Block.mk zeroHash 0 0 zeroHash zeroHash [].

(** [addBlockToTree]: [new(BlockNode)] takes an address that is not in use. *)
Definition addBlockToTree (s : State.t) (parentNode : ptr) (b : Block.t)
  : run (State.t * ptr) :=
  let newNode := fresh (dom (State.nodes s)) in
  parent ← deref (State.nodes s !! parentNode);
  let height := u64 (BlockNode.Height parent + 1) in
  let timestamps :=
    <[10%nat := Block.Timestamp b]>
      (take 11 (drop 1 (BlockNode.RecentTimestamps parent) ++ replicate 11 0)) in
  let node := BlockNode.mk b [] height timestamps zeroHash zeroHash [] [] in
  target ← childTarget s parent node;
  depth ← childDepth parent;
  let node := BlockNode.mk b [] height timestamps target depth [] [] in
  let s := State.with_nodes <[newNode := node]> s in
  let s := State.with_BlockMap <[ID b := newNode]> s in
  parent ← deref (State.nodes s !! parentNode);
  let s := State.with_nodes
             <[parentNode := BlockNode.with_Children (fun l => l ++ [newNode]) parent]>
             s in
  mret (s, newNode).

(** [invalidateNode]: the recursion follows the [Children] pointers, whose
    depth the types do not bound. *)
Fixpoint invalidateNode (fuel : nat) (s : State.t) (node : ptr) : run State.t :=
  match fuel with
  | O => OutOfFuel
  | S fuel' =>
      n ← deref (State.nodes s !! node);
      s ← forEach (invalidateNode fuel') s (BlockNode.Children n);
      n ← deref (State.nodes s !! node);
      let id := ID (BlockNode.Block n) in
      mret (markBad id (State.with_BlockMap (delete id) s))
  end.

(** ** Reorganisation *)

(** Lines 351-358 of [forkBlockchain]: walk up to the common parent. *)
Fixpoint findCommonParent (fuel : nat) (s : State.t) (currentNode : ptr)
    (value : Hash) (parentHistory : list Hash) : run (ptr * list Hash) :=
  match fuel with
  | O => OutOfFuel
  | S fuel' =>
      n ← deref (State.nodes s !! currentNode);
      if decide (value = ID (BlockNode.Block n)) then
        mret (currentNode, parentHistory)
      else
        let parentHistory := parentHistory ++ [ID (BlockNode.Block n)] in
        currentNode ←
          deref (State.BlockMap s !! Block.ParentBlock (BlockNode.Block n));
        n ← deref (State.nodes s !! currentNode);
        findCommonParent fuel' s currentNode (pathAt s (BlockNode.Height n))
          parentHistory
  end.

(** Lines 362-366: rewind down to the common parent. *)
Fixpoint rewindToParent (fuel : nat) (s : State.t) (currentNode : ptr)
    (rewoundBlocks : list Hash) : run (State.t * list Hash) :=
  match fuel with
  | O => OutOfFuel
  | S fuel' =>
      n ← deref (State.nodes s !! currentNode);
      if decide (State.CurrentBlock s = ID (BlockNode.Block n)) then
        mret (s, rewoundBlocks)
      else
        let rewoundBlocks := rewoundBlocks ++ [State.CurrentBlock s] in
        s ← rewindABlock s;
        rewindToParent fuel' s currentNode rewoundBlocks
  end.

(** Lines 381-383: rewind the blocks of the new fork that were applied. *)
Fixpoint rewindValidated (s : State.t) (validatedBlocks : nat) : run State.t :=
  match validatedBlocks with
  | O => mret s
  | S k => s ← rewindABlock s; rewindValidated s k
  end.

(** Lines 386-391: apply the rewound blocks again; [ids] is
    [rewoundBlocks] from its last element to its first, [err] the value of
    the result variable when the loop is entered. *)
Fixpoint reintegrate (s : State.t) (err : option error) (ids : list Hash)
  : run (State.t * option error) :=
  match ids with
  | [] => mret (s, err)
  | id :: ids' =>
      n ← nodeOf s id;
      '(s, err) ← integrateBlock s (BlockNode.Block n);
      match err with
      | Some _ => Panic
      | None => reintegrate s err ids'
      end
  end.

(** Lines 372-396: [history] is [parentHistory] from its last element to
    its first. *)
Fixpoint integrateFork (fuel : nat) (s : State.t) (rewoundBlocks : list Hash)
    (history : list Hash) (validatedBlocks : nat) (err : option error)
  : run (State.t * option error) :=
  match history with
  | [] => mret (s, err)
  | id :: history' =>
      n ← nodeOf s id;
      '(s, err) ← integrateBlock s (BlockNode.Block n);
      match err with
      | Some _ =>
          p ← deref (State.BlockMap s !! id);
          s ← invalidateNode fuel s p;
          s ← rewindValidated s validatedBlocks;
          reintegrate s err (rev rewoundBlocks)
      | None =>
          integrateFork fuel s rewoundBlocks history' (S validatedBlocks) err
      end
  end.

Definition forkBlockchain (fuel : nat) (s : State.t) (newNode : ptr)
  : run (State.t * option error) :=
  n ← deref (State.nodes s !! newNode);
  '(currentNode, parentHistory) ←
    findCommonParent fuel s newNode (pathAt s (BlockNode.Height n)) [];
  '(s, rewoundBlocks) ← rewindToParent fuel s currentNode [];
  integrateFork fuel s rewoundBlocks (rev parentHistory) 0 None.

(** [AcceptBlock], without the lock and the broadcast. *)
Definition AcceptBlock (now : Z) (fuel : nat) (s : State.t) (b : Block.t)
  : run (State.t * option error) :=
  match checkMaps s b with
  | inl err => mret (s, Some err)
  | inr parentBlockNode =>
      '(s, err) ← validateHeader now s parentBlockNode b;
      match err with
      | Some _ => mret (s, err)
      | None =>
          '(s, newBlockNode) ← addBlockToTree s parentBlockNode b;
          n ← deref (State.nodes s !! newBlockNode);
          heavier ← heavierFork s n;
          if heavier : bool then forkBlockchain fuel s newBlockNode
          else mret (s, None)
      end
  end.

End Consensus.

(** ** What the round trip of a transaction needs

    [reverseTransaction] is meant to undo [applyTransaction]; both are
    defined outside blocks.go.  The laws below say so, and that reversing a
    transaction leaves the set of bad blocks alone. *)
Class TransactionLaws `{Externals} : Prop := {
  reverse_apply (s : State.t) (txn : Transaction.t) :
    validTransaction s txn = None ->
    reverseTransaction (applyTransaction s txn) txn = s;
  reverse_markBad (id : Hash) (s : State.t) (txn : Transaction.t) :
    reverseTransaction (markBad id s) txn = markBad id (reverseTransaction s txn)
}.

(** The state reached by applying a list of transactions each of which is
    valid in the state it is applied to. *)
Fixpoint applyValid `{Externals} (s : State.t) (txns : list Transaction.t)
  : option State.t :=
  match txns with
  | [] => Some s
  | txn :: txns' =>
      match validTransaction s txn with
      | None => applyValid (applyTransaction s txn) txns'
      | Some _ => None
      end
  end.

(** * Negotiation framing (package [modules]) *)

Module Negotiation.

Definition AcceptResponse : string := "accept".
Definition MaxErrorSize : Z := 256.

Section Read.
(** [net.Conn], and [encoding.ReadObject(conn, &resp, maxLen)] at type
    [string], which lives in package [encoding]: it consumes input from the
    connection and yields the decoded string or an error. *)
Context {Conn : Type}.
Variable ReadObject : Conn -> Z -> Conn * (error + string).

Definition ReadNegotiationAcceptance (conn : Conn) : Conn * option error :=
  let '(conn, r) := ReadObject conn MaxErrorSize in
  match r with
  | inl err => (conn, Some err)
  | inr resp =>
      if negb (String.eqb resp AcceptResponse) then (conn, Some (errors_New resp))
      else (conn, None)
  end.

End Read.

End Negotiation.

(** * Notions for the properties of the tree, the ledger and the framing *)

(** The nodes below a node, following [Children]. *)
Inductive inSubtree (nodes : gmap positive BlockNode.t) : positive -> positive -> Prop :=
| inSubtree_here (p : positive) (n : BlockNode.t) :
    nodes !! p = Some n -> inSubtree nodes p p
| inSubtree_child (p c q : positive) (n : BlockNode.t) :
    nodes !! p = Some n -> c ∈ BlockNode.Children n ->
    inSubtree nodes c q -> inSubtree nodes p q.

(** The subtree of a node is in the store and at most [d] levels deep. *)
Fixpoint subtreeWithin (nodes : gmap positive BlockNode.t) (d : nat) (p : positive)
  : bool :=
  match d with
  | O => false
  | S d' =>
      match nodes !! p with
      | None => false
      | Some n => forallb (subtreeWithin nodes d') (BlockNode.Children n)
      end
  end.

(** What [invalidateNode] keeps: the store of nodes, the tip, the path
    and the ledger; bad blocks are only added, entries of the block map
    only removed. *)
Definition invalidated (s s' : State.t) : Prop :=
  State.nodes s' = State.nodes s
  /\ State.BlockRoot s' = State.BlockRoot s
  /\ State.CurrentBlock s' = State.CurrentBlock s
  /\ State.CurrentPath s' = State.CurrentPath s
  /\ State.UnspentOutputs s' = State.UnspentOutputs s
  /\ State.OpenContracts s' = State.OpenContracts s
  /\ State.contracts s' = State.contracts s
  /\ State.BadBlocks s ⊆ State.BadBlocks s'
  /\ State.BlockMap s' ⊆ State.BlockMap s.


(** The blocks with the given ids are applied one after the other, each
    without an error. *)
Inductive integrated `{Externals} : State.t -> list Hash -> State.t -> Prop :=
| integrated_nil (s : State.t) : integrated s [] s
| integrated_cons (s s1 s' : State.t) (id : Hash) (ids : list Hash)
    (n : BlockNode.t) :
    nodeOf s id = Ret n ->
    integrateBlock s (BlockNode.Block n) = Ret (s1, None) ->
    integrated s1 ids s' ->
    integrated s (id :: ids) s'.

(** The writing side of the negotiation framing. *)
Module NegotiationWriters.
Import Negotiation.

Section Write.
(** [encoding.WriteObject(conn, s)] at type [string] and
    [build.JoinErrors(errs, sep)] live in other packages. *)
Context {Conn : Type}.
Variable WriteObject : Conn -> string -> Conn * option error.
Variable JoinErrors : list (option error) -> string -> option error.

Definition WriteNegotiationAcceptance (conn : Conn) : Conn * option error :=
  WriteObject conn AcceptResponse.

Definition WriteNegotiationRejection (conn : Conn) (err : error)
  : Conn * option error :=
  let '(conn, writeErr) := WriteObject conn (Error err) in
  (conn, JoinErrors [Some err; writeErr] "; ").

End Write.

End NegotiationWriters.

(** A connection that holds the last object written, for the examples.
    An encoded string takes 8 bytes for its length and then its bytes;
    reading fails when that is more than the limit. *)
Module ToyConn.
Definition errEmpty := errors_New "EOF".
Definition errTooLong := errors_New "encoded object exceeds size limit".
Definition encodedLen (s : string) : Z := 8 + Z.of_nat (String.length s).
Definition WriteObject (conn : option string) (s : string)
  : option string * option error := (Some s, None).
Definition ReadObject (conn : option string) (maxLen : Z)
  : option string * (error + string) :=
  match conn with
  | None => (None, inl errEmpty)
  | Some s =>
      if encodedLen s <=? maxLen then (None, inr s)
      else (None, inl errTooLong)
  end.
Definition JoinErrors (errs : list (option error)) (sep : string)
  : option error :=
  match omap id errs with
  | [] => None
  | e :: es =>
      Some (errors_New
              (fold_left (fun acc e' => (acc ++ sep ++ Error e')%string) es
                 (Error e)))
  end.
End ToyConn.

(** * The contractor (package [contractor]) *)

Module Contractor.

(** [resolveID]: follow [c.renewedIDs] from [id] for as long as there is
    an entry.  Nothing bounds the number of rounds of the loop, so it
    takes fuel, one unit a round. *)
Fixpoint resolveID (fuel : nat) (renewedIDs : gmap (list byte) (list byte))
    (id : list byte) : run (list byte) :=
  match renewedIDs !! id with
  | None => Ret id
  | Some newID =>
      match fuel with
      | O => OutOfFuel
      | S fuel' => resolveID fuel' renewedIDs newID
      end
  end.

(** The ids the loop of [resolveID] goes through from [id] to its
    result. *)
Inductive chain (renewedIDs : gmap (list byte) (list byte))
  : list byte -> list (list byte) -> list byte -> Prop :=
| chain_end (id : list byte) :
    renewedIDs !! id = None -> chain renewedIDs id [] id
| chain_step (id newID r : list byte) (ids : list (list byte)) :
    renewedIDs !! id = Some newID ->
    chain renewedIDs newID ids r ->
    chain renewedIDs id (id :: ids) r.

End Contractor.

(** [SectorSize] of package [modules], as a function of [build.Release]. *)
Definition SectorSize (Release : string) : run Z :=
  if String.eqb Release "dev" then Ret (Z.shiftl 1 20)
  else if String.eqb Release "standard" then Ret (Z.shiftl 1 22)
  else if String.eqb Release "testing" then Ret (Z.shiftl 1 12)
  else Panic.

(** ** What undoing a transaction leaves alone

    [reverseTransaction] is not in blocks.go.  It is taken to undo a
    transaction in the ledger only: the tip, the block map, the nodes and
    the path are not its business. *)
Class TransactionFrame `{Externals} : Prop := {
  reverse_frame : forall (s : State.t) (txn : Transaction.t),
    State.CurrentBlock (reverseTransaction s txn) = State.CurrentBlock s
    /\ State.BlockMap (reverseTransaction s txn) = State.BlockMap s
    /\ State.nodes (reverseTransaction s txn) = State.nodes s
    /\ State.CurrentPath (reverseTransaction s txn) = State.CurrentPath s
}.

(** The tree and the path are the same in both states. *)
Definition sameChain (s s' : State.t) : Prop :=
  State.CurrentBlock s' = State.CurrentBlock s
  /\ State.BlockMap s' = State.BlockMap s
  /\ State.nodes s' = State.nodes s
  /\ State.CurrentPath s' = State.CurrentPath s.

(** * A small instance

    Stand-ins for the hash and transaction functions, used to run the
    code on concrete chains.  Identifiers are 32-byte encodings of small
    numbers; a transaction creates its outputs and is valid when none of
    them exists yet. *)

Module Toy.

Definition be32 (z : Z) : Hash :=
  replicate (32 - length (Bytes z)) x00 ++ Bytes z.

Definition outputsFresh (s : State.t) (txn : Transaction.t) : bool :=
  forallb (fun k => bool_decide (State.UnspentOutputs s !! k = None))
          (Transaction.Outputs txn).*1.

Definition errDoubleOutput := errors_New "output already exists".

#[local] Instance externals : Externals := {|
  ID b := be32 (Block.Nonce b);
  SubsidyID b := be32 (1000 + Block.Nonce b);
  HashTransaction txn :=
    be32 (Z.of_N (fold_left N.add (Transaction.MinerFees txn) 0%N));
  hash_MerkleRoot l := be32 (fold_left (fun acc h => (31 * acc + SetBytes h) mod 2 ^ 256) l 0);
  StorageProofOutputID fc cid h valid :=
    inr (be32 (20000 + SetBytes cid * 200 + 2 * h + Z.b2z valid));
  ContractTerminationOutputID fc cid status :=
    be32 (10000 + SetBytes cid * 2 + Z.b2z status);
  validTransaction s txn :=
    if outputsFresh s txn then None else Some errDoubleOutput;
  applyTransaction s txn :=
    State.with_UnspentOutputs
      (fun u => list_to_map (Transaction.Outputs txn) ∪ u) s;
  reverseTransaction s txn :=
    State.with_UnspentOutputs
      (fun u => foldr delete u (Transaction.Outputs txn).*1) s;
  FutureThreshold := 10800;
  TargetWindow := 5000;
  BlockFrequency := 600;
  MaxAdjustmentUp := 1001 # 1000;
  MaxAdjustmentDown := 999 # 1000
|}.

(** A genesis block [g], a block [x1] on it, a block [x2] on [x1], and a
    competing branch [w1], [w2] on [g] whose second block carries an
    invalid transaction. *)
Definition maxTarget : Hash := replicate 32 xff.
Definition miner : Hash := be32 77.

(** A transaction with one output, and one that creates the same output
    once more. *)
Definition tx1 : Transaction.t :=
  Transaction.mk [] [(be32 300, Output.mk 10 miner)] [5%N].
Definition tx2 : Transaction.t :=
  Transaction.mk [] [(be32 300, Output.mk 20 miner)] [].

Definition g : Block.t := Block.mk zeroHash 1000 100 miner (hash_MerkleRoot []) [].
Definition x1 : Block.t := Block.mk (ID g) 1600 101 miner (hash_MerkleRoot []) [].
Definition x2 : Block.t := Block.mk (ID x1) 2200 102 miner (hash_MerkleRoot []) [].
Definition w1 : Block.t := Block.mk (ID g) 1600 201 miner (hash_MerkleRoot []) [].
Definition w2 : Block.t :=
  Block.mk (ID w1) 2200 202 miner
    (hash_MerkleRoot (map HashTransaction [tx1; tx2])) [tx1; tx2].
Definition badBlock : Block.t :=
  Block.mk (ID x1) 2200 106 miner
    (hash_MerkleRoot (map HashTransaction [tx1; tx2])) [tx1; tx2].

Definition gNode : BlockNode.t :=
  BlockNode.mk g [] 0 (replicate 11 1000) maxTarget maxTarget [] [].

(** The state that holds the genesis block only. *)
Definition genesis : State.t :=
  State.mk 1%positive ∅ (<[ID g := 1%positive]> ∅) (ID g) (<[0 := ID g]> ∅)
    ∅ ∅ (<[1%positive := gNode]> ∅) ∅.

Definition after (r : run (State.t * option error)) : State.t :=
  match r with
  | Ret (s, _) => s
  | _ => genesis
  end.

Definition attached (r : run (State.t * ptr)) : State.t :=
  match r with
  | Ret (s, _) => s
  | _ => genesis
  end.

Definition rewound (r : run State.t) : State.t :=
  match r with
  | Ret s => s
  | _ => genesis
  end.

(** The wall clock and the fuel of the runs. *)
Definition now : Z := 5000.
Definition fuel : nat := 8.

(** [x1] accepted on the genesis block: it becomes the tip.  Its node is
    at address 2. *)
Definition atX1 : State.t := after (AcceptBlock now fuel genesis x1).

Definition x1Node : BlockNode.t :=
  BlockNode.mk x1 [] 1 (replicate 10 1000 ++ [1600]) maxTarget
    (be32 (2 ^ 255 - 1)) [] [].

(** [x2] or [badBlock] added to the tree of [atX1], at address 3, and not
    applied yet. *)
Definition x2Attached : State.t := attached (addBlockToTree atX1 2%positive x2).
Definition badAttached : State.t :=
  attached (addBlockToTree atX1 2%positive badBlock).

Definition x2Node : BlockNode.t :=
  BlockNode.mk x2 [] 2 (replicate 9 1000 ++ [1600; 2200]) maxTarget
    (be32 ((2 ^ 256 - 1) / 3 - 1)) [] [].

(** [x2] applied on the tip [x1], and rewound again. *)
Definition atX2 : State.t := after (integrateBlock x2Attached x2).
Definition backAtX1 : State.t := rewound (rewindABlock atX2).

(** [w1] accepted after [x1]: as heavy as [x1], it stays off the path. *)
Definition withW1 : State.t := after (AcceptBlock now fuel atX1 w1).

(** [w2] added to the tree of [withW1], at address 4. *)
Definition w2Attached : State.t := attached (addBlockToTree withW1 3%positive w2).

(** An open contract at address 1 of the contract store. *)
Definition withContract (c : OpenContract.t) (s : State.t) : State.t :=
  State.with_contracts <[1%positive := c]>
    (State.with_OpenContracts <[OpenContract.ContractID c := 1%positive]> s).

(** A contract whose windows are two blocks long, from height 0 on. *)
Definition fcTwo : FileContract.t :=
  FileContract.mk 0 100 2 3 50 (be32 88) (be32 99).
Definition ocTwo : OpenContract.t := OpenContract.mk fcTwo (be32 5) 100 0 false.

(** A contract whose windows are one block long and that tolerates a
    single missed proof. *)
Definition fcOne : FileContract.t :=
  FileContract.mk 0 100 1 1 50 (be32 88) (be32 99).
Definition ocOne : OpenContract.t := OpenContract.mk fcOne (be32 5) 100 0 false.

(** [x2] applied on the tip [x1] with one of the contracts open, and, for
    [ocOne], rewound again. *)
Definition atX2One : State.t :=
  after (integrateBlock (withContract ocOne x2Attached) x2).
Definition backAtX1One : State.t := rewound (rewindABlock atX2One).
Definition atX2Two : State.t :=
  after (integrateBlock (withContract ocTwo x2Attached) x2).

(** The steps of the reorganisation towards [w2], and its outcome. *)
Definition w2Rewound : State.t := rewound (rewindABlock w2Attached).
Definition w2AtW1 : State.t := after (integrateBlock w2Rewound w1).
Definition w2Failed : State.t := after (integrateBlock w2AtW1 w2).
Definition w2Outcome : State.t := after (forkBlockchain fuel w2Attached 4%positive).

(** Blocks for the header checks: [y2] has an id above 102, [z2] carries
    the median of the recent timestamps of [x1]'s node (1000) as its
    timestamp; in [tightTarget] the target of [x1]'s node is the id of
    [x2]. *)
Definition y2 : Block.t := Block.mk (ID x1) 2300 103 miner (hash_MerkleRoot []) [].
Definition z2 : Block.t := Block.mk (ID x1) 1000 104 miner (hash_MerkleRoot []) [].

Definition tightNode : BlockNode.t :=
  BlockNode.mk x1 [] 1 (replicate 10 1000 ++ [1600]) (be32 102)
    (be32 (2 ^ 255 - 1)) [] [].
Definition tightTarget : State.t :=
  State.with_nodes <[2%positive := tightNode]> atX1.

(** A node at height 2 for a block that comes 2000 seconds after the
    genesis block, where 1200 were expected. *)
Definition slowBlock : Block.t :=
  Block.mk (ID x1) 3000 105 miner (hash_MerkleRoot []) [].
Definition slowNode : BlockNode.t :=
  BlockNode.mk slowBlock [] 2 (replicate 9 1000 ++ [1600; 3000]) zeroHash
    zeroHash [] [].

End Toy.

(** * More inputs for the examples *)

Module Sample.
Import Toy.
#[local] Existing Instance Toy.externals.

(** A block on [x1] whose timestamp (900) is below the median (1000) of
    the recent timestamps of [x1]'s node, and the state [validateHeader]
    leaves when it is handed in. *)
Definition oldBlock : Block.t :=
  Block.mk (ID x1) 900 107 miner (hash_MerkleRoot []) [].
Definition oldRejected : State.t :=
  after (validateHeader now atX1 2%positive oldBlock).

(** The node of [x1] once [x2] is its child, and the nodes of [w1] and
    [w2]. *)
Definition x1Parent : BlockNode.t :=
  BlockNode.with_Children (fun l => l ++ [3%positive]) x1Node.
Definition w1Node : BlockNode.t :=
  BlockNode.mk w1 [] 1 (replicate 10 1000 ++ [1600]) maxTarget
    (be32 (2 ^ 255 - 1)) [] [].
Definition w2Node : BlockNode.t :=
  BlockNode.mk w2 [] 2 (replicate 9 1000 ++ [1600; 2200]) maxTarget
    (be32 ((2 ^ 256 - 1) / 3 - 1)) [] [].

(** The node of the genesis block once [x1] is its child, and [w1] added
    to the tree of [atX1], at address 3. *)
Definition gParent : BlockNode.t :=
  BlockNode.with_Children (fun l => l ++ [2%positive]) gNode.
Definition w1Attached : State.t := attached (addBlockToTree atX1 1%positive w1).

(** A node whose target is zero. *)
Definition zeroNode : BlockNode.t :=
  BlockNode.mk g [] 0 (replicate 11 1000) zeroHash maxTarget [] [].

(** The branch [w1], [w2] invalidated from [w1] (address 3) on. *)
Definition w1Invalidated : State.t :=
  rewound (invalidateNode 3 w2Attached 3%positive).

(** [x2] applied by the last loop of [forkBlockchain]. *)
Definition x2Forked : State.t :=
  after (integrateFork fuel x2Attached [] [ID x2] 0 None).

(** A contract that ends at height 1, with its proof seen. *)
Definition fcEnd : FileContract.t :=
  FileContract.mk 0 1 5 3 50 (be32 88) (be32 99).
Definition ocEnd : OpenContract.t := OpenContract.mk fcEnd (be32 5) 100 0 true.

(** Renewals: contract 1 was renewed to 2 and 2 to 3; and a contract
    recorded as its own renewal. *)
Definition renewals : gmap (list byte) (list byte) :=
  <[be32 1 := be32 2]> (<[be32 2 := be32 3]> ∅).
Definition selfRenewal : gmap (list byte) (list byte) :=
  <[be32 1 := be32 1]> ∅.

End Sample.

(** * Properties *)

Ltac run_simpl :=
  unfold mret, run_ret, mbind, run_bind, bind, deref in *; simpl in *.

(** Closed facts about runs of the example are settled by evaluation. *)
Ltac by_evaluation :=
  repeat lazymatch goal with
         | |- _ /\ _ => split
         | |- exists _, _ => eexists
         end;
  vm_compute; reflexivity.

(** ** Reading the outcome of a run of the example *)

Section RunFacts.

Lemma Toy_after_ran (r : run (State.t * option error)) (e : option error) :
  snd <$> r = Ret e -> r = Ret (Toy.after r, e).
Proof. destruct r as [[s e']| |]; simpl; intros [=]. congruence. Qed.

Lemma Toy_attached_ran (r : run (State.t * positive)) (p : positive) :
  snd <$> r = Ret p -> r = Ret (Toy.attached r, p).
Proof. destruct r as [[s p']| |]; simpl; intros [=]. congruence. Qed.

Lemma Toy_rewound_ran (r : run State.t) :
  returns r = true -> r = Ret (Toy.rewound r).
Proof. destruct r; simpl; intros [=]. reflexivity. Qed.

End RunFacts.

(** ** Bytes and big integers *)

Section GoFacts.

Lemma byte_val_range (b : byte) : 0 <= byte_val b < 256.
Proof.
  unfold byte_val. pose proof (Byte.to_N_bounded b) as Hb. lia.
Qed.

Lemma byte_val_of_Z (z : Z) : byte_val (byte_of_Z z) = z mod 256.
Proof.
  unfold byte_val, byte_of_Z.
  assert (Hr : 0 <= z mod 256 < 256) by (apply Z.mod_pos_bound; lia).
  destruct (Byte.of_N (Z.to_N (z mod 256))) as [b|] eqn:Hb.
  - apply Byte.to_of_N in Hb. rewrite Hb. lia.
  - apply Byte.of_N_None_iff in Hb. lia.
Qed.

Lemma fold_SetBytes (l : list byte) (acc : Z) :
  fold_left (fun acc b => 256 * acc + byte_val b) l acc
  = acc * 256 ^ Z.of_nat (length l) + SetBytes l.
Proof.
  unfold SetBytes. revert acc.
  induction l as [|b l IH]; intros acc; simpl fold_left.
  - simpl. lia.
  - rewrite IH, (IH (256 * 0 + byte_val b)).
    change (length (b :: l)) with (S (length l)).
    rewrite Nat2Z.inj_succ, Z.pow_succ_r by lia. ring.
Qed.

Lemma SetBytes_cons (b : byte) (l : list byte) :
  SetBytes (b :: l) = byte_val b * 256 ^ Z.of_nat (length l) + SetBytes l.
Proof.
  unfold SetBytes at 1. simpl fold_left. rewrite fold_SetBytes. ring.
Qed.

Lemma SetBytes_app (a b : list byte) :
  SetBytes (a ++ b) = SetBytes a * 256 ^ Z.of_nat (length b) + SetBytes b.
Proof.
  unfold SetBytes at 1. rewrite fold_left_app.
  fold (SetBytes a). apply fold_SetBytes.
Qed.

Lemma SetBytes_bound (l : list byte) :
  0 <= SetBytes l < 256 ^ Z.of_nat (length l).
Proof.
  induction l as [|b l IH].
  - unfold SetBytes. simpl. lia.
  - rewrite SetBytes_cons.
    change (length (b :: l)) with (S (length l)).
    rewrite Nat2Z.inj_succ, Z.pow_succ_r by lia.
    pose proof (byte_val_range b). nia.
Qed.

Lemma SetBytes_zeros (n : nat) (l : list byte) :
  SetBytes (replicate n x00 ++ l) = SetBytes l.
Proof.
  induction n as [|n IH]; [reflexivity|].
  simpl. rewrite SetBytes_cons, IH. reflexivity.
Qed.

Lemma le_digits_value (fuel : nat) (z : Z) :
  0 <= z < 2 ^ Z.of_nat fuel -> SetBytes (rev (le_digits fuel z)) = z.
Proof.
  revert z. induction fuel as [|fuel IH]; intros z Hz.
  - simpl in *. unfold SetBytes. simpl. lia.
  - simpl le_digits. destruct (Z.leb_spec z 0) as [Hle|Hgt].
    + unfold SetBytes. simpl. lia.
    + simpl rev. rewrite SetBytes_app, IH.
      * unfold SetBytes at 1. simpl fold_left. rewrite byte_val_of_Z.
        simpl length. pose proof (Z.div_mod z 256). lia.
      * rewrite Nat2Z.inj_succ, Z.pow_succ_r in Hz by lia.
        split; [apply Z.div_pos; lia|].
        apply Z.div_lt_upper_bound; lia.
Qed.

Lemma le_digits_short (k fuel : nat) (z : Z) :
  z < 256 ^ Z.of_nat k -> (length (le_digits fuel z) <= k)%nat.
Proof.
  revert fuel z. induction k as [|k IH]; intros fuel z Hz.
  - destruct fuel as [|fuel]; simpl; [lia|].
    destruct (Z.leb_spec z 0); simpl in *; lia.
  - destruct fuel as [|fuel]; simpl; [lia|].
    destruct (Z.leb_spec z 0); simpl; [lia|].
    apply le_n_S, IH.
    rewrite Nat2Z.inj_succ, Z.pow_succ_r in Hz by lia.
    apply Z.div_lt_upper_bound; lia.
Qed.

Lemma Bytes_value (x : Z) : SetBytes (Bytes x) = Z.abs x.
Proof.
  unfold Bytes. apply le_digits_value.
  split; [lia|].
  destruct (Z.eq_dec (Z.abs x) 0) as [->|Hne].
  - simpl. lia.
  - rewrite Nat2Z.inj_add, Z2Nat.id by apply Z.log2_nonneg.
    change (Z.of_nat 1) with 1. rewrite Z.add_1_r.
    apply Z.log2_spec. lia.
Qed.

Lemma Bytes_length (x : Z) (k : nat) :
  (length (Bytes x) <= k)%nat <-> Z.abs x < 256 ^ Z.of_nat k.
Proof.
  split.
  - intros Hlen. rewrite <- (Bytes_value x).
    pose proof (SetBytes_bound (Bytes x)) as [_ Hb].
    eapply Z.lt_le_trans; [exact Hb|].
    apply Z.pow_le_mono_r; lia.
  - intros Hx. unfold Bytes. rewrite length_rev.
    apply le_digits_short, Hx.
Qed.

(** Copying the bytes of a number into a zeroed 32-byte array at offset
    [32 - len]: a panic when they do not fit, the number padded with
    leading zeros when they do. *)
Lemma copy_at_Bytes (x : Z) :
  (2 ^ 256 <= Z.abs x ->
   copy_at zeroHash (32 - Z.of_nat (length (Bytes x))) (Bytes x) = Panic)
  /\ (Z.abs x < 2 ^ 256 ->
      copy_at zeroHash (32 - Z.of_nat (length (Bytes x))) (Bytes x)
      = Ret (replicate (32 - length (Bytes x)) x00 ++ Bytes x)
      /\ (length (Bytes x) <= 32)%nat).
Proof.
  pose proof (Bytes_length x 32) as Hlen.
  change (256 ^ Z.of_nat 32) with (2 ^ 256) in Hlen.
  unfold copy_at. change (length zeroHash) with 32%nat.
  split; intros Hx.
  - assert (Hlt : 32 - Z.of_nat (length (Bytes x)) < 0) by lia.
    apply Z.ltb_lt in Hlt. rewrite Hlt. reflexivity.
  - apply Hlen in Hx. split; [|exact Hx].
    destruct (Z.ltb_spec (32 - Z.of_nat (length (Bytes x))) 0); [lia|].
    destruct (Z.ltb_spec (Z.of_nat 32) (32 - Z.of_nat (length (Bytes x)))); [lia|].
    simpl orb. cbv iota. f_equal.
    replace (Z.to_nat (32 - Z.of_nat (length (Bytes x))))
      with (32 - length (Bytes x))%nat by lia.
    set (o := (32 - length (Bytes x))%nat).
    replace (Nat.min (32 - o) (length (Bytes x))) with (length (Bytes x))
      by (subst o; lia).
    rewrite firstn_all.
    replace (o + length (Bytes x))%nat with 32%nat by (subst o; lia).
    unfold zeroHash. rewrite take_replicate, drop_replicate.
    replace (32 - 32)%nat with 0%nat by lia.
    replace (o `min` 32)%nat with o by (subst o; lia).
    simpl replicate. rewrite app_nil_r. reflexivity.
Qed.

Lemma bytes_Compare_SetBytes (a b : list byte) :
  length a = length b ->
  bytes_Compare a b
  = match SetBytes a ?= SetBytes b with Lt => -1 | Eq => 0 | Gt => 1 end.
Proof.
  revert b. induction a as [|x a IH]; intros [|y b] Hlen;
    try discriminate; [reflexivity|].
  injection Hlen as Hlen. simpl bytes_Compare.
  rewrite !SetBytes_cons, <- Hlen.
  pose proof (SetBytes_bound a) as Ha.
  pose proof (SetBytes_bound b) as Hb. rewrite <- Hlen in Hb.
  set (P := 256 ^ Z.of_nat (length a)) in *.
  destruct (Z.compare_spec (byte_val x) (byte_val y)) as [Heq|Hlt|Hgt].
  - rewrite IH, Heq, Z.add_compare_mono_l by exact Hlen. reflexivity.
  - replace (byte_val x * P + SetBytes a ?= byte_val y * P + SetBytes b)
      with Lt; [reflexivity|].
    symmetry. apply Z.compare_lt_iff. nia.
  - replace (byte_val x * P + SetBytes a ?= byte_val y * P + SetBytes b)
      with Gt; [reflexivity|].
    symmetry. apply Z.compare_gt_iff. nia.
Qed.


Lemma byte_val_inj (x y : byte) : byte_val x = byte_val y -> x = y.
Proof.
  unfold byte_val. intros Hxy. apply N2Z.inj in Hxy.
  pose proof (Byte.of_to_N x) as Hx. pose proof (Byte.of_to_N y) as Hy.
  congruence.
Qed.

Lemma SetBytes_inj (a b : list byte) :
  length a = length b -> SetBytes a = SetBytes b -> a = b.
Proof.
  revert b. induction a as [|x a IH]; intros [|y b] Hlen Hval;
    try discriminate; [reflexivity|].
  injection Hlen as Hlen. rewrite !SetBytes_cons, <- Hlen in Hval.
  pose proof (SetBytes_bound a) as Ha.
  pose proof (SetBytes_bound b) as Hb. rewrite <- Hlen in Hb.
  pose proof (byte_val_range x). pose proof (byte_val_range y).
  set (P := 256 ^ Z.of_nat (length a)) in *.
  assert (Hxy : byte_val x = byte_val y) by nia.
  f_equal; [apply byte_val_inj, Hxy|].
  apply IH; [exact Hlen|]. rewrite Hxy in Hval. lia.
Qed.

(** A byte array is determined by its length and its big-endian value. *)
Lemma pad_Bytes_SetBytes (l : list byte) :
  replicate (length l - length (Bytes (SetBytes l))) x00 ++ Bytes (SetBytes l)
  = l.
Proof.
  pose proof (SetBytes_bound l) as [H0 Hb].
  assert (Hlen : (length (Bytes (SetBytes l)) <= length l)%nat).
  { apply Bytes_length. rewrite Z.abs_eq by exact H0. exact Hb. }
  apply SetBytes_inj.
  - rewrite length_app, length_replicate. lia.
  - rewrite SetBytes_zeros, Bytes_value. apply Z.abs_eq, H0.
Qed.

End GoFacts.

(** ** Sorting the recent timestamps *)

Section SortFacts.

Lemma insert_sorted_perm (x : Z) (l : list Z) : insert_sorted x l ≡ₚ x :: l.
Proof.
  induction l as [|y l IH]; simpl; [reflexivity|].
  destruct (x <=? y); [reflexivity|].
  rewrite IH. apply Permutation_swap.
Qed.

Lemma sort_Ints_perm (l : list Z) : sort_Ints l ≡ₚ l.
Proof.
  induction l as [|x l IH]; simpl; [reflexivity|].
  rewrite insert_sorted_perm, IH. reflexivity.
Qed.

Lemma sort_Ints_length (l : list Z) : length (sort_Ints l) = length l.
Proof. apply Permutation_length, sort_Ints_perm. Qed.

Lemma insert_sorted_sorted (x : Z) (l : list Z) :
  Sorted Z.le l -> Sorted Z.le (insert_sorted x l).
Proof.
  induction l as [|y l IH]; intros Hs; simpl.
  - repeat constructor.
  - destruct (Z.leb_spec x y) as [Hle|Hgt].
    + constructor; [exact Hs|]. constructor. exact Hle.
    + apply Sorted_inv in Hs as [Hs Hhd].
      constructor; [apply IH, Hs|].
      destruct l as [|z l]; simpl.
      * constructor. lia.
      * destruct (x <=? z); constructor; [lia|].
        apply HdRel_inv in Hhd. exact Hhd.
Qed.

Lemma sort_Ints_sorted (l : list Z) : Sorted Z.le (sort_Ints l).
Proof.
  induction l as [|x l IH]; simpl; [constructor|].
  apply insert_sorted_sorted, IH.
Qed.

(** An 11-slot ring always has a median at index 5 of the sorted copy. *)
Lemma median_exists (l : list Z) :
  length l = 11%nat -> exists m, sort_Ints l !! 5%nat = Some m.
Proof.
  intros Hl. apply lookup_lt_is_Some. rewrite sort_Ints_length. lia.
Qed.

End SortFacts.

(** ** Header validation *)

Section HeaderFacts.
Context `{Externals}.

Lemma markBad_elem (id : Hash) (s : State.t) : id ∈ State.BadBlocks (markBad id s).
Proof. unfold markBad. simpl. set_solver. Qed.

Lemma checkTarget_spec (b : Block.t) (target : Hash) :
  length (ID b) = length target ->
  checkTarget b target = true <-> SetBytes (ID b) <= SetBytes target.
Proof.
  intros Hlen. unfold checkTarget.
  rewrite bytes_Compare_SetBytes by (symmetry; exact Hlen).
  destruct (Z.compare_spec (SetBytes target) (SetBytes (ID b)));
    simpl; split; intros; try lia; discriminate.
Qed.

(** C6, as the code has it: [validateHeader] answers "timestamp invalid
    for being in the past" exactly when the block passes the future-skew
    check and its timestamp is strictly below the median of the parent's
    recent timestamps (index 5 of the sorted copy); the block is then in
    [BadBlocks].  A timestamp equal to the median passes this check. *)
Theorem validateHeader_timestamp_too_early
    (now : Z) (s s' : State.t) (parent : ptr) (b : Block.t) :
  validateHeader now s parent b = Ret (s', Some errPast)
  <-> (s' = markBad (ID b) s
       /\ ID b ∈ State.BadBlocks s'
       /\ i64 (Block.Timestamp b - i64 now) <= FutureThreshold
       /\ exists parentNode median,
            State.nodes s !! parent = Some parentNode
            /\ sort_Ints (BlockNode.RecentTimestamps parentNode) !! 5%nat
               = Some median
            /\ Block.Timestamp b < median).
Proof.
  unfold validateHeader.
  destruct (Z.ltb_spec FutureThreshold (i64 (Block.Timestamp b - i64 now)))
    as [Hfut|Hfut].
  { run_simpl. split; [discriminate|]. intros (_ & _ & Hle & _). lia. }
  destruct (State.nodes s !! parent) as [parentNode|] eqn:Hnode; run_simpl.
  2:{ split; [discriminate|]. intros (_ & _ & _ & n & m & Hn & _). discriminate. }
  destruct (sort_Ints (BlockNode.RecentTimestamps parentNode) !! 5%nat)
    as [median|] eqn:Hmed.
  2:{ split; [discriminate|].
      intros (_ & _ & _ & n & m & Hn & Hm & _). congruence. }
  destruct (Z.ltb_spec (Block.Timestamp b) median) as [Hlt|Hge].
  - split.
    + intros [= <-]. repeat split; [apply markBad_elem|exact Hfut|].
      exists parentNode, median. auto.
    + intros (-> & _). reflexivity.
  - split.
    + intros Hr. exfalso.
      destruct (bool_decide _); simpl in Hr; [|discriminate].
      destruct (checkTarget _ _); simpl in Hr; discriminate.
    + intros (_ & _ & _ & n & m & Hn & Hm & Hlt).
      assert (m = median) by congruence. lia.
Qed.

(** C7, as the code has it: once the earlier checks have passed,
    [validateHeader] answers "block does not meet target" exactly when the
    block id is strictly greater than the parent's target as 32-byte
    big-endian numbers; the state, and with it [BadBlocks], is left as it
    was.  A block whose id equals the target meets it. *)
Theorem validateHeader_target_not_met
    (now : Z) (s s' : State.t) (parent : ptr) (parentNode : BlockNode.t)
    (b : Block.t) :
  State.nodes s !! parent = Some parentNode ->
  length (ID b) = 32%nat ->
  length (BlockNode.Target parentNode) = 32%nat ->
  validateHeader now s parent b = Ret (s', Some errTarget)
  <-> (s' = s
       /\ i64 (Block.Timestamp b - i64 now) <= FutureThreshold
       /\ (exists median,
             sort_Ints (BlockNode.RecentTimestamps parentNode) !! 5%nat
             = Some median
             /\ median <= Block.Timestamp b)
       /\ Block.MerkleRoot b = expectedTransactionMerkleRoot b
       /\ SetBytes (BlockNode.Target parentNode) < SetBytes (ID b)).
Proof.
  intros Hnode Hid Htarget. unfold validateHeader.
  destruct (Z.ltb_spec FutureThreshold (i64 (Block.Timestamp b - i64 now)))
    as [Hfut|Hfut].
  { run_simpl. split; [discriminate|]. intros (_ & Hle & _). lia. }
  rewrite Hnode. run_simpl.
  destruct (sort_Ints (BlockNode.RecentTimestamps parentNode) !! 5%nat)
    as [median|] eqn:Hmed.
  2:{ split; [discriminate|]. intros (_ & _ & (m & Hm & _) & _). discriminate. }
  destruct (Z.ltb_spec (Block.Timestamp b) median) as [Hlt|Hge].
  { split; [discriminate|].
    intros (_ & _ & (m & Hm & Hle) & _).
    assert (m = median) by congruence. lia. }
  pose proof (checkTarget_spec b (BlockNode.Target parentNode)) as Hct.
  rewrite Hid, Htarget in Hct. specialize (Hct eq_refl).
  destruct (bool_decide_reflect
              (Block.MerkleRoot b = expectedTransactionMerkleRoot b))
    as [Hmr|Hmr]; simpl.
  2:{ split; [discriminate|]. intros (_ & _ & _ & Hm & _). contradiction. }
  destruct (checkTarget b (BlockNode.Target parentNode)) eqn:Hc; simpl.
  - split; [discriminate|].
    intros (_ & _ & _ & _ & Hgt). apply proj1 in Hct.
    specialize (Hct eq_refl). lia.
  - split.
    + intros [= <-]. repeat split; [exact Hfut| |exact Hmr|].
      * exists median. auto.
      * destruct (Z.le_gt_cases (SetBytes (ID b))
                    (SetBytes (BlockNode.Target parentNode))) as [Hle|Hgt];
          [|lia].
        apply Hct in Hle. discriminate.
    + intros (-> & _). reflexivity.
Qed.

End HeaderFacts.

Section HeaderExamples.
#[local] Existing Instance Toy.externals.

(** A block whose timestamp equals the median of its parent's recent
    timestamps passes [validateHeader] and is not marked bad. *)
Lemma validateHeader_accepts_median_timestamp :
  State.nodes Toy.atX1 !! 2%positive = Some Toy.x1Node
  /\ sort_Ints (BlockNode.RecentTimestamps Toy.x1Node) !! 5%nat
     = Some (Block.Timestamp Toy.z2)
  /\ validateHeader 1000 Toy.atX1 2%positive Toy.z2
     = Ret (Toy.after (validateHeader 1000 Toy.atX1 2%positive Toy.z2), None)
  /\ (ID Toy.z2 ∉ State.BadBlocks
                    (Toy.after (validateHeader 1000 Toy.atX1 2%positive Toy.z2))).
Proof.
  split; [by_evaluation|]. split; [by_evaluation|].
  split; [apply Toy_after_ran; by_evaluation|].
  apply (bool_decide_unpack _). vm_compute. exact I.
Qed.

(** A block whose id equals its parent's target passes [validateHeader]. *)
Lemma validateHeader_accepts_id_equal_target :
  State.nodes Toy.tightTarget !! 2%positive = Some Toy.tightNode
  /\ ID Toy.x2 = BlockNode.Target Toy.tightNode
  /\ validateHeader 2200 Toy.tightTarget 2%positive Toy.x2
     = Ret (Toy.after (validateHeader 2200 Toy.tightTarget 2%positive Toy.x2),
            None).
Proof.
  split; [by_evaluation|]. split; [by_evaluation|].
  apply Toy_after_ran. by_evaluation.
Qed.

Lemma validateHeader_target_not_met_witness :
  State.nodes Toy.tightTarget !! 2%positive = Some Toy.tightNode
  /\ length (ID Toy.y2) = 32%nat
  /\ length (BlockNode.Target Toy.tightNode) = 32%nat
  /\ (validateHeader 2300 Toy.tightTarget 2%positive Toy.y2
      = Ret (Toy.tightTarget, Some errTarget)
      <-> (Toy.tightTarget = Toy.tightTarget
           /\ i64 (Block.Timestamp Toy.y2 - i64 2300) <= FutureThreshold
           /\ (exists median,
                 sort_Ints (BlockNode.RecentTimestamps Toy.tightNode) !! 5%nat
                 = Some median
                 /\ median <= Block.Timestamp Toy.y2)
           /\ Block.MerkleRoot Toy.y2 = expectedTransactionMerkleRoot Toy.y2
           /\ SetBytes (BlockNode.Target Toy.tightNode) < SetBytes (ID Toy.y2))).
Proof.
  assert (H1 : State.nodes Toy.tightTarget !! 2%positive = Some Toy.tightNode)
    by (vm_compute; reflexivity).
  assert (H2 : length (ID Toy.y2) = 32%nat) by (vm_compute; reflexivity).
  assert (H3 : length (BlockNode.Target Toy.tightNode) = 32%nat)
    by (vm_compute; reflexivity).
  repeat (split; [assumption|]).
  exact (validateHeader_target_not_met 2300 Toy.tightTarget Toy.tightTarget
           2%positive Toy.tightNode Toy.y2 H1 H2 H3).
Defined.

(** The block [y2], whose id is above the target, is turned away. *)
Example validateHeader_y2 :
  snd <$> validateHeader 2300 Toy.tightTarget 2%positive Toy.y2
  = Ret (Some errTarget).
Proof. by_evaluation. Qed.

End HeaderExamples.

(** ** Fork choice *)

Section ForkChoiceFacts.
Context `{Externals}.

Lemma NewRat_one_pos (x : Z) : 0 < x -> NewRat 1 x = Ret (1 # Z.to_pos x).
Proof.
  intros Hx. unfold NewRat.
  destruct (Z.eqb_spec x 0); [lia|].
  destruct (Z.ltb_spec 0 x); [reflexivity|lia].
Qed.

Lemma NewRat_zero (a : Z) : NewRat a 0 = Panic.
Proof. reflexivity. Qed.

Lemma frac_one_inv (x : Z) : 0 < x -> (1 # Z.to_pos x == / inject_Z x)%Q.
Proof.
  intros Hx. destruct x as [|p|p]; try lia.
  unfold Qeq, Qinv, inject_Z. simpl. lia.
Qed.

Lemma Rat_Cmp_gt (r q : Q) : (Rat_Cmp r q =? 1) = true <-> (q < r)%Q.
Proof.
  unfold Rat_Cmp. change (q < r)%Q with (r > q)%Q. rewrite Qgt_alt.
  destruct (r ?= q)%Q; simpl; split; intros; congruence.
Qed.

(** C8: with the three byte arrays read as non-zero big-endian integers,
    [heavierFork] returns, and it returns [true] exactly when
    [1/I(n.Depth) > 1/I(tip.Depth) + 5/100 * 1/I(tip.Target)] over the
    rationals. *)
Theorem heavierFork_spec (s : State.t) (tip newNode : BlockNode.t) :
  currentBlockNode s = Ret tip ->
  SetBytes (BlockNode.Depth newNode) <> 0 ->
  SetBytes (BlockNode.Depth tip) <> 0 ->
  SetBytes (BlockNode.Target tip) <> 0 ->
  exists r : bool,
    heavierFork s newNode = Ret r
    /\ (r = true
        <-> (/ inject_Z (SetBytes (BlockNode.Depth tip))
             + (5 # 100) * / inject_Z (SetBytes (BlockNode.Target tip))
             < / inject_Z (SetBytes (BlockNode.Depth newNode)))%Q).
Proof.
  intros Htip Hn Hd Ht.
  pose proof (SetBytes_bound (BlockNode.Depth newNode)) as [Hn0 _].
  pose proof (SetBytes_bound (BlockNode.Depth tip)) as [Hd0 _].
  pose proof (SetBytes_bound (BlockNode.Target tip)) as [Ht0 _].
  unfold heavierFork, currentBlockWeight, Depth. rewrite Htip.
  run_simpl.
  rewrite !NewRat_one_pos by lia.
  eexists. split; [reflexivity|].
  rewrite Rat_Cmp_gt. unfold SurpassThreshold.
  rewrite !frac_one_inv by lia.
  rewrite (Qmult_comm (/ inject_Z (SetBytes (BlockNode.Target tip)))).
  reflexivity.
Qed.

(** A zero depth or target makes [heavierFork] panic instead. *)
Lemma heavierFork_zero_panics (s : State.t) (tip newNode : BlockNode.t) :
  currentBlockNode s = Ret tip ->
  SetBytes (BlockNode.Depth newNode) = 0
  \/ SetBytes (BlockNode.Depth tip) = 0
  \/ SetBytes (BlockNode.Target tip) = 0 ->
  heavierFork s newNode = Panic.
Proof.
  intros Htip Hz.
  unfold heavierFork, currentBlockWeight, Depth. rewrite Htip. run_simpl.
  unfold NewRat.
  destruct (Z.eqb_spec (SetBytes (BlockNode.Target tip)) 0); [reflexivity|].
  destruct (0 <? SetBytes (BlockNode.Target tip));
    (destruct (Z.eqb_spec (SetBytes (BlockNode.Depth tip)) 0); [reflexivity|]);
    (destruct (0 <? SetBytes (BlockNode.Depth tip));
     (destruct (Z.eqb_spec (SetBytes (BlockNode.Depth newNode)) 0);
      [reflexivity|lia])).
Qed.

End ForkChoiceFacts.

(** ** Retargeting *)

Section RetargetFacts.
Context `{Externals}.

Lemma Rat_Cmp_lt (r q : Q) : (Rat_Cmp r q =? -1) = true <-> (r < q)%Q.
Proof.
  unfold Rat_Cmp. rewrite Qlt_alt.
  destruct (r ?= q)%Q; simpl; split; intros; congruence.
Qed.

(** The clamped adjustment is not negative when the clamps are not. *)
Lemma targetAdjustment_nonneg (s : State.t) (newNode : BlockNode.t) (adj : Q) :
  (0 <= MaxAdjustmentDown)%Q -> (0 <= MaxAdjustmentUp)%Q ->
  targetAdjustment s newNode = Ret adj -> (0 <= adj)%Q.
Proof.
  intros Hdown Hup. unfold targetAdjustment.
  match goal with
  | |- context [mbind _ ?m] => destruct m as [[tp etp]| |]
  end; run_simpl; try discriminate.
  destruct (NewRat tp etp) as [r| |]; try discriminate.
  destruct (Rat_Cmp r MaxAdjustmentUp =? 1); [intros [= <-]; exact Hup|].
  destruct (Rat_Cmp r MaxAdjustmentDown =? -1) eqn:Hc;
    [intros [= <-]; exact Hdown|].
  intros [= <-].
  destruct (Qlt_le_dec r MaxAdjustmentDown) as [Hlt|Hge].
  - apply Rat_Cmp_lt in Hlt. congruence.
  - exact (Qle_trans _ _ _ Hdown Hge).
Qed.

Lemma Int_Div_Qred (q : Q) :
  Int_Div (Qnum (Qred q)) (Z.pos (Qden (Qred q))) = Ret (Qfloor q).
Proof.
  unfold Int_Div. simpl.
  rewrite <- (Qfloor_comp _ _ (Qred_correct q)).
  destruct (Qred q). reflexivity.
Qed.

(** C10: [childTarget] copies the bytes of the truncated adjusted target
    [v] at offset [32 - len]; when [v >= 2^256] the offset is negative and
    the call panics; when [v < 2^256] it returns the 32-byte big-endian
    encoding of [v], the quotient truncated toward zero, padded with zero
    bytes on the left. *)
Theorem childTarget_fits_or_panics
    (s : State.t) (parentNode newNode : BlockNode.t) (adj : Q) :
  (0 <= MaxAdjustmentDown)%Q -> (0 <= MaxAdjustmentUp)%Q ->
  targetAdjustment s newNode = Ret adj ->
  let product := (adj * inject_Z (SetBytes (BlockNode.Target parentNode)))%Q in
  let v := Qfloor product in
  v = Qnum product ÷ Z.pos (Qden product)
  /\ (2 ^ 256 <= v -> childTarget s parentNode newNode = Panic)
  /\ (v < 2 ^ 256 ->
      exists target,
        childTarget s parentNode newNode = Ret target
        /\ target = replicate (32 - length (Bytes v)) x00 ++ Bytes v
        /\ length target = 32%nat
        /\ SetBytes target = v).
Proof.
  intros Hdown Hup Hadj product v.
  pose proof (targetAdjustment_nonneg s newNode adj Hdown Hup Hadj) as Hadj0.
  pose proof (SetBytes_bound (BlockNode.Target parentNode)) as [Ht0 _].
  assert (Hprod : (0 <= product)%Q).
  { unfold product. apply Qmult_le_0_compat; [exact Hadj0|].
    change 0%Q with (inject_Z 0). rewrite <- Zle_Qle. exact Ht0. }
  assert (Hnum : 0 <= Qnum product).
  { unfold Qle in Hprod. simpl in Hprod. rewrite Z.mul_1_r in Hprod.
    exact Hprod. }
  assert (Hv : 0 <= v).
  { unfold v, Qfloor. destruct product as [n d]. simpl in *.
    apply Z.div_pos; lia. }
  split.
  { unfold v, Qfloor. destruct product as [n d]. simpl in *.
    symmetry. apply Z.quot_div_nonneg; lia. }
  unfold childTarget. rewrite Hadj.
  unfold mbind, run_bind, bind. rewrite Int_Div_Qred.
  fold product. fold v.
  pose proof (copy_at_Bytes v) as [Hpanic Hfit].
  rewrite (Z.abs_eq v Hv) in Hpanic, Hfit.
  split; [exact Hpanic|].
  intros Hlt. destruct (Hfit Hlt) as [Hcopy Hlen].
  eexists. split; [exact Hcopy|]. split; [reflexivity|]. split.
  - rewrite length_app, length_replicate. lia.
  - rewrite SetBytes_zeros, Bytes_value. apply Z.abs_eq, Hv.
Qed.

End RetargetFacts.

Section NumericExamples.
#[local] Existing Instance Toy.externals.

Lemma heavierFork_spec_witness :
  currentBlockNode Toy.atX1 = Ret Toy.x1Node
  /\ SetBytes (BlockNode.Depth Toy.x2Node) <> 0
  /\ SetBytes (BlockNode.Depth Toy.x1Node) <> 0
  /\ SetBytes (BlockNode.Target Toy.x1Node) <> 0
  /\ exists r : bool,
       heavierFork Toy.atX1 Toy.x2Node = Ret r
       /\ (r = true
           <-> (/ inject_Z (SetBytes (BlockNode.Depth Toy.x1Node))
                + (5 # 100) * / inject_Z (SetBytes (BlockNode.Target Toy.x1Node))
                < / inject_Z (SetBytes (BlockNode.Depth Toy.x2Node)))%Q).
Proof.
  assert (H1 : currentBlockNode Toy.atX1 = Ret Toy.x1Node)
    by (vm_compute; reflexivity).
  assert (H2 : SetBytes (BlockNode.Depth Toy.x2Node) <> 0)
    by (vm_compute; discriminate).
  assert (H3 : SetBytes (BlockNode.Depth Toy.x1Node) <> 0)
    by (vm_compute; discriminate).
  assert (H4 : SetBytes (BlockNode.Target Toy.x1Node) <> 0)
    by (vm_compute; discriminate).
  repeat (split; [assumption|]).
  exact (heavierFork_spec Toy.atX1 Toy.x1Node Toy.x2Node H1 H2 H3 H4).
Defined.

(** On the chain of the example the node [x2] is heavier than the tip. *)
Example heavierFork_x2 : heavierFork Toy.atX1 Toy.x2Node = Ret true.
Proof. vm_compute. reflexivity. Qed.

(** With the largest target as the parent's and a block slower than
    expected, the adjusted target needs 33 bytes and [childTarget]
    panics. *)
Lemma childTarget_fits_or_panics_witness :
  (0 <= MaxAdjustmentDown)%Q
  /\ (0 <= MaxAdjustmentUp)%Q
  /\ targetAdjustment Toy.atX1 Toy.slowNode = Ret (1001 # 1000)
  /\ 2 ^ 256 <= Qfloor ((1001 # 1000)
                        * inject_Z (SetBytes (BlockNode.Target Toy.x1Node)))
  /\ childTarget Toy.atX1 Toy.x1Node Toy.slowNode = Panic.
Proof.
  assert (H1 : (0 <= MaxAdjustmentDown)%Q) by (vm_compute; discriminate).
  assert (H2 : (0 <= MaxAdjustmentUp)%Q) by (vm_compute; discriminate).
  assert (H3 : targetAdjustment Toy.atX1 Toy.slowNode = Ret (1001 # 1000))
    by (vm_compute; reflexivity).
  assert (H4 : 2 ^ 256 <= Qfloor ((1001 # 1000)
                  * inject_Z (SetBytes (BlockNode.Target Toy.x1Node))))
    by (vm_compute; discriminate).
  repeat (split; [assumption|]).
  exact (proj1 (proj2 (childTarget_fits_or_panics
                         Toy.atX1 Toy.x1Node Toy.slowNode (1001 # 1000)
                         H1 H2 H3)) H4).
Defined.

(** When the block comes on time the target is carried over. *)
Example childTarget_x2 :
  childTarget Toy.atX1 Toy.x1Node Toy.x2Node = Ret Toy.maxTarget.
Proof. vm_compute. reflexivity. Qed.

End NumericExamples.

(** ** Integrating a block with an invalid transaction *)

Section IntegrateFacts.
Context `{Externals}.

Lemma applyTransactions_fail (b : Block.t) (applied : list Transaction.t) :
  forall (s sMid : State.t) (txn : Transaction.t) (rest acc : list Transaction.t)
         (subsidy : N) (err : error),
    applyValid s applied = Some sMid ->
    validTransaction sMid txn = Some err ->
    exists subsidy',
      applyTransactions b s (applied ++ txn :: rest) acc subsidy
      = (markBad (ID b) sMid, acc ++ applied, subsidy', Some err).
Proof.
  induction applied as [|t applied IH];
    intros s sMid txn rest acc subsidy err Hvalid Hbad; simpl in *.
  - injection Hvalid as <-. rewrite Hbad, app_nil_r. eauto.
  - destruct (validTransaction s t); [discriminate|].
    destruct (IH _ _ _ rest (acc ++ [t])
                (fold_left N.add (Transaction.MinerFees t) subsidy) _
                Hvalid Hbad) as [subsidy' ->].
    rewrite <- app_assoc. eauto.
Qed.

Lemma reverse_all_markBad `{!TransactionLaws} (id : Hash) (l : list Transaction.t) :
  forall s : State.t,
    fold_left reverseTransaction l (markBad id s)
    = markBad id (fold_left reverseTransaction l s).
Proof.
  induction l as [|t l IH]; intros s; simpl; [reflexivity|].
  rewrite reverse_markBad. apply IH.
Qed.

Lemma reverse_all_applied `{!TransactionLaws} (applied : list Transaction.t) :
  forall s sMid : State.t,
    applyValid s applied = Some sMid ->
    fold_left reverseTransaction (rev applied) sMid = s.
Proof.
  induction applied as [|t applied IH]; intros s sMid Hvalid; simpl in *.
  - congruence.
  - destruct (validTransaction s t) eqn:Ht; [discriminate|].
    rewrite fold_left_app. simpl.
    rewrite (IH _ _ Hvalid). apply reverse_apply, Ht.
Qed.

(** C5: when the transactions of [b] before [txn] are valid and [txn] is
    not, [integrateBlock] returns the error of [txn]; the transactions
    applied so far are reversed, last first, which leaves the state as it
    was before the call but for [b.ID()] in [BadBlocks]. *)
Theorem integrateBlock_invalid_transaction `{laws : !TransactionLaws}
    (s sMid : State.t) (b : Block.t) (applied rest : list Transaction.t)
    (txn : Transaction.t) (err : error) :
  Block.Transactions b = applied ++ txn :: rest ->
  applyValid s applied = Some sMid ->
  validTransaction sMid txn = Some err ->
  exists s',
    integrateBlock s b = Ret (s', Some err)
    /\ s' = fold_left reverseTransaction (rev applied) (markBad (ID b) sMid)
    /\ s' = markBad (ID b) s
    /\ ID b ∈ State.BadBlocks s'
    /\ State.UnspentOutputs s' = State.UnspentOutputs s
    /\ State.OpenContracts s' = State.OpenContracts s
    /\ State.contracts s' = State.contracts s
    /\ State.CurrentPath s' = State.CurrentPath s
    /\ State.CurrentBlock s' = State.CurrentBlock s.
Proof.
  intros Htxns Hvalid Hbad.
  destruct (applyTransactions_fail b applied s sMid txn rest [] 0%N err
              Hvalid Hbad) as [subsidy' Hloop].
  unfold integrateBlock. rewrite Htxns, Hloop. simpl app.
  eexists. split; [reflexivity|]. split; [reflexivity|].
  rewrite reverse_all_markBad, (reverse_all_applied _ _ _ Hvalid).
  split; [reflexivity|]. split; [apply markBad_elem|].
  repeat split.
Qed.

End IntegrateFacts.

Section IntegrateExamples.
#[local] Existing Instance Toy.externals.

Lemma toy_transaction_laws : TransactionLaws.
Proof.
  split.
  - intros s txn Hvalid. simpl in Hvalid.
    destruct (Toy.outputsFresh s txn) eqn:Hfresh; [|discriminate].
    unfold Toy.outputsFresh in Hfresh.
    rewrite forallb_forall in Hfresh.
    destruct s as [root bad bmap cur path utxo open nodes contracts].
    simpl in *. unfold State.with_UnspentOutputs. simpl. f_equal.
    apply map_eq. intros j.
    destruct (decide (j ∈ (Transaction.Outputs txn).*1)) as [Hin|Hnotin].
    + rewrite lookup_foldr_delete by exact Hin.
      apply list_elem_of_In, Hfresh, bool_decide_eq_true in Hin.
      symmetry. exact Hin.
    + rewrite lookup_foldr_delete_not_elem_of by exact Hnotin.
      apply lookup_union_r, not_elem_of_list_to_map_1, Hnotin.
  - intros id s txn. reflexivity.
Qed.

Lemma integrateBlock_invalid_transaction_witness :
  Block.Transactions Toy.badBlock = [Toy.tx1] ++ Toy.tx2 :: []
  /\ applyValid Toy.badAttached [Toy.tx1]
     = Some (applyTransaction Toy.badAttached Toy.tx1)
  /\ validTransaction (applyTransaction Toy.badAttached Toy.tx1) Toy.tx2
     = Some Toy.errDoubleOutput
  /\ exists s',
       integrateBlock Toy.badAttached Toy.badBlock
       = Ret (s', Some Toy.errDoubleOutput)
       /\ s' = markBad (ID Toy.badBlock) Toy.badAttached
       /\ State.UnspentOutputs s' = State.UnspentOutputs Toy.badAttached.
Proof.
  assert (H1 : Block.Transactions Toy.badBlock = [Toy.tx1] ++ Toy.tx2 :: [])
    by reflexivity.
  assert (H0 : validTransaction Toy.badAttached Toy.tx1 = None)
    by (vm_compute; reflexivity).
  assert (H2 : applyValid Toy.badAttached [Toy.tx1]
               = Some (applyTransaction Toy.badAttached Toy.tx1)).
  { change (match validTransaction Toy.badAttached Toy.tx1 with
            | None => Some (applyTransaction Toy.badAttached Toy.tx1)
            | Some _ => None
            end = Some (applyTransaction Toy.badAttached Toy.tx1)).
    rewrite H0. reflexivity. }
  assert (H3 : validTransaction (applyTransaction Toy.badAttached Toy.tx1) Toy.tx2
               = Some Toy.errDoubleOutput)
    by (vm_compute; reflexivity).
  repeat (split; [assumption|]).
  destruct (integrateBlock_invalid_transaction
              (laws := toy_transaction_laws)
              Toy.badAttached (applyTransaction Toy.badAttached Toy.tx1)
              Toy.badBlock
              [Toy.tx1] [] Toy.tx2 Toy.errDoubleOutput H1 H2 H3)
    as (s' & Hrun & _ & Hs' & _ & Hutxo & _).
  exists s'. auto.
Defined.

(** The same block, run: the error comes back, the block is marked bad
    and the output of the first transaction is gone again. *)
Example integrateBlock_badBlock :
  snd <$> integrateBlock Toy.badAttached Toy.badBlock
  = Ret (Some Toy.errDoubleOutput)
  /\ State.UnspentOutputs
       (Toy.after (integrateBlock Toy.badAttached Toy.badBlock))
     !! Toy.be32 300 = None
  /\ bool_decide
       (ID Toy.badBlock
        ∈ State.BadBlocks
            (Toy.after (integrateBlock Toy.badAttached Toy.badBlock)))
     = true.
Proof. by_evaluation. Qed.

End IntegrateExamples.

(** ** Where the undo records go, and what a reorganisation returns *)

Section ReorgFacts.
Context `{Externals}.

Ltac run_cases :=
  repeat (run_simpl;
          match goal with
          | H : Ret _ = Ret _ |- _ => injection H as H; subst
          | H : (_, _) = (_, _) |- _ => injection H as ? ?; subst
          | H : Panic = Ret _ |- _ => discriminate H
          | H : OutOfFuel = Ret _ |- _ => discriminate H
          | H : context [match ?x with _ => _ end] |- _ => destruct x eqn:?
          end).

(** The maintenance of a contract writes undo records to the node of the
    current block only: every other node is left as it was, and the
    current block stays the same. *)
Lemma updateCurrentBlockNode_frame (f : BlockNode.t -> BlockNode.t)
    (s s' : State.t) (q : ptr) :
  updateCurrentBlockNode f s = Ret s' ->
  currentBlockNodePtr s <> Some q ->
  State.nodes s' !! q = State.nodes s !! q
  /\ currentBlockNodePtr s' = currentBlockNodePtr s.
Proof.
  unfold updateCurrentBlockNode. intros Hrun Hq.
  destruct (currentBlockNodePtr s) as [p|] eqn:Hp; run_cases.
  split; [|exact Hp].
  apply lookup_insert_ne. congruence.
Qed.

Lemma windowRollover_frame (s s' : State.t) (p q : ptr) :
  windowRollover s p = Ret s' ->
  currentBlockNodePtr s <> Some q ->
  State.nodes s' !! q = State.nodes s !! q
  /\ currentBlockNodePtr s' = currentBlockNodePtr s.
Proof.
  unfold windowRollover. intros Hrun Hq. run_cases; auto.
  all: match goal with
  | Hu : updateCurrentBlockNode _ _ = Ret _ |- _ =>
      apply (updateCurrentBlockNode_frame _ _ _ q) in Hu;
        [exact Hu|exact Hq]
  end.
Qed.

Lemma terminateContract_frame (s s' : State.t) (l l' : list Hash) (p q : ptr) :
  terminateContract (s, l) p = Ret (s', l') ->
  currentBlockNodePtr s <> Some q ->
  State.nodes s' !! q = State.nodes s !! q
  /\ currentBlockNodePtr s' = currentBlockNodePtr s.
Proof.
  unfold terminateContract. intros Hrun Hq. run_cases; auto;
    match goal with
    | Hu : updateCurrentBlockNode _ _ = Ret _ |- _ =>
        apply (updateCurrentBlockNode_frame _ _ _ q) in Hu;
          [exact Hu|exact Hq]
    end.
Qed.

Lemma maintenance_frame (ps : list ptr) :
  forall (s s' : State.t) (l l' : list Hash) (q : ptr),
    forEach maintainContract (s, l) ps = Ret (s', l') ->
    currentBlockNodePtr s <> Some q ->
    State.nodes s' !! q = State.nodes s !! q.
Proof.
  induction ps as [|p ps IH]; intros s s' l l' q Hrun Hq;
    cbn [forEach] in Hrun.
  - injection Hrun as <- _. reflexivity.
  - unfold mbind, run_bind in Hrun. unfold bind at 1 in Hrun.
    destruct (maintainContract (s, l) p) as [[s1 l1]| |] eqn:Hstep;
      try discriminate.
    unfold maintainContract, mbind, run_bind in Hstep.
    unfold bind at 1 in Hstep.
    destruct (windowRollover s p) as [s0| |] eqn:Hwin; try discriminate.
    destruct (windowRollover_frame _ _ _ q Hwin Hq) as [Hn0 Hc0].
    assert (Hq0 : currentBlockNodePtr s0 <> Some q) by congruence.
    destruct (terminateContract_frame _ _ _ _ _ q Hstep Hq0) as [Hn1 Hc1].
    rewrite <- Hn0, <- Hn1. apply (IH _ _ _ _ _ Hrun). congruence.
Qed.

(** Bringing the rewound blocks back overwrites the result variable: when
    at least one block is brought back, what is returned is [nil]. *)
Lemma reintegrate_nil (ids : list Hash) :
  forall (s s' : State.t) (err' : option error),
    reintegrate s None ids = Ret (s', err') -> err' = None.
Proof.
  induction ids as [|id ids IH]; intros s s' err' Hrun; simpl in Hrun.
  - run_cases. reflexivity.
  - unfold mbind, run_bind, bind in Hrun.
    destruct (nodeOf s id); try discriminate.
    destruct (integrateBlock s _) as [[s1 [e|]]| |]; try discriminate.
    eapply IH, Hrun.
Qed.

Lemma reintegrate_nonempty (ids : list Hash) (s s' : State.t)
    (err err' : option error) :
  ids <> [] -> reintegrate s err ids = Ret (s', err') -> err' = None.
Proof.
  destruct ids as [|id ids]; [congruence|]. intros _ Hrun. simpl in Hrun.
  unfold mbind, run_bind, bind in Hrun.
  destruct (nodeOf s id); try discriminate.
  destruct (integrateBlock s _) as [[s1 [e|]]| |]; try discriminate.
  eapply reintegrate_nil, Hrun.
Qed.

Lemma integrateFork_after_rewind (history : list Hash) :
  forall (fuel : nat) (s s' : State.t) (rewoundBlocks : list Hash)
         (validatedBlocks : nat) (err' : option error),
    rewoundBlocks <> [] ->
    integrateFork fuel s rewoundBlocks history validatedBlocks None
    = Ret (s', err') ->
    err' = None.
Proof.
  induction history as [|id history IH];
    intros fuel s s' rewoundBlocks k err' Hne Hrun; simpl in Hrun.
  - run_cases. reflexivity.
  - unfold mbind, run_bind, bind in Hrun.
    destruct (nodeOf s id); try discriminate.
    destruct (integrateBlock s _) as [[s1 [e|]]| |]; try discriminate.
    + destruct (deref _); try discriminate.
      destruct (invalidateNode _ _ _); try discriminate.
      destruct (rewindValidated _ _); try discriminate.
      eapply reintegrate_nonempty, Hrun.
      intros Hrev. apply (f_equal (@rev _)) in Hrev.
      rewrite rev_involutive in Hrev. exact (Hne Hrev).
    + eapply IH; eassumption.
Qed.

End ReorgFacts.

Section ReorgExamples.
#[local] Existing Instance Toy.externals.

(** The states of the example are what the code makes of the genesis
    state. *)
Example accept_x1 :
  AcceptBlock Toy.now Toy.fuel Toy.genesis Toy.x1 = Ret (Toy.atX1, None)
  /\ State.nodes Toy.atX1 !! 2%positive = Some Toy.x1Node
  /\ State.CurrentBlock Toy.atX1 = ID Toy.x1.
Proof. split; [apply Toy_after_ran|]; by_evaluation. Qed.

Example attach_x2 :
  addBlockToTree Toy.atX1 2%positive Toy.x2 = Ret (Toy.x2Attached, 3%positive)
  /\ State.nodes Toy.x2Attached !! 3%positive = Some Toy.x2Node
  /\ State.CurrentBlock Toy.x2Attached = ID Toy.x1.
Proof. split; [apply Toy_attached_ran|]; by_evaluation. Qed.

Example accept_w1 :
  AcceptBlock Toy.now Toy.fuel Toy.atX1 Toy.w1 = Ret (Toy.withW1, None)
  /\ State.CurrentBlock Toy.withW1 = ID Toy.x1
  /\ State.BlockMap Toy.withW1 !! ID Toy.w1 = Some 3%positive.
Proof. split; [apply Toy_after_ran|]; by_evaluation. Qed.

Example attach_w2 :
  addBlockToTree Toy.withW1 3%positive Toy.w2 = Ret (Toy.w2Attached, 4%positive).
Proof. apply Toy_attached_ran. by_evaluation. Qed.

(** C1 on the code: the block [x2], without transactions, is applied on
    the tip [x1] and rewound.  The tip is [x1] again, but the miner
    payout of [x2] is still among the unspent outputs, and the path has
    lost the entry of height 1 and kept that of height 2. *)
Theorem integrate_then_rewind_is_not_identity :
  integrateBlock Toy.x2Attached Toy.x2 = Ret (Toy.atX2, None)
  /\ rewindABlock Toy.atX2 = Ret Toy.backAtX1
  /\ State.CurrentBlock Toy.backAtX1 = State.CurrentBlock Toy.x2Attached
  /\ State.UnspentOutputs Toy.x2Attached !! SubsidyID Toy.x2 = None
  /\ State.UnspentOutputs Toy.backAtX1 !! SubsidyID Toy.x2
     = Some (Output.mk 1000 Toy.miner)
  /\ State.CurrentPath Toy.x2Attached !! 1 = Some (ID Toy.x1)
  /\ State.CurrentPath Toy.x2Attached !! 2 = None
  /\ State.CurrentPath Toy.backAtX1 !! 1 = None
  /\ State.CurrentPath Toy.backAtX1 !! 2 = Some (ID Toy.x2).
Proof.
  split; [apply Toy_after_ran; by_evaluation|].
  split; [apply Toy_rewound_ran; by_evaluation|].
  by_evaluation.
Qed.

(** C2 on the code: with the contract [ocOne] open, applying [x2] on the
    tip [x1] misses a proof and terminates the contract.  Both undo
    records are on the node of [x1] (address 2); the node of [x2]
    (address 3) has none, so that rewinding [x2] reopens nothing and
    leaves both outputs in place. *)
Theorem undo_records_go_to_the_previous_tip :
  integrateBlock (Toy.withContract Toy.ocOne Toy.x2Attached) Toy.x2
  = Ret (Toy.atX2One, None)
  /\ State.BlockMap Toy.atX2One !! ID Toy.x1 = Some 2%positive
  /\ State.BlockMap Toy.atX2One !! ID Toy.x2 = Some 3%positive
  /\ BlockNode.MissedStorageProofs <$> State.nodes Toy.atX2One !! 2%positive
     = Some [MissedStorageProof.mk (Toy.be32 21002) (Toy.be32 5)]
  /\ BlockNode.ContractTerminations <$> State.nodes Toy.atX2One !! 2%positive
     = Some [1%positive]
  /\ BlockNode.MissedStorageProofs <$> State.nodes Toy.atX2One !! 3%positive
     = Some []
  /\ BlockNode.ContractTerminations <$> State.nodes Toy.atX2One !! 3%positive
     = Some []
  /\ State.OpenContracts Toy.atX2One !! Toy.be32 5 = None
  /\ rewindABlock Toy.atX2One = Ret Toy.backAtX1One
  /\ State.CurrentBlock Toy.backAtX1One = ID Toy.x1
  /\ State.OpenContracts Toy.backAtX1One !! Toy.be32 5 = None
  /\ State.UnspentOutputs Toy.backAtX1One !! Toy.be32 21002
     = Some (Output.mk 50 (Toy.be32 99))
  /\ State.UnspentOutputs Toy.backAtX1One
       !! ContractTerminationOutputID Toy.fcOne (Toy.be32 5) true
     = Some (Output.mk 50 (Toy.be32 99)).
Proof.
  split; [apply Toy_after_ran; by_evaluation|].
  do 7 (split; [by_evaluation|]).
  split; [apply Toy_rewound_ran; by_evaluation|].
  by_evaluation.
Qed.

(** C3 on the code: [x2] is the block of height 2, and the window of the
    contract [ocTwo] (start 0, two blocks long, no proof seen) ends at
    height 2.  Applying [x2] on the tip [x1] leaves the contract and its
    funds untouched and creates no missed-proof output: the window is
    tested at height 1, the height of the tip the block is applied on.
    With [ocOne], whose windows are one block long, the missed-proof
    output made while [x2] is applied is the one of height 1. *)
Theorem maintenance_runs_at_the_previous_height :
  BlockNode.Height <$> State.nodes Toy.x2Attached !! 3%positive = Some 2
  /\ u64 (2 - FileContract.Start Toy.fcTwo)
       mod FileContract.ChallengeFrequency Toy.fcTwo = 0
  /\ FileContract.Start Toy.fcTwo < 2
  /\ OpenContract.WindowSatisfied Toy.ocTwo = false
  /\ Height (Toy.withContract Toy.ocTwo Toy.x2Attached) = Ret 1
  /\ integrateBlock (Toy.withContract Toy.ocTwo Toy.x2Attached) Toy.x2
     = Ret (Toy.atX2Two, None)
  /\ State.contracts Toy.atX2Two !! 1%positive = Some Toy.ocTwo
  /\ StorageProofOutputID Toy.fcTwo (Toy.be32 5) 2 false = inr (Toy.be32 21004)
  /\ State.UnspentOutputs Toy.atX2Two !! Toy.be32 21004 = None
  /\ integrateBlock (Toy.withContract Toy.ocOne Toy.x2Attached) Toy.x2
     = Ret (Toy.atX2One, None)
  /\ StorageProofOutputID Toy.fcOne (Toy.be32 5) 1 false = inr (Toy.be32 21002)
  /\ State.UnspentOutputs Toy.atX2One !! Toy.be32 21002
     = Some (Output.mk 50 (Toy.be32 99))
  /\ StorageProofOutputID Toy.fcOne (Toy.be32 5) 2 false = inr (Toy.be32 21004)
  /\ State.UnspentOutputs Toy.atX2One !! Toy.be32 21004 = None.
Proof.
  do 5 (split; [by_evaluation|]).
  split; [apply Toy_after_ran; by_evaluation|].
  do 3 (split; [by_evaluation|]).
  split; [apply Toy_after_ran; by_evaluation|].
  by_evaluation.
Qed.

(** C4 on the code: the tip is [x1]; the branch [w1], [w2] is heavier,
    and [w2] holds an invalid transaction.  [forkBlockchain] rewinds [x1],
    applies [w1], fails on [w2], marks it bad, rewinds [w1] and applies
    [x1] again, and returns [nil]; so does [AcceptBlock]. *)
Theorem failed_reorg_returns_nil :
  rewindABlock Toy.w2Attached = Ret Toy.w2Rewound
  /\ integrateBlock Toy.w2Rewound Toy.w1 = Ret (Toy.w2AtW1, None)
  /\ integrateBlock Toy.w2AtW1 Toy.w2
     = Ret (Toy.w2Failed, Some Toy.errDoubleOutput)
  /\ forkBlockchain Toy.fuel Toy.w2Attached 4%positive
     = Ret (Toy.w2Outcome, None)
  /\ snd <$> AcceptBlock Toy.now Toy.fuel Toy.withW1 Toy.w2 = Ret None
  /\ bool_decide (ID Toy.w2 ∈ State.BadBlocks Toy.withW1) = false
  /\ bool_decide (ID Toy.w2 ∈ State.BadBlocks Toy.w2Outcome) = true
  /\ State.CurrentBlock Toy.w2Outcome = ID Toy.x1.
Proof.
  split; [apply Toy_rewound_ran; by_evaluation|].
  do 3 (split; [apply Toy_after_ran; by_evaluation|]).
  by_evaluation.
Qed.

End ReorgExamples.

(** ** Negotiation responses *)

Section NegotiationFacts.
Import Negotiation.
Context {Conn : Type}.
Variable ReadObject : Conn -> Z -> Conn * (error + string).

(** C9: [ReadNegotiationAcceptance] reads one object with the size limit
    [MaxErrorSize = 256]; it returns [nil] exactly when a string was
    decoded and that string is "accept"; for any other decoded string [s]
    it returns an error whose message is [s]; an error of the read itself
    is passed on. *)
Theorem ReadNegotiationAcceptance_spec (conn : Conn) :
  MaxErrorSize = 256
  /\ AcceptResponse = "accept"%string
  /\ (ReadNegotiationAcceptance ReadObject conn).1 = (ReadObject conn 256).1
  /\ ((ReadNegotiationAcceptance ReadObject conn).2 = None
      <-> (ReadObject conn 256).2 = inr "accept"%string)
  /\ (forall s : string,
        (ReadObject conn 256).2 = inr s -> s <> "accept"%string ->
        exists err,
          (ReadNegotiationAcceptance ReadObject conn).2 = Some err
          /\ Error err = s)
  /\ (forall err : error,
        (ReadObject conn 256).2 = inl err ->
        (ReadNegotiationAcceptance ReadObject conn).2 = Some err).
Proof.
  split; [reflexivity|]. split; [reflexivity|].
  unfold ReadNegotiationAcceptance, MaxErrorSize, AcceptResponse.
  destruct (ReadObject conn 256) as [conn' [err|resp]]; simpl.
  - split; [reflexivity|]. split; [split; discriminate|].
    split; [discriminate|]. intros ? [= ->]. reflexivity.
  - destruct (String.eqb_spec resp "accept") as [->|Hne]; simpl.
    + split; [reflexivity|]. split; [split; reflexivity|].
      split; [|discriminate]. intros s [= <-] Hs. contradiction.
    + split; [reflexivity|]. split; [split; [discriminate|congruence]|].
      split; [|discriminate]. intros s [= <-] _.
      eexists. split; reflexivity.
Qed.

(** When the reader keeps to its size limit, a rejection carries at most
    256 bytes. *)
Lemma rejection_bounded (conn : Conn) :
  (forall c maxLen s, (ReadObject c maxLen).2 = inr s ->
                      Z.of_nat (String.length s) <= maxLen) ->
  forall s : string,
    (ReadObject conn MaxErrorSize).2 = inr s ->
    (ReadNegotiationAcceptance ReadObject conn).2 <> None ->
    (ReadNegotiationAcceptance ReadObject conn).2 = Some (errors_New s)
    /\ Z.of_nat (String.length s) <= 256.
Proof.
  intros Hlimit s Hread Hrej. split; [|exact (Hlimit _ _ _ Hread)].
  revert Hrej. unfold ReadNegotiationAcceptance.
  destruct (ReadObject conn MaxErrorSize) as [conn' r]. simpl in *. subst r.
  destruct (String.eqb s AcceptResponse); simpl; congruence.
Qed.

End NegotiationFacts.

(** ** The miner payout outlives the rewind *)

Section SubsidyFacts.
Context `{Externals}.

(** For any block without transactions applied to a state without open
    contracts: once the block is rewound, its miner payout is still an
    unspent output.  [rewindABlock] has no step that removes it. *)
Lemma rewind_leaves_subsidy
    (s : State.t) (b : Block.t) (p pParent : ptr) (node parentNode : BlockNode.t) :
  Block.Transactions b = [] ->
  State.OpenContracts s = ∅ ->
  State.BlockMap s !! ID b = Some p ->
  State.nodes s !! p = Some node ->
  BlockNode.Block node = b ->
  BlockNode.ContractTerminations node = [] ->
  BlockNode.MissedStorageProofs node = [] ->
  State.BlockMap s !! Block.ParentBlock b = Some pParent ->
  State.nodes s !! pParent = Some parentNode ->
  exists s1 s2,
    integrateBlock s b = Ret (s1, None)
    /\ rewindABlock s1 = Ret s2
    /\ State.UnspentOutputs s2 !! SubsidyID b
       = Some (Output.mk 1000 (Block.MinerAddress b)).
Proof.
  intros Htxns Hopen Hp Hnode Hblock Hterm Hmissed Hpp Hparent.
  unfold integrateBlock. rewrite Htxns. cbn [applyTransactions].
  rewrite Hopen, map_to_list_empty. cbn [map forEach].
  unfold nodeOf. run_simpl. rewrite Hp. run_simpl. rewrite Hnode.
  do 2 eexists. split; [reflexivity|].
  unfold rewindABlock, currentBlock, Height, currentBlockNode,
    currentBlockNodePtr.
  repeat progress
    (run_simpl;
     rewrite ?Hp, ?Hnode, ?Hterm, ?Hmissed, ?Hblock, ?Htxns, ?Hpp, ?Hparent).
  split; [reflexivity|].
  simpl. apply lookup_insert_eq.
Qed.

End SubsidyFacts.

(** ** The node of the block being applied gets no undo record *)

Section UndoLogFacts.
Context `{Externals}.

Lemma delete_contracts_nodes (ids : list Hash) (s : State.t) :
  State.nodes
    (fold_left (fun s contractID => State.with_OpenContracts (delete contractID) s)
       ids s)
  = State.nodes s.
Proof.
  revert s. induction ids as [|id ids IH]; intros s; simpl; [reflexivity|].
  rewrite IH. reflexivity.
Qed.

(** While a block [b] without transactions is applied, no node but that
    of the tip it is applied on is written: in particular the node of [b]
    itself, whose undo log [rewindABlock] will read, is as it was. *)
Lemma integrateBlock_leaves_new_node
    (s s' : State.t) (b : Block.t) (p : ptr) :
  Block.Transactions b = [] ->
  State.BlockMap s !! ID b = Some p ->
  currentBlockNodePtr s <> Some p ->
  integrateBlock s b = Ret (s', None) ->
  State.nodes s' !! p = State.nodes s !! p.
Proof.
  intros Htxns Hp Hcur. unfold integrateBlock.
  rewrite Htxns. cbn [applyTransactions].
  destruct (forEach maintainContract (s, [])
              (map snd (map_to_list (State.OpenContracts s))))
    as [[s1 dels]| |] eqn:Hloop; unfold mbind, run_bind, bind;
    try discriminate.
  destruct (nodeOf _ (ID b)) as [node| |]; try discriminate.
  intros [= <-]. simpl. rewrite delete_contracts_nodes.
  eapply maintenance_frame; eassumption.
Qed.

End UndoLogFacts.

(** * More of the code *)

(** ** All the ways out of the header checks *)

Section HeaderOutcomes.
Context `{Externals}.

(** X1: [validateHeader] returns [nil] exactly when the block is not too
    far in the future, its timestamp is at least the median of the
    parent's recent timestamps, its Merkle root is the expected one and
    its id is at most the parent's target; the state is then unchanged. *)
Theorem validateHeader_accepts_iff
    (now : Z) (s s' : State.t) (parent : ptr) (b : Block.t) :
  validateHeader now s parent b = Ret (s', None)
  <-> (s' = s
       /\ i64 (Block.Timestamp b - i64 now) <= FutureThreshold
       /\ exists parentNode median,
            State.nodes s !! parent = Some parentNode
            /\ sort_Ints (BlockNode.RecentTimestamps parentNode) !! 5%nat
               = Some median
            /\ median <= Block.Timestamp b
            /\ Block.MerkleRoot b = expectedTransactionMerkleRoot b
            /\ 0 <= bytes_Compare (BlockNode.Target parentNode) (ID b)).
Proof.
  unfold validateHeader, checkTarget.
  destruct (Z.ltb_spec FutureThreshold (i64 (Block.Timestamp b - i64 now)))
    as [Hfut|Hfut].
  { run_simpl. split; [discriminate|]. intros (_ & Hle & _). lia. }
  destruct (State.nodes s !! parent) as [parentNode|] eqn:Hnode; run_simpl.
  2:{ split; [discriminate|]. intros (_ & _ & n & m & Hn & _). discriminate. }
  destruct (sort_Ints (BlockNode.RecentTimestamps parentNode) !! 5%nat)
    as [median|] eqn:Hmed.
  2:{ split; [discriminate|]. intros (_ & _ & n & m & Hn & Hm & _). congruence. }
  destruct (Z.ltb_spec (Block.Timestamp b) median) as [Hlt|Hge].
  { split; [discriminate|].
    intros (_ & _ & n & m & Hn & Hm & Hle & _).
    assert (m = median) by congruence. lia. }
  destruct (bool_decide_reflect
              (Block.MerkleRoot b = expectedTransactionMerkleRoot b))
    as [Hmr|Hmr]; simpl.
  2:{ split; [discriminate|].
      intros (_ & _ & n & m & _ & _ & _ & Hm & _). contradiction. }
  destruct (Z.leb_spec 0 (bytes_Compare (BlockNode.Target parentNode) (ID b)))
    as [Hc|Hc]; simpl.
  - split.
    + intros [= <-]. repeat split; [exact Hfut|].
      exists parentNode, median. auto.
    + intros (-> & _). reflexivity.
  - split; [discriminate|].
    intros (_ & _ & n & m & Hn & _ & _ & _ & Hcmp).
    assert (n = parentNode) by congruence. subst n. lia.
Qed.

(** X2: whatever [validateHeader] answers, the state it leaves is the one
    it found, except that the block is in [BadBlocks] after the
    past-timestamp and the Merkle-root errors, and only after them: a
    block too far in the future or above the target is never marked
    bad. *)
Theorem validateHeader_marks_bad_iff
    (now : Z) (s s' : State.t) (parent : ptr) (b : Block.t)
    (err : option error) :
  validateHeader now s parent b = Ret (s', err) ->
  (err = Some errPast \/ err = Some errMerkle -> s' = markBad (ID b) s)
  /\ (err <> Some errPast -> err <> Some errMerkle -> s' = s)
  /\ (err = None \/ err = Some errFuture \/ err = Some errPast
      \/ err = Some errMerkle \/ err = Some errTarget).
Proof.
  unfold validateHeader.
  destruct (FutureThreshold <? i64 (Block.Timestamp b - i64 now)).
  { run_simpl. intros [= <- <-]. repeat split; try tauto.
    intros [?|?]; discriminate. }
  destruct (State.nodes s !! parent) as [parentNode|]; run_simpl;
    [|discriminate].
  destruct (sort_Ints (BlockNode.RecentTimestamps parentNode) !! 5%nat)
    as [median|]; [|discriminate].
  destruct (Block.Timestamp b <? median).
  { intros [= <- <-]. repeat split; try tauto; congruence. }
  destruct (bool_decide _); simpl.
  2:{ intros [= <- <-]. repeat split; try tauto; congruence. }
  destruct (checkTarget _ _); simpl; intros [= <- <-];
    (repeat split; try tauto; intros [?|?]; discriminate).
Qed.

(** A block too far in the future is turned away before anything else
    is looked at: the parent is not read (a dangling parent pointer does
    not panic), the state is unchanged. *)
Lemma validateHeader_future_first
    (now : Z) (s : State.t) (parent : ptr) (b : Block.t) :
  FutureThreshold < i64 (Block.Timestamp b - i64 now) ->
  validateHeader now s parent b = Ret (s, Some errFuture).
Proof.
  intros Hfut. unfold validateHeader.
  apply Z.ltb_lt in Hfut. rewrite Hfut. reflexivity.
Qed.

(** X3: with a parent node in the store whose ring holds 11 timestamps
    [validateHeader] returns: it neither panics nor runs on. *)
Theorem validateHeader_returns
    (now : Z) (s : State.t) (parent : ptr) (parentNode : BlockNode.t)
    (b : Block.t) :
  State.nodes s !! parent = Some parentNode ->
  length (BlockNode.RecentTimestamps parentNode) = 11%nat ->
  exists s' err, validateHeader now s parent b = Ret (s', err).
Proof.
  intros Hnode Hlen. unfold validateHeader.
  destruct (FutureThreshold <? i64 (Block.Timestamp b - i64 now));
    [run_simpl; eauto|].
  rewrite Hnode. run_simpl.
  destruct (median_exists _ Hlen) as [m ->].
  destruct (Block.Timestamp b <? m); [eauto|].
  destruct (bool_decide _); simpl; [|eauto].
  destruct (checkTarget _ _); simpl; eauto.
Qed.

(** With a parent pointer that points nowhere, and a block not too far
    in the future, [validateHeader] panics. *)
Lemma validateHeader_dangling_parent
    (now : Z) (s : State.t) (parent : ptr) (b : Block.t) :
  State.nodes s !! parent = None ->
  i64 (Block.Timestamp b - i64 now) <= FutureThreshold ->
  validateHeader now s parent b = Panic.
Proof.
  intros Hnode Hfut. unfold validateHeader.
  destruct (Z.ltb_spec FutureThreshold (i64 (Block.Timestamp b - i64 now)));
    [lia|].
  rewrite Hnode. reflexivity.
Qed.

End HeaderOutcomes.


(** ** What the median test counts *)

Section MedianFacts.

Lemma filter_all_le (t : Z) (l : list Z) :
  Forall (fun x => x <= t) l -> filter (fun x => x <= t) l = l.
Proof.
  induction 1 as [|x l Hx Hl IH]; [reflexivity|].
  rewrite filter_cons_True by exact Hx. f_equal. exact IH.
Qed.

Lemma filter_none_le (t : Z) (l : list Z) :
  Forall (fun x => t < x) l -> filter (fun x => x <= t) l = [].
Proof.
  induction 1 as [|x l Hx Hl IH]; [reflexivity|].
  rewrite filter_cons_False by lia. exact IH.
Qed.

(** In a sorted list the elements up to an index are at most the element
    there, those from the index on are at least it. *)
Lemma sorted_split (l : list Z) :
  StronglySorted Z.le l ->
  forall (i : nat) (m : Z),
    l !! i = Some m ->
    Forall (fun x => x <= m) (take (S i) l)
    /\ Forall (fun x => m <= x) (drop i l).
Proof.
  induction 1 as [|x l Hs IH Hx]; intros i m Hi; [discriminate|].
  destruct i as [|i]; simpl in Hi.
  - injection Hi as <-. split.
    + simpl. constructor; [lia|]. rewrite take_0. constructor.
    + simpl. constructor; [lia|exact Hx].
  - destruct (IH i m Hi) as [Htake Hdrop]. split; [|exact Hdrop].
    change (take (S (S i)) (x :: l)) with (x :: take (S i) l).
    constructor; [|exact Htake].
    rewrite Forall_forall in Hx. apply Hx.
    eapply list_elem_of_lookup_2, Hi.
Qed.

(** The median test of [validateHeader] on an 11-slot ring: the timestamp
    [t] is at least the element at index 5 of the sorted ring exactly when
    at least 6 of the 11 recent timestamps are at most [t]. *)
Lemma median_counts (ring : list Z) (m t : Z) :
  length ring = 11%nat ->
  sort_Ints ring !! 5%nat = Some m ->
  m <= t <-> (6 <= length (filter (fun x : Z => (x <= t)%Z) ring))%nat.
Proof.
  intros Hlen Hm.
  pose proof (sort_Ints_perm ring) as Hperm.
  pose proof (sort_Ints_length ring) as Hslen. rewrite Hlen in Hslen.
  assert (Hsorted : StronglySorted Z.le (sort_Ints ring)).
  { apply Sorted_StronglySorted; [intros x y z; lia|apply sort_Ints_sorted]. }
  destruct (sorted_split _ Hsorted _ _ Hm) as [Hlow Hhigh].
  rewrite <- (Permutation_length (filter_Permutation _ _ _ Hperm)).
  set (l := sort_Ints ring) in *.
  split.
  - intros Hle.
    rewrite <- (take_drop 6 l), filter_app, length_app.
    rewrite (filter_all_le t (take 6 l)).
    + rewrite length_take. lia.
    + eapply Forall_impl; [exact Hlow|]. simpl. intros x Hx. lia.
  - intros Hcount.
    destruct (Z.le_gt_cases m t) as [Hle|Hgt]; [exact Hle|exfalso].
    rewrite <- (take_drop 5 l), filter_app, length_app in Hcount.
    rewrite (filter_none_le t (drop 5 l)) in Hcount.
    + pose proof (length_filter (fun x : Z => x <= t) (take 5 l)) as Hf.
      rewrite length_take in Hf. simpl in Hcount. lia.
    + eapply Forall_impl; [exact Hhigh|]. simpl. intros x Hx. lia.
Qed.

End MedianFacts.

Section MedianHeader.
Context `{Externals}.

(** X4: for a block that is not too far in the future and a parent whose
    ring holds 11 timestamps, [validateHeader] answers "timestamp invalid
    for being in the past" exactly when fewer than 6 of the parent's 11
    recent timestamps are at most the block's timestamp. *)
Theorem validateHeader_past_iff_minority
    (now : Z) (s : State.t) (parent : ptr) (parentNode : BlockNode.t)
    (b : Block.t) :
  State.nodes s !! parent = Some parentNode ->
  length (BlockNode.RecentTimestamps parentNode) = 11%nat ->
  i64 (Block.Timestamp b - i64 now) <= FutureThreshold ->
  validateHeader now s parent b = Ret (markBad (ID b) s, Some errPast)
  <-> (length (filter (fun x : Z => (x <= Block.Timestamp b)%Z)
                 (BlockNode.RecentTimestamps parentNode)) < 6)%nat.
Proof.
  intros Hnode Hlen Hfut.
  destruct (median_exists _ Hlen) as [m Hm].
  pose proof (median_counts _ m (Block.Timestamp b) Hlen Hm) as Hcount.
  unfold validateHeader.
  destruct (Z.ltb_spec FutureThreshold (i64 (Block.Timestamp b - i64 now)));
    [lia|].
  rewrite Hnode. run_simpl. rewrite Hm.
  destruct (Z.ltb_spec (Block.Timestamp b) m) as [Hlt|Hge].
  - split; [intros _; lia|reflexivity].
  - split; [|lia].
    destruct (bool_decide _); simpl; [|discriminate].
    destruct (checkTarget _ _); simpl; discriminate.
Qed.

End MedianHeader.


(** ** How far a target can move, and the depth of a child *)

Section RetargetBounds.
Context `{Externals}.

Lemma targetAdjustment_between (s : State.t) (newNode : BlockNode.t) (adj : Q) :
  (MaxAdjustmentDown <= MaxAdjustmentUp)%Q ->
  targetAdjustment s newNode = Ret adj ->
  (MaxAdjustmentDown <= adj <= MaxAdjustmentUp)%Q.
Proof.
  intros Hclamps. unfold targetAdjustment.
  match goal with
  | |- context [mbind _ ?m] => destruct m as [[tp etp]| |]
  end; unfold mbind, run_bind, bind; try discriminate.
  destruct (NewRat tp etp) as [r| |]; try discriminate.
  destruct (Rat_Cmp r MaxAdjustmentUp =? 1) eqn:Hup.
  { intros [= <-]. split; [exact Hclamps|apply Qle_refl]. }
  destruct (Rat_Cmp r MaxAdjustmentDown =? -1) eqn:Hdown.
  { intros [= <-]. split; [apply Qle_refl|exact Hclamps]. }
  intros [= <-]. split.
  - destruct (Qlt_le_dec r MaxAdjustmentDown) as [Hlt|Hge]; [|exact Hge].
    apply Rat_Cmp_lt in Hlt. congruence.
  - destruct (Qlt_le_dec MaxAdjustmentUp r) as [Hlt|Hge]; [|exact Hge].
    apply Rat_Cmp_gt in Hlt. congruence.
Qed.

(** X5: the adjustment [childTarget] applies always lies between the two
    clamps. *)
Theorem targetAdjustment_clamped (s : State.t) (newNode : BlockNode.t) (adj : Q) :
  (MaxAdjustmentDown <= MaxAdjustmentUp)%Q ->
  targetAdjustment s newNode = Ret adj ->
  (MaxAdjustmentDown <= adj <= MaxAdjustmentUp)%Q.
Proof. exact (targetAdjustment_between s newNode adj). Qed.

(** What [childTarget] does once the adjustment is known. *)
Lemma childTarget_copy (s : State.t) (parentNode newNode : BlockNode.t) (adj : Q) :
  targetAdjustment s newNode = Ret adj ->
  let v := Qfloor (adj * inject_Z (SetBytes (BlockNode.Target parentNode))) in
  childTarget s parentNode newNode
  = copy_at zeroHash (32 - Z.of_nat (length (Bytes v))) (Bytes v).
Proof.
  intros Hadj v. unfold childTarget. rewrite Hadj.
  unfold mbind, run_bind, bind. rewrite Int_Div_Qred. reflexivity.
Qed.

Lemma Qfloor_nonneg (q : Q) : (0 <= q)%Q -> 0 <= Qfloor q.
Proof.
  intros Hq. change 0 with (Qfloor 0). apply Qfloor_resp_le, Hq.
Qed.

(** X6: a target that [childTarget] returns is the parent's target scaled
    by a factor between the clamps and rounded down: in one block the
    target moves by no more than the clamps allow. *)
Theorem childTarget_within_clamps
    (s : State.t) (parentNode newNode : BlockNode.t) (target : Hash) :
  (0 <= MaxAdjustmentDown)%Q ->
  (MaxAdjustmentDown <= MaxAdjustmentUp)%Q ->
  childTarget s parentNode newNode = Ret target ->
  let old := inject_Z (SetBytes (BlockNode.Target parentNode)) in
  length target = 32%nat
  /\ Qfloor (MaxAdjustmentDown * old) <= SetBytes target
     <= Qfloor (MaxAdjustmentUp * old).
Proof.
  intros Hdown Hclamps Hrun old.
  destruct (targetAdjustment s newNode) as [adj| |] eqn:Hadj;
    try (unfold childTarget in Hrun; rewrite Hadj in Hrun; discriminate).
  destruct (targetAdjustment_between s newNode adj Hclamps Hadj) as [Hlo Hhi].
  rewrite (childTarget_copy s parentNode newNode adj Hadj) in Hrun.
  fold old in Hrun.
  set (v := Qfloor (adj * old)) in *.
  assert (Hold : (0 <= old)%Q).
  { unfold old. change 0%Q with (inject_Z 0). rewrite <- Zle_Qle.
    apply SetBytes_bound. }
  assert (Hv : 0 <= v).
  { apply Qfloor_nonneg, Qmult_le_0_compat; [|exact Hold].
    exact (Qle_trans _ _ _ Hdown Hlo). }
  destruct (copy_at_Bytes v) as [Hpanic Hfit].
  rewrite (Z.abs_eq v Hv) in Hpanic, Hfit.
  destruct (Z.le_gt_cases (2 ^ 256) v) as [Hbig|Hsmall].
  { rewrite (Hpanic Hbig) in Hrun. discriminate. }
  destruct (Hfit ltac:(lia)) as [Hcopy Hlen]. rewrite Hcopy in Hrun.
  injection Hrun as <-. split.
  - rewrite length_app, length_replicate. lia.
  - rewrite SetBytes_zeros, Bytes_value, (Z.abs_eq v Hv).
    split; apply Qfloor_resp_le, Qmult_le_compat_r; assumption.
Qed.

(** X7: a block that comes exactly on schedule (adjustment 1) inherits the
    32 bytes of its parent's target unchanged. *)
Theorem childTarget_on_schedule
    (s : State.t) (parentNode newNode : BlockNode.t) (adj : Q) :
  targetAdjustment s newNode = Ret adj ->
  (adj == 1)%Q ->
  length (BlockNode.Target parentNode) = 32%nat ->
  childTarget s parentNode newNode = Ret (BlockNode.Target parentNode).
Proof.
  intros Hadj Hone Hlen.
  rewrite (childTarget_copy s parentNode newNode adj Hadj).
  set (T := SetBytes (BlockNode.Target parentNode)).
  assert (Hv : Qfloor (adj * inject_Z T) = T).
  { rewrite (Qfloor_comp _ (inject_Z T)); [apply Qfloor_Z|].
    rewrite Hone. apply Qmult_1_l. }
  rewrite Hv.
  pose proof (SetBytes_bound (BlockNode.Target parentNode)) as [H0 Hb].
  fold T in H0, Hb. rewrite Hlen in Hb.
  destruct (copy_at_Bytes T) as [_ Hfit].
  rewrite (Z.abs_eq T H0) in Hfit.
  destruct (Hfit Hb) as [-> _]. f_equal.
  rewrite <- Hlen. apply pad_Bytes_SetBytes.
Qed.

Lemma Int_Div_inv_Qred (q : Q) :
  (0 < q)%Q ->
  Int_Div (Z.pos (Qden (Qred q))) (Qnum (Qred q))
  = Ret (Z.pos (Qden q) / Qnum q).
Proof.
  intros Hq.
  assert (Hr : (0 < Qred q)%Q) by (rewrite Qred_correct; exact Hq).
  assert (Heq : (/ Qred q == / q)%Q) by (rewrite Qred_correct; reflexivity).
  apply Qfloor_comp in Heq.
  destruct (Qred q) as [n d]. destruct q as [n' d'].
  unfold Qlt in Hq, Hr. simpl in Hq, Hr.
  destruct n as [|n|n]; try lia. destruct n' as [|n'|n']; try lia.
  unfold Qinv, Qfloor in Heq. simpl in Heq.
  unfold Int_Div. simpl. rewrite Heq. reflexivity.
Qed.

Lemma childDepth_result (parentNode : BlockNode.t) :
  SetBytes (BlockNode.Target parentNode) <> 0 ->
  SetBytes (BlockNode.Depth parentNode) <> 0 ->
  length (BlockNode.Depth parentNode) = 32%nat ->
  exists depth,
    childDepth parentNode = Ret depth
    /\ length depth = 32%nat
    /\ SetBytes depth
       = SetBytes (BlockNode.Depth parentNode)
         * SetBytes (BlockNode.Target parentNode)
         / (SetBytes (BlockNode.Depth parentNode)
            + SetBytes (BlockNode.Target parentNode))
    /\ SetBytes depth < SetBytes (BlockNode.Depth parentNode)
    /\ SetBytes depth < SetBytes (BlockNode.Target parentNode).
Proof.
  intros HT HD Hlen.
  pose proof (SetBytes_bound (BlockNode.Target parentNode)) as [HT0 _].
  pose proof (SetBytes_bound (BlockNode.Depth parentNode)) as [HD0 HDb].
  rewrite Hlen in HDb.
  change (256 ^ Z.of_nat 32) with (2 ^ 256) in HDb.
  unfold childDepth.
  set (T := SetBytes (BlockNode.Target parentNode)) in *.
  set (D := SetBytes (BlockNode.Depth parentNode)) in *.
  rewrite !NewRat_one_pos by lia. unfold mbind, run_bind, bind.
  rewrite Int_Div_inv_Qred by reflexivity.
  set (v := Z.pos (Qden ((1 # Z.to_pos D) + (1 # Z.to_pos T)))
            / Qnum ((1 # Z.to_pos D) + (1 # Z.to_pos T))).
  assert (Hv : v = D * T / (D + T)).
  { unfold v. simpl. rewrite Pos2Z.inj_mul, !Z2Pos.id by lia.
    f_equal. lia. }
  assert (HvD : v < D).
  { rewrite Hv. apply Z.div_lt_upper_bound; nia. }
  assert (HvT : v < T).
  { rewrite Hv. apply Z.div_lt_upper_bound; nia. }
  assert (Hv0 : 0 <= v).
  { rewrite Hv. apply Z.div_pos; nia. }
  destruct (copy_at_Bytes v) as [_ Hfit].
  rewrite (Z.abs_eq v Hv0) in Hfit.
  destruct (Hfit ltac:(lia)) as [Hcopy Hl].
  eexists. split; [exact Hcopy|].
  split; [rewrite length_app, length_replicate; lia|].
  rewrite SetBytes_zeros, Bytes_value, (Z.abs_eq v Hv0). auto.
Qed.

(** X8: for a parent whose target [T] and depth [D] are not zero,
    [childDepth] returns the 32 bytes of [floor (D * T / (D + T))]; this
    number is strictly below both [D] and [T], so the depth shrinks with
    every block. *)
Theorem childDepth_value (parentNode : BlockNode.t) :
  SetBytes (BlockNode.Target parentNode) <> 0 ->
  SetBytes (BlockNode.Depth parentNode) <> 0 ->
  length (BlockNode.Depth parentNode) = 32%nat ->
  exists depth,
    childDepth parentNode = Ret depth
    /\ length depth = 32%nat
    /\ SetBytes depth
       = SetBytes (BlockNode.Depth parentNode)
         * SetBytes (BlockNode.Target parentNode)
         / (SetBytes (BlockNode.Depth parentNode)
            + SetBytes (BlockNode.Target parentNode))
    /\ SetBytes depth < SetBytes (BlockNode.Depth parentNode)
    /\ SetBytes depth < SetBytes (BlockNode.Target parentNode).
Proof. exact (childDepth_result parentNode). Qed.

(** X9: a parent whose target or depth is zero makes [childDepth] panic:
    [big.NewRat] divides by zero. *)
Theorem childDepth_zero_panics (parentNode : BlockNode.t) :
  SetBytes (BlockNode.Target parentNode) = 0
  \/ SetBytes (BlockNode.Depth parentNode) = 0 ->
  childDepth parentNode = Panic.
Proof.
  intros Hz. unfold childDepth, NewRat.
  destruct (Z.eqb_spec (SetBytes (BlockNode.Target parentNode)) 0) as [|HT];
    [reflexivity|].
  destruct Hz as [?|Hz]; [contradiction|]. rewrite Hz.
  destruct (0 <? SetBytes (BlockNode.Target parentNode)); reflexivity.
Qed.

End RetargetBounds.


(** ** Adding a block to the tree *)

Section TreeFacts.
Context `{Externals}.

Lemma addBlockToTree_effect
    (s s' : State.t) (parentNode newNode : ptr) (b : Block.t) :
  addBlockToTree s parentNode b = Ret (s', newNode) ->
  exists parent node,
    State.nodes s !! parentNode = Some parent
    /\ State.nodes s !! newNode = None
    /\ State.BlockMap s' = <[ID b := newNode]> (State.BlockMap s)
    /\ nodeOf s' (ID b) = Ret node
    /\ BlockNode.Block node = b
    /\ BlockNode.Height node = u64 (BlockNode.Height parent + 1)
    /\ BlockNode.Children node = []
    /\ BlockNode.ContractTerminations node = []
    /\ BlockNode.MissedStorageProofs node = []
    /\ State.nodes s' !! parentNode
       = Some (BlockNode.with_Children (fun l => l ++ [newNode]) parent)
    /\ (forall q, q <> newNode -> q <> parentNode ->
                  State.nodes s' !! q = State.nodes s !! q)
    /\ State.CurrentBlock s' = State.CurrentBlock s
    /\ State.CurrentPath s' = State.CurrentPath s
    /\ State.UnspentOutputs s' = State.UnspentOutputs s
    /\ State.OpenContracts s' = State.OpenContracts s
    /\ State.contracts s' = State.contracts s
    /\ State.BadBlocks s' = State.BadBlocks s.
Proof.
  unfold addBlockToTree. intros Hrun.
  pose proof (is_fresh (dom (State.nodes s))) as Hfresh.
  set (fr := fresh (dom (State.nodes s))) in *.
  apply not_elem_of_dom in Hfresh.
  destruct (State.nodes s !! parentNode) as [parent|] eqn:Hparent;
    run_simpl; [|discriminate].
  assert (Hne : fr <> parentNode) by congruence.
  destruct (childTarget s parent _) as [target| |]; try discriminate.
  destruct (childDepth parent) as [depth| |]; try discriminate.
  rewrite lookup_insert_ne in Hrun by exact Hne.
  rewrite Hparent in Hrun. injection Hrun as <- <-.
  eexists parent, _. simpl.
  split; [reflexivity|]. split; [exact Hfresh|]. split; [reflexivity|].
  split.
  { unfold nodeOf. simpl. rewrite lookup_insert_eq. simpl.
    rewrite lookup_insert_ne by congruence.
    rewrite lookup_insert_eq. reflexivity. }
  repeat split; try reflexivity.
  - apply lookup_insert_eq.
  - intros q Hq1 Hq2. rewrite !lookup_insert_ne by congruence. reflexivity.
Qed.

(** X10: when [addBlockToTree] returns, the new node sits at an address
    that was free, the block map leads from the block's id to it, it
    holds the block at the parent's height plus one with no children and
    empty undo logs, and the parent has it as its last child.  No other
    node is touched, and neither are the tip, the path, the ledger and
    the bad blocks. *)
Theorem addBlockToTree_registers
    (s s' : State.t) (parentNode newNode : ptr) (b : Block.t) :
  addBlockToTree s parentNode b = Ret (s', newNode) ->
  exists parent node,
    State.nodes s !! parentNode = Some parent
    /\ State.nodes s !! newNode = None
    /\ State.BlockMap s' = <[ID b := newNode]> (State.BlockMap s)
    /\ nodeOf s' (ID b) = Ret node
    /\ BlockNode.Block node = b
    /\ BlockNode.Height node = u64 (BlockNode.Height parent + 1)
    /\ BlockNode.Children node = []
    /\ BlockNode.ContractTerminations node = []
    /\ BlockNode.MissedStorageProofs node = []
    /\ State.nodes s' !! parentNode
       = Some (BlockNode.with_Children (fun l => l ++ [newNode]) parent)
    /\ (forall q, q <> newNode -> q <> parentNode ->
                  State.nodes s' !! q = State.nodes s !! q)
    /\ State.CurrentBlock s' = State.CurrentBlock s
    /\ State.CurrentPath s' = State.CurrentPath s
    /\ State.UnspentOutputs s' = State.UnspentOutputs s
    /\ State.OpenContracts s' = State.OpenContracts s
    /\ State.contracts s' = State.contracts s
    /\ State.BadBlocks s' = State.BadBlocks s.
Proof. exact (addBlockToTree_effect s s' parentNode newNode b). Qed.

(** X11: the ring of recent timestamps slides by one: for a parent whose
    ring holds 11 timestamps, the new node's ring is the parent's last 10
    followed by the block's timestamp, 11 again. *)
Theorem addBlockToTree_ring
    (s s' : State.t) (parentNode newNode : ptr) (b : Block.t)
    (parent : BlockNode.t) :
  State.nodes s !! parentNode = Some parent ->
  length (BlockNode.RecentTimestamps parent) = 11%nat ->
  addBlockToTree s parentNode b = Ret (s', newNode) ->
  exists node,
    State.nodes s' !! newNode = Some node
    /\ BlockNode.RecentTimestamps node
       = drop 1 (BlockNode.RecentTimestamps parent) ++ [Block.Timestamp b]
    /\ length (BlockNode.RecentTimestamps node) = 11%nat.
Proof.
  intros Hparent Hlen. unfold addBlockToTree.
  pose proof (is_fresh (dom (State.nodes s))) as Hfresh.
  set (fr := fresh (dom (State.nodes s))) in *.
  apply not_elem_of_dom in Hfresh.
  rewrite Hparent. run_simpl.
  assert (Hne : fr <> parentNode) by congruence.
  destruct (childTarget s parent _) as [target| |]; try discriminate.
  destruct (childDepth parent) as [depth| |]; try discriminate.
  rewrite lookup_insert_ne by exact Hne. rewrite Hparent.
  intros [= <- <-]. simpl.
  rewrite lookup_insert_ne by congruence. rewrite lookup_insert_eq.
  eexists. split; [reflexivity|]. simpl.
  destruct (BlockNode.RecentTimestamps parent)
    as [|t0 [|t1 [|t2 [|t3 [|t4 [|t5 [|t6 [|t7 [|t8 [|t9 [|t10 [|t11 l]]]]]]]]]]]];
    try discriminate.
  split; reflexivity.
Qed.

(** X12: a block that has just been added to the tree is known: handing it
    in again is answered with "Block exists in block map." *)
Theorem addBlockToTree_then_checkMaps
    (s s' : State.t) (parentNode newNode : ptr) (b : Block.t) :
  addBlockToTree s parentNode b = Ret (s', newNode) ->
  ID b ∉ State.BadBlocks s ->
  checkMaps s' b = inl errBlockExists.
Proof.
  intros Hrun Hbad.
  destruct (addBlockToTree_effect _ _ _ _ _ Hrun)
    as (parent & node & _ & _ & Hmap & Hrest).
  destruct Hrest as (_ & _ & _ & _ & _ & _ & _ & _ & _ & _ & _ & _ & _ & Hb).
  unfold checkMaps. rewrite Hb, Hmap.
  destruct (decide (ID b ∈ State.BadBlocks s)); [contradiction|].
  rewrite lookup_insert_eq.
  destruct (decide (is_Some (Some newNode))) as [_|Hn]; [reflexivity|].
  exfalso. apply Hn. eauto.
Qed.

(** ** Invalidating a subtree *)

Lemma forEach_invariant {A S} (P : S -> S -> Prop) (body : S -> A -> run S) :
  (forall s, P s s) ->
  (forall s1 s2 s3, P s1 s2 -> P s2 s3 -> P s1 s3) ->
  forall (l : list A),
    (forall s a s', a ∈ l -> body s a = Ret s' -> P s s') ->
    forall s s', forEach body s l = Ret s' -> P s s'.
Proof.
  intros Hrefl Htrans l. induction l as [|a l IH]; intros Hbody s s' Hrun.
  - injection Hrun as <-. apply Hrefl.
  - cbn [forEach] in Hrun. unfold mbind, run_bind in Hrun.
    unfold bind at 1 in Hrun.
    destruct (body s a) as [s1| |] eqn:Hstep; try discriminate.
    eapply Htrans.
    + eapply Hbody; [left|exact Hstep].
    + apply IH; [|exact Hrun].
      intros s0 a0 s0' Hin. apply Hbody. right. exact Hin.
Qed.


Lemma invalidated_refl (s : State.t) : invalidated s s.
Proof. repeat split; reflexivity. Qed.

Lemma invalidated_trans (s1 s2 s3 : State.t) :
  invalidated s1 s2 -> invalidated s2 s3 -> invalidated s1 s3.
Proof.
  intros (a1 & a2 & a3 & a4 & a5 & a6 & a7 & a8 & a9)
         (b1 & b2 & b3 & b4 & b5 & b6 & b7 & b8 & b9).
  repeat split; try congruence.
  - set_solver.
  - etrans; eassumption.
Qed.

Lemma invalidateNode_keeps (fuel : nat) :
  forall (s s' : State.t) (node : ptr),
    invalidateNode fuel s node = Ret s' -> invalidated s s'.
Proof.
  induction fuel as [|fuel IH]; intros s s' node Hrun; [discriminate|].
  cbn [invalidateNode] in Hrun.
  destruct (State.nodes s !! node) as [n|] eqn:Hn; run_simpl; [|discriminate].
  destruct (forEach (invalidateNode fuel) s (BlockNode.Children n))
    as [s1| |] eqn:Hloop; try discriminate.
  assert (H1 : invalidated s s1).
  { revert Hloop. apply forEach_invariant;
      [apply invalidated_refl|apply invalidated_trans|].
    intros s0 a s0' _. apply IH. }
  destruct (State.nodes s1 !! node) as [n1|]; [|discriminate].
  injection Hrun as <-.
  eapply invalidated_trans; [exact H1|].
  repeat split; simpl; try reflexivity.
  - set_solver.
  - apply delete_subseteq.
Qed.

(** X13: [invalidateNode] only moves blocks from the block map to the bad
    blocks: the nodes, the tip, the path and the ledger are as before,
    [BadBlocks] has only grown, the block map has only shrunk. *)
Theorem invalidateNode_invalidated (fuel : nat) :
  forall (s s' : State.t) (node : ptr),
    invalidateNode fuel s node = Ret s' -> invalidated s s'.
Proof. exact (invalidateNode_keeps fuel). Qed.

Lemma invalidateNode_marks_subtree (fuel : nat) :
  forall (s s' : State.t) (node q : ptr),
    invalidateNode fuel s node = Ret s' ->
    inSubtree (State.nodes s) node q ->
    exists n,
      State.nodes s !! q = Some n
      /\ ID (BlockNode.Block n) ∈ State.BadBlocks s'
      /\ State.BlockMap s' !! ID (BlockNode.Block n) = None.
Proof.
  induction fuel as [|fuel IH]; intros s s' node q Hrun Hsub; [discriminate|].
  cbn [invalidateNode] in Hrun.
  destruct (State.nodes s !! node) as [n|] eqn:Hn; run_simpl; [|discriminate].
  destruct (forEach (invalidateNode fuel) s (BlockNode.Children n))
    as [s1| |] eqn:Hloop; try discriminate.
  assert (H1 : invalidated s s1).
  { revert Hloop. apply forEach_invariant;
      [apply invalidated_refl|apply invalidated_trans|].
    intros s0 a s0' _. apply invalidateNode_keeps. }
  destruct H1 as (Hnodes & _).
  rewrite Hnodes, Hn in Hrun. injection Hrun as <-.
  inversion Hsub as [p n' Hp|p c q' n' Hp Hc Hsub']; subst.
  - exists n. split; [exact Hn|]. simpl. split; [set_solver|].
    apply lookup_delete_eq.
  - assert (n' = n) by congruence. subst n'.
    (* the child [c] is handled at some point of the loop *)
    assert (Hchild : exists m, State.nodes s !! q = Some m
              /\ ID (BlockNode.Block m) ∈ State.BadBlocks s1
              /\ State.BlockMap s1 !! ID (BlockNode.Block m) = None).
    { clear Hn Hsub Hp.
      revert s Hnodes Hloop Hsub'.
      induction (BlockNode.Children n) as [|a l IHl]; intros s Hnodes Hloop Hsub';
        [inversion Hc|].
      cbn [forEach] in Hloop. unfold mbind, run_bind in Hloop.
      unfold bind at 1 in Hloop.
      destruct (invalidateNode fuel s a) as [s0| |] eqn:Hstep; try discriminate.
      pose proof (invalidateNode_keeps _ _ _ _ Hstep) as (Hn0 & _).
      assert (Hrest : invalidated s0 s1).
      { revert Hloop. apply forEach_invariant;
          [apply invalidated_refl|apply invalidated_trans|].
        intros ? ? ? _. apply invalidateNode_keeps. }
      apply elem_of_cons in Hc as [->|Hc].
      - destruct (IH _ _ _ _ Hstep Hsub') as (m & Hm & Hbad & Hmap).
        exists m. split; [exact Hm|].
        destruct Hrest as (_ & _ & _ & _ & _ & _ & _ & Hb & Hbm).
        split; [set_solver|].
        eapply lookup_weaken_None; eassumption.
      - destruct (IHl Hc s0) as (m & Hm & Hbad & Hmap);
          [congruence|exact Hloop|rewrite Hn0; exact Hsub'|].
        exists m. rewrite <- Hn0. auto. }
    destruct Hchild as (m & Hm & Hbad & Hmap).
    exists m. split; [exact Hm|]. simpl. split; [set_solver|].
    rewrite lookup_delete. case_decide; [reflexivity|exact Hmap].
Qed.

(** X14: after [invalidateNode] every block of the subtree is bad and gone
    from the block map. *)
Theorem invalidateNode_subtree (fuel : nat) :
  forall (s s' : State.t) (node q : ptr),
    invalidateNode fuel s node = Ret s' ->
    inSubtree (State.nodes s) node q ->
    exists n,
      State.nodes s !! q = Some n
      /\ ID (BlockNode.Block n) ∈ State.BadBlocks s'
      /\ State.BlockMap s' !! ID (BlockNode.Block n) = None.
Proof. exact (invalidateNode_marks_subtree fuel). Qed.

(** X15: every block of an invalidated subtree is known to be invalid from
    then on: handing one in again is answered with "block is known to be
    invalid". *)
Theorem invalidateNode_then_checkMaps
    (fuel : nat) (s s' : State.t) (node q : ptr) (n : BlockNode.t) :
  invalidateNode fuel s node = Ret s' ->
  inSubtree (State.nodes s) node q ->
  State.nodes s !! q = Some n ->
  checkMaps s' (BlockNode.Block n) = inl errKnownInvalid.
Proof.
  intros Hrun Hsub Hq.
  destruct (invalidateNode_marks_subtree _ _ _ _ _ Hrun Hsub) as (m & Hm & Hbad & _).
  assert (m = n) by congruence. subst m.
  unfold checkMaps.
  destruct (decide (ID (BlockNode.Block n) ∈ State.BadBlocks s'));
    [reflexivity|contradiction].
Qed.

(** X16: [invalidateNode] returns whenever the subtree of the node is in
    the store and not deeper than the fuel. *)
Theorem invalidateNode_returns (fuel : nat) :
  forall (d : nat) (s : State.t) (node : ptr),
    subtreeWithin (State.nodes s) d node = true ->
    (d <= fuel)%nat ->
    exists s', invalidateNode fuel s node = Ret s'.
Proof.
  induction fuel as [|fuel IH]; intros d s node Hsub Hd.
  - destruct d; [discriminate|lia].
  - destruct d as [|d]; [discriminate|].
    cbn [subtreeWithin] in Hsub.
    destruct (State.nodes s !! node) as [n|] eqn:Hn; [|discriminate].
    cbn [invalidateNode]. rewrite Hn. run_simpl.
    assert (Hloop : forall l s0,
               State.nodes s0 = State.nodes s ->
               forallb (subtreeWithin (State.nodes s) d) l = true ->
               exists s1, forEach (invalidateNode fuel) s0 l = Ret s1
                          /\ State.nodes s1 = State.nodes s).
    { induction l as [|c l IHl]; intros s0 Hs0 Hl.
      - exists s0. split; [reflexivity|exact Hs0].
      - cbn [forallb] in Hl. apply andb_prop in Hl as [Hc Hl].
        destruct (IH d s0 c) as [s1 Hstep];
          [rewrite Hs0; exact Hc|lia|].
        pose proof (invalidateNode_keeps _ _ _ _ Hstep) as (Hn1 & _).
        destruct (IHl s1) as (s2 & Hrest & Hn2); [congruence|exact Hl|].
        exists s2. split; [|exact Hn2].
        cbn [forEach]. unfold mbind, run_bind. unfold bind at 1.
        rewrite Hstep. exact Hrest. }
    destruct (Hloop _ s eq_refl Hsub) as (s1 & -> & Hn1).
    rewrite Hn1, Hn. eauto.
Qed.

(** A pointer that points nowhere makes [invalidateNode] panic. *)
Lemma invalidateNode_dangling (fuel : nat) (s : State.t) (node : ptr) :
  State.nodes s !! node = None ->
  invalidateNode (S fuel) s node = Panic.
Proof. intros Hn. cbn [invalidateNode]. rewrite Hn. reflexivity. Qed.

End TreeFacts.


(** ** Both outcomes of [integrateBlock] *)

Section IntegrateOutcomes.
Context `{Externals}.




(** The loop over the transactions, when one fails. *)
Lemma applyTransactions_err (b : Block.t) (txns : list Transaction.t) :
  forall (s s1 : State.t) (acc applied : list Transaction.t) (sub sub1 : N)
         (err : error),
    applyTransactions b s txns acc sub = (s1, applied, sub1, Some err) ->
    exists pre txn rest sMid,
      txns = pre ++ txn :: rest
      /\ applyValid s pre = Some sMid
      /\ validTransaction sMid txn = Some err
      /\ s1 = markBad (ID b) sMid
      /\ applied = acc ++ pre.
Proof.
  induction txns as [|txn txns IH]; intros s s1 acc applied sub sub1 err Hrun;
    simpl in *; [discriminate|].
  destruct (validTransaction s txn) as [e|] eqn:Hv.
  - injection Hrun as <- <- <- <-.
    exists [], txn, txns, s. rewrite app_nil_r. repeat split. exact Hv.
  - destruct (IH _ _ _ _ _ _ _ Hrun) as (pre & t & rest & sMid & -> & Hp & Ht & -> & ->).
    exists (txn :: pre), t, rest, sMid. simpl. rewrite Hv.
    repeat split; try assumption. rewrite <- app_assoc. reflexivity.
Qed.

Lemma applyTransactions_of_valid (b : Block.t) (pre : list Transaction.t) :
  forall (s sMid : State.t) (txn : Transaction.t) (rest acc : list Transaction.t)
         (sub : N) (err : error),
    applyValid s pre = Some sMid ->
    validTransaction sMid txn = Some err ->
    exists sub1,
      applyTransactions b s (pre ++ txn :: rest) acc sub
      = (markBad (ID b) sMid, acc ++ pre, sub1, Some err).
Proof.
  induction pre as [|t pre IH]; intros s sMid txn rest acc sub err Hp Ht;
    simpl in *.
  - injection Hp as <-. rewrite Ht, app_nil_r. eauto.
  - destruct (validTransaction s t); [discriminate|].
    destruct (IH _ _ _ rest (acc ++ [t])
                (fold_left N.add (Transaction.MinerFees t) sub) _ Hp Ht)
      as [sub1 ->].
    rewrite <- app_assoc. eauto.
Qed.

(** X17: [integrateBlock] returns an error exactly when one of the block's
    transactions is invalid in the state reached by applying the ones
    before it; the error is that transaction's, the transactions after it
    are not looked at, and the state returned is the one left by
    reversing the applied transactions, last first, after the block was
    marked bad.  No contract maintenance is done and no payout made. *)
Theorem integrateBlock_error_iff
    (s s' : State.t) (b : Block.t) (err : error) :
  integrateBlock s b = Ret (s', Some err)
  <-> exists pre txn rest sMid,
        Block.Transactions b = pre ++ txn :: rest
        /\ applyValid s pre = Some sMid
        /\ validTransaction sMid txn = Some err
        /\ s' = fold_left reverseTransaction (rev pre) (markBad (ID b) sMid).
Proof.
  unfold integrateBlock. split.
  - destruct (applyTransactions b s (Block.Transactions b) [] 0%N)
      as [[[s1 applied] sub] [e|]] eqn:Hloop.
    + intros [= <- <-].
      destruct (applyTransactions_err _ _ _ _ _ _ _ _ _ Hloop)
        as (pre & txn & rest & sMid & Htx & Hp & Ht & -> & ->).
      exists pre, txn, rest, sMid. auto.
    + unfold mbind, run_bind, bind.
      destruct (forEach _ _ _) as [[s2 dels]| |]; try discriminate.
      destruct (nodeOf _ _); discriminate.
  - intros (pre & txn & rest & sMid & Htx & Hp & Ht & ->).
    destruct (applyTransactions_of_valid b pre s sMid txn rest [] 0%N err Hp Ht)
      as [sub1 Hloop].
    rewrite Htx, Hloop. reflexivity.
Qed.

Lemma delete_contracts_keeps (ids : list Hash) (s : State.t) :
  let s' := fold_left
              (fun s contractID => State.with_OpenContracts (delete contractID) s)
              ids s in
  State.nodes s' = State.nodes s
  /\ State.BlockMap s' = State.BlockMap s
  /\ State.UnspentOutputs s' = State.UnspentOutputs s.
Proof.
  revert s. induction ids as [|id ids IH]; intros s; simpl; [auto|].
  destruct (IH (State.with_OpenContracts (delete id) s)) as (-> & -> & ->).
  auto.
Qed.


End IntegrateOutcomes.


(** ** Undoing the maintenance of one contract *)

Section UndoRoundTrip.
Context `{Externals}.

(** X19: a missed proof and its undo.  For an open contract whose window
    rolls over at the tip's height without a proof, [windowRollover]
    creates the missed-proof output (the smaller of the payout and the
    funds left), debits the funds, counts a failure and appends the undo
    record to the tip's node; [reverseMissedProof] on that record then
    puts the contract and the unspent outputs back exactly as they
    were. *)
Theorem missed_proof_round_trip
    (s : State.t) (p : ptr) (c : OpenContract.t) (h : Z) (oid : Hash) :
  let fc := OpenContract.FileContract c in
  let payout := N.min (FileContract.MissedProofPayout fc)
                      (OpenContract.FundsRemaining c) in
  let msp := MissedStorageProof.mk oid (OpenContract.ContractID c) in
  State.contracts s !! p = Some c ->
  State.OpenContracts s !! OpenContract.ContractID c = Some p ->
  Height s = Ret h ->
  FileContract.ChallengeFrequency fc <> 0 ->
  u64 (h - FileContract.Start fc) mod FileContract.ChallengeFrequency fc = 0 ->
  FileContract.Start fc < h ->
  OpenContract.WindowSatisfied c = false ->
  StorageProofOutputID fc (OpenContract.ContractID c) h false = inr oid ->
  State.UnspentOutputs s !! oid = None ->
  0 <= OpenContract.Failures c < 2 ^ 64 - 1 ->
  exists s1 s2 tip,
    windowRollover s p = Ret s1
    /\ State.UnspentOutputs s1 !! oid
       = Some (Output.mk payout (FileContract.MissedProofAddress fc))
    /\ State.contracts s1 !! p
       = Some (OpenContract.mk fc (OpenContract.ContractID c)
                 (OpenContract.FundsRemaining c - payout)
                 (OpenContract.Failures c + 1) false)
    /\ currentBlockNode s = Ret tip
    /\ currentBlockNode s1
       = Ret (BlockNode.with_MissedStorageProofs (fun l => l ++ [msp]) tip)
    /\ reverseMissedProof s1 msp = Ret s2
    /\ State.contracts s2 = State.contracts s
    /\ State.UnspentOutputs s2 = State.UnspentOutputs s
    /\ State.OpenContracts s2 = State.OpenContracts s.
Proof.
  intros fc payout msp Hc Hopen Hh Hfreq Hroll Hstart Hwin Hid Hfresh Hfail.
  assert (Hpay : payout
                 = if (OpenContract.FundsRemaining c
                         <? FileContract.MissedProofPayout fc)%N
                   then OpenContract.FundsRemaining c
                   else FileContract.MissedProofPayout fc).
  { unfold payout. destruct (N.ltb_spec (OpenContract.FundsRemaining c)
                               (FileContract.MissedProofPayout fc)); lia. }
  assert (Hle : (payout <= OpenContract.FundsRemaining c)%N)
    by (unfold payout; lia).
  unfold Height in Hh.
  destruct (currentBlockNode s) as [tip| |] eqn:Htip; try discriminate.
  injection Hh as Hh.
  unfold currentBlockNode in Htip.
  destruct (currentBlockNodePtr s) as [q|] eqn:Hq; [|discriminate].
  simpl in Htip.
  destruct (State.nodes s !! q) as [tip'|] eqn:Hnq; [|discriminate].
  injection Htip as ->.
  unfold currentBlockNodePtr in Hq.
  assert (Hwin1 : windowRollover s p
     = Ret (State.with_contracts
              <[p := OpenContract.mk fc (OpenContract.ContractID c)
                       (OpenContract.FundsRemaining c - payout)
                       (u64 (OpenContract.Failures c + 1)) false]>
              (State.with_nodes
                 <[q := BlockNode.with_MissedStorageProofs
                          (fun l => l ++ [msp]) tip]>
                 (State.with_UnspentOutputs
                    <[oid := Output.mk payout
                               (FileContract.MissedProofAddress fc)]> s)))).
  { unfold windowRollover, updateCurrentBlockNode, Height, currentBlockNode,
      currentBlockNodePtr.
    rewrite Hc. run_simpl. rewrite Hq. run_simpl. rewrite Hnq. run_simpl.
    rewrite Hh. fold fc.
    destruct (Z.eqb_spec (FileContract.ChallengeFrequency fc) 0);
      [contradiction|].
    rewrite Hroll. simpl.
    apply Z.ltb_lt in Hstart. rewrite Hstart. simpl.
    rewrite Hwin. simpl. rewrite Hid. simpl.
    rewrite <- Hpay. reflexivity. }
  rewrite Hwin1. do 3 eexists. split; [reflexivity|]. simpl.
  split; [apply lookup_insert_eq|].
  split.
  { rewrite lookup_insert_eq. do 2 f_equal.
    unfold u64. rewrite Z.mod_small by lia. reflexivity. }
  split; [reflexivity|].
  split.
  { unfold currentBlockNode, currentBlockNodePtr. simpl. rewrite Hq. simpl.
    rewrite lookup_insert_eq. reflexivity. }
  unfold reverseMissedProof. simpl. rewrite Hopen. simpl.
  rewrite !lookup_insert_eq. simpl.
  split; [reflexivity|]. simpl.
  split; [|split; [|reflexivity]].
  - rewrite insert_insert_eq. apply insert_id. rewrite Hc. f_equal.
    destruct c as [fc' cid funds fails ws]. simpl in *. subst ws. f_equal.
    + lia.
    + unfold u64. rewrite (Z.mod_small (fails + 1)) by lia.
      rewrite Z.mod_small by lia. lia.
  - rewrite delete_insert_eq. apply delete_id. exact Hfresh.
Qed.

(** X20: a termination and its undo.  For an open contract that is out of
    funds, at its end height or at its tolerance, [terminateContract]
    pays what is left to the missed-proof address when the tolerance is
    reached and to the valid-proof address otherwise, appends the
    contract to the undo log of the tip's node and marks it for deletion;
    once it is deleted, [reopenContract] on that record puts the open
    contracts and the unspent outputs back exactly as they were. *)
Theorem termination_round_trip
    (s : State.t) (p : ptr) (c : OpenContract.t) (h : Z) (dels : list Hash) :
  let fc := OpenContract.FileContract c in
  let cid := OpenContract.ContractID c in
  let failed := bool_decide (OpenContract.Failures c = FileContract.Tolerance fc) in
  let tid := ContractTerminationOutputID fc cid failed in
  State.contracts s !! p = Some c ->
  State.OpenContracts s !! cid = Some p ->
  Height s = Ret h ->
  OpenContract.FundsRemaining c = 0%N \/ FileContract.End_ fc = h
  \/ FileContract.Tolerance fc = OpenContract.Failures c ->
  State.UnspentOutputs s !! tid = None ->
  exists s1 s2 tip,
    terminateContract (s, dels) p = Ret (s1, dels ++ [cid])
    /\ State.UnspentOutputs s1
       = (if (OpenContract.FundsRemaining c =? 0)%N
          then State.UnspentOutputs s
          else <[tid := Output.mk (OpenContract.FundsRemaining c)
                          (if failed then FileContract.MissedProofAddress fc
                           else FileContract.ValidProofAddress fc)]>
                 (State.UnspentOutputs s))
    /\ currentBlockNode s = Ret tip
    /\ currentBlockNode s1
       = Ret (BlockNode.with_ContractTerminations (fun l => l ++ [p]) tip)
    /\ reopenContract (State.with_OpenContracts (delete cid) s1) p = Ret s2
    /\ State.OpenContracts s2 = State.OpenContracts s
    /\ State.UnspentOutputs s2 = State.UnspentOutputs s
    /\ State.contracts s2 = State.contracts s.
Proof.
  intros fc cid failed tid Hc Hopen Hh Hterm Hfresh.
  unfold Height in Hh.
  destruct (currentBlockNode s) as [tip| |] eqn:Htip; try discriminate.
  injection Hh as Hh.
  unfold currentBlockNode in Htip.
  destruct (currentBlockNodePtr s) as [q|] eqn:Hq; [|discriminate].
  simpl in Htip.
  destruct (State.nodes s !! q) as [tip'|] eqn:Hnq; [|discriminate].
  injection Htip as ->.
  unfold currentBlockNodePtr in Hq.
  assert (Hfailed : (OpenContract.Failures c =? FileContract.Tolerance fc) = failed).
  { unfold failed. destruct (Z.eqb_spec (OpenContract.Failures c)
                               (FileContract.Tolerance fc)) as [He|He].
    - rewrite bool_decide_eq_true_2 by exact He. reflexivity.
    - rewrite bool_decide_eq_false_2 by exact He. reflexivity. }
  assert (Hfailed' : (FileContract.Tolerance fc =? OpenContract.Failures c) = failed).
  { rewrite Z.eqb_sym. exact Hfailed. }
  assert (Hcond : (OpenContract.FundsRemaining c =? 0)%N
                  || (FileContract.End_ fc =? h)
                  || (FileContract.Tolerance fc =? OpenContract.Failures c)
                  = true).
  { destruct Hterm as [Hf|[He|Ht]].
    - apply N.eqb_eq in Hf. rewrite Hf. reflexivity.
    - apply Z.eqb_eq in He. rewrite He. apply orb_true_iff. left.
      apply orb_true_r.
    - apply Z.eqb_eq in Ht. rewrite Ht. apply orb_true_r. }
  set (utxo1 := if (OpenContract.FundsRemaining c =? 0)%N
                then State.UnspentOutputs s
                else <[tid := Output.mk (OpenContract.FundsRemaining c)
                                (if failed then FileContract.MissedProofAddress fc
                                 else FileContract.ValidProofAddress fc)]>
                       (State.UnspentOutputs s)).
  assert (Hrun : terminateContract (s, dels) p
     = Ret (State.with_nodes
              <[q := BlockNode.with_ContractTerminations (fun l => l ++ [p]) tip]>
              (State.with_UnspentOutputs (fun _ => utxo1) s),
            dels ++ [cid])).
  { unfold terminateContract, updateCurrentBlockNode, Height, currentBlockNode,
      currentBlockNodePtr.
    rewrite Hc. run_simpl. rewrite Hq. run_simpl. rewrite Hnq. run_simpl.
    rewrite Hh. fold fc. rewrite Hcond.
    unfold utxo1. fold cid. rewrite Hfailed, Hfailed'. fold tid.
    destruct (OpenContract.FundsRemaining c =? 0)%N; simpl;
      rewrite Hq; simpl; rewrite Hnq; reflexivity. }
  rewrite Hrun. do 3 eexists. split; [reflexivity|]. simpl.
  split; [reflexivity|]. split; [reflexivity|].
  split.
  { unfold currentBlockNode, currentBlockNodePtr. simpl. rewrite Hq. simpl.
    rewrite lookup_insert_eq. reflexivity. }
  unfold reopenContract. simpl. rewrite Hc. simpl.
  split; [reflexivity|]. simpl. fold fc cid failed tid.
  split; [|split; [|reflexivity]].
  - rewrite insert_delete_eq. apply insert_id, Hopen.
  - unfold utxo1. destruct (OpenContract.FundsRemaining c =? 0)%N.
    + apply delete_id, Hfresh.
    + rewrite delete_insert_eq. apply delete_id, Hfresh.
Qed.

End UndoRoundTrip.


(** ** A fork that needs no rewinding *)

Section ForkOutcomes.
Context `{Externals}.

Lemma integrated_snoc (s sMid s' : State.t) (pre : list Hash) (id : Hash)
    (n : BlockNode.t) :
  integrated s pre sMid ->
  nodeOf sMid id = Ret n ->
  integrateBlock sMid (BlockNode.Block n) = Ret (s', None) ->
  integrated s (pre ++ [id]) s'.
Proof.
  induction 1 as [s|s s1 s2 i ids m Hn Hi Hrest IH]; intros Hnode Hint; simpl.
  - econstructor; [exact Hnode|exact Hint|constructor].
  - econstructor; [exact Hn|exact Hi|]. apply IH; assumption.
Qed.

(** X21: when no block had to be rewound, what [forkBlockchain]'s last
    loop returns is right: [nil] exactly when every block of the new
    fork was applied, and otherwise the error of the first block that
    failed, the blocks before it having been applied. *)
Theorem integrateFork_without_rewind (history : list Hash) :
  forall (fuel : nat) (s s' : State.t) (validatedBlocks : nat)
         (err' : option error),
    integrateFork fuel s [] history validatedBlocks None = Ret (s', err') ->
    (err' = None /\ integrated s history s')
    \/ (exists pre id rest sMid n sBad e,
          history = pre ++ id :: rest
          /\ integrated s pre sMid
          /\ nodeOf sMid id = Ret n
          /\ integrateBlock sMid (BlockNode.Block n) = Ret (sBad, Some e)
          /\ err' = Some e).
Proof.
  induction history as [|id history IH]; intros fuel s s' k err' Hrun;
    cbn [integrateFork] in Hrun.
  - injection Hrun as <- <-. left. split; [reflexivity|constructor].
  - unfold mbind, run_bind in Hrun. unfold bind at 1 in Hrun.
    destruct (nodeOf s id) as [n| |] eqn:Hn; try discriminate.
    unfold bind at 1 in Hrun.
    destruct (integrateBlock s (BlockNode.Block n)) as [[s1 [e|]]| |] eqn:Hi;
      try discriminate.
    + right. exists [], id, history, s, n, s1, e.
      split; [reflexivity|]. split; [constructor|].
      split; [exact Hn|]. split; [exact Hi|].
      unfold bind in Hrun.
      destruct (deref _); try discriminate.
      destruct (invalidateNode _ _ _); try discriminate.
      destruct (rewindValidated _ _); try discriminate.
      cbn in Hrun. injection Hrun as _ <-. reflexivity.
    + destruct (IH _ _ _ _ _ Hrun) as [[-> Hall]|Hfail].
      * left. split; [reflexivity|]. econstructor; eassumption.
      * right.
        destruct Hfail as (pre & i & rest & sMid & m & sBad & e
                           & -> & Hpre & Hm & Hbad & ->).
        exists (id :: pre), i, rest, sMid, m, sBad, e.
        split; [reflexivity|]. split; [econstructor; eassumption|]. auto.
Qed.

(** X22: a new node whose parent is the current tip: [forkBlockchain]
    rewinds nothing and applies just that block.  If the block is valid
    it is the new tip and [nil] is returned; if not, its subtree is
    invalidated and its error is returned. *)
Theorem forkBlockchain_extends_tip
    (fuel : nat) (s : State.t) (newNode parentPtr : ptr) (n parent : BlockNode.t) :
  let b := BlockNode.Block n in
  State.nodes s !! newNode = Some n ->
  State.BlockMap s !! ID b = Some newNode ->
  pathAt s (BlockNode.Height n) <> ID b ->
  State.BlockMap s !! Block.ParentBlock b = Some parentPtr ->
  State.nodes s !! parentPtr = Some parent ->
  pathAt s (BlockNode.Height parent) = ID (BlockNode.Block parent) ->
  State.CurrentBlock s = ID (BlockNode.Block parent) ->
  (forall s1,
     integrateBlock s b = Ret (s1, None) ->
     forkBlockchain (S (S fuel)) s newNode = Ret (s1, None))
  /\ (forall s1 s2 e p,
        integrateBlock s b = Ret (s1, Some e) ->
        State.BlockMap s1 !! ID b = Some p ->
        invalidateNode (S (S fuel)) s1 p = Ret s2 ->
        forkBlockchain (S (S fuel)) s newNode = Ret (s2, Some e)).
Proof.
  intros b Hn Hmap Hpath Hpp Hparent Hppath Hcur.
  assert (Hwalk : findCommonParent (S (S fuel)) s newNode
                    (pathAt s (BlockNode.Height n)) []
                  = Ret (parentPtr, [ID b])).
  { cbn [findCommonParent]. rewrite Hn. run_simpl.
    destruct (decide (pathAt s (BlockNode.Height n) = ID (BlockNode.Block n)));
      [contradiction|].
    fold b. rewrite Hpp. simpl. rewrite Hparent. simpl.
    destruct (decide (pathAt s (BlockNode.Height parent)
                      = ID (BlockNode.Block parent))); [reflexivity|contradiction]. }
  assert (Hrew : rewindToParent (S (S fuel)) s parentPtr [] = Ret (s, [])).
  { cbn [rewindToParent]. rewrite Hparent. run_simpl.
    destruct (decide (State.CurrentBlock s = ID (BlockNode.Block parent)));
      [reflexivity|contradiction]. }
  assert (Hnode : nodeOf s (ID b) = Ret n).
  { unfold nodeOf. rewrite Hmap. simpl. rewrite Hn. reflexivity. }
  split.
  - intros s1 Hint. unfold forkBlockchain.
    rewrite Hn. unfold mbind, run_bind. cbn [deref bind].
    rewrite Hwalk. cbn [bind]. rewrite Hrew.
    cbn [bind rev app integrateFork]. unfold mbind, run_bind.
    rewrite Hnode. cbn [bind]. fold b. rewrite Hint. reflexivity.
  - intros s1 s2 e p Hint Hp Hinv. unfold forkBlockchain.
    rewrite Hn. unfold mbind, run_bind. cbn [deref bind].
    rewrite Hwalk. cbn [bind]. rewrite Hrew.
    cbn [bind rev app integrateFork]. unfold mbind, run_bind.
    rewrite Hnode. cbn [bind]. fold b. rewrite Hint. cbn [bind].
    rewrite Hp. cbn [deref bind]. rewrite Hinv. reflexivity.
Qed.

End ForkOutcomes.


(** ** Following the renewals of a contract *)

Section ResolveFacts.
Import Contractor.
Implicit Types (m : gmap (list byte) (list byte)) (id r : list byte).

Lemma resolveID_chain (fuel : nat) :
  forall m id r,
    resolveID fuel m id = Ret r -> exists ids, chain m id ids r.
Proof.
  induction fuel as [|fuel IH]; intros m id r; simpl;
    destruct (m !! id) as [newID|] eqn:Hid; try discriminate.
  - intros [= <-]. exists []. constructor. exact Hid.
  - intros Hrun. destruct (IH _ _ _ Hrun) as [ids Hc].
    exists (id :: ids). econstructor; eassumption.
  - intros [= <-]. exists []. constructor. exact Hid.
Qed.

Lemma chain_resolveID m id ids r :
  chain m id ids r ->
  forall fuel, (length ids <= fuel)%nat -> resolveID fuel m id = Ret r.
Proof.
  induction 1 as [id Hid|id newID r ids Hid Hc IH]; intros fuel Hfuel.
  - destruct fuel; simpl; rewrite Hid; reflexivity.
  - destruct fuel as [|fuel]; simpl in *; [lia|].
    rewrite Hid. apply IH. lia.
Qed.

Lemma chain_final m id ids r : chain m id ids r -> m !! r = None.
Proof. induction 1; assumption. Qed.

Lemma chain_keys m id ids r :
  chain m id ids r -> forall k, k ∈ ids -> is_Some (m !! k).
Proof.
  induction 1 as [id Hid|id newID r ids Hid Hc IH]; intros k Hk.
  - inversion Hk.
  - apply elem_of_cons in Hk as [->|Hk]; [eauto|apply IH, Hk].
Qed.

(** From an id on the chain, the rest of the chain leads to the same
    result. *)
Lemma chain_suffix m id ids r :
  chain m id ids r ->
  forall k pre post, ids = pre ++ k :: post -> chain m k (k :: post) r.
Proof.
  induction 1 as [id Hid|id newID r ids Hid Hc IH]; intros k pre post Heq.
  - destruct pre; discriminate.
  - destruct pre as [|x pre]; simpl in Heq.
    + injection Heq as <- <-. econstructor; eassumption.
    + injection Heq as _ Heq. eapply IH, Heq.
Qed.

(** A chain can be cut down to one that goes through no id twice. *)
Lemma chain_nodup m id ids r :
  chain m id ids r -> exists ids', chain m id ids' r /\ NoDup ids'.
Proof.
  induction 1 as [id Hid|id newID r ids Hid Hc IH].
  - exists []. split; [constructor; exact Hid|constructor].
  - destruct IH as (ids' & Hc' & Hnd).
    destruct (decide (id ∈ ids')) as [Hin|Hout].
    + apply list_elem_of_split in Hin as (pre & post & ->).
      exists (id :: post). split.
      * eapply chain_suffix; [exact Hc'|reflexivity].
      * apply NoDup_app in Hnd as (_ & _ & Hnd). exact Hnd.
    + exists (id :: ids'). split; [econstructor; eassumption|].
      constructor; assumption.
Qed.

Lemma nodup_keys_bound m (ids : list (list byte)) :
  NoDup ids -> (forall k, k ∈ ids -> is_Some (m !! k)) ->
  (length ids <= size m)%nat.
Proof.
  intros Hnd Hkeys.
  rewrite <- size_dom.
  rewrite <- (size_list_to_set (C := gset (list byte)) ids Hnd).
  apply subseteq_size. intros k Hk.
  apply elem_of_list_to_set in Hk. apply elem_of_dom, Hkeys, Hk.
Qed.

(** X23: the id [resolveID] returns has no renewal; resolving it once more
    gives the same id, whatever the fuel. *)
Theorem resolveID_final (fuel : nat) m id r :
  resolveID fuel m id = Ret r ->
  m !! r = None /\ forall fuel', resolveID fuel' m r = Ret r.
Proof.
  intros Hrun. destruct (resolveID_chain _ _ _ _ Hrun) as [ids Hc].
  pose proof (chain_final _ _ _ _ Hc) as Hr. split; [exact Hr|].
  intros [|fuel']; simpl; rewrite Hr; reflexivity.
Qed.

(** X24: as many rounds as [renewedIDs] has entries are always enough: if
    [resolveID] returns for some fuel, it returns the same id with fuel
    [size renewedIDs], and with any larger fuel. *)
Theorem resolveID_enough_fuel (fuel : nat) m id r :
  resolveID fuel m id = Ret r ->
  forall fuel', (size m <= fuel')%nat -> resolveID fuel' m id = Ret r.
Proof.
  intros Hrun fuel' Hfuel.
  destruct (resolveID_chain _ _ _ _ Hrun) as [ids Hc].
  destruct (chain_nodup _ _ _ _ Hc) as (ids' & Hc' & Hnd).
  apply (chain_resolveID _ _ _ _ Hc').
  pose proof (nodup_keys_bound m ids' Hnd (chain_keys _ _ _ _ Hc')). lia.
Qed.

(** X25: on a cycle of renewals [resolveID] never returns: when [id] lies
    in a set of ids each of which is renewed to an id of the set, every
    amount of fuel runs out. *)
Theorem resolveID_cycle (closed : list byte -> Prop) m :
  (forall k, closed k -> exists k', m !! k = Some k' /\ closed k') ->
  forall fuel id, closed id -> resolveID fuel m id = OutOfFuel.
Proof.
  intros Hclosed. induction fuel as [|fuel IH]; intros id Hid;
    destruct (Hclosed id Hid) as (k' & Hk & Hk'); simpl; rewrite Hk.
  - reflexivity.
  - apply IH, Hk'.
Qed.

End ResolveFacts.

(** ** The sector size *)

Section SectorSizeFacts.

(** X26: [SectorSize] is a power of two between 4 KiB and 4 MiB for the
    three release constants, and panics for every other one. *)
Theorem SectorSize_power_of_two (Release : string) :
  (SectorSize Release = Panic
   /\ Release <> "dev"%string /\ Release <> "standard"%string
   /\ Release <> "testing"%string)
  \/ (exists k, 12 <= k <= 22 /\ SectorSize Release = Ret (2 ^ k)
                /\ (Release = "dev"%string \/ Release = "standard"%string
                    \/ Release = "testing"%string)).
Proof.
  unfold SectorSize.
  destruct (String.eqb_spec Release "dev") as [->|H1].
  { right. exists 20. repeat split; try lia; auto. }
  destruct (String.eqb_spec Release "standard") as [->|H2].
  { right. exists 22. repeat split; try lia; auto. }
  destruct (String.eqb_spec Release "testing") as [->|H3].
  { right. exists 12. repeat split; try lia; auto. }
  left. auto.
Qed.

End SectorSizeFacts.


(** ** Writing and reading a negotiation response *)

Section NegotiationRoundTrip.
Import Negotiation NegotiationWriters.
Context {Conn : Type}.
Variable ReadObject : Conn -> Z -> Conn * (error + string).
Variable WriteObject : Conn -> string -> Conn * option error.
Variable JoinErrors : list (option error) -> string -> option error.
(** The strings whose encoding is within [MaxErrorSize]. *)
Variable fits : string -> Prop.

(** X27: what the writer sends is what the reader judges.  On a connection
    where a read with limit [MaxErrorSize] decodes the string written just
    before, as long as its encoding is within the limit: an acceptance
    written by [WriteNegotiationAcceptance] is read as [nil]; a rejection
    written by [WriteNegotiationRejection] whose message is within the
    limit is read as an error with the same message, unless that message
    is itself "accept", in which case the rejection is read as an
    acceptance. *)
Theorem negotiation_round_trip (conn : Conn) (err : error) :
  (forall c s, fits s ->
               (ReadObject (WriteObject c s).1 MaxErrorSize).2 = inr s) ->
  fits AcceptResponse ->
  fits (Error err) ->
  (ReadNegotiationAcceptance ReadObject
     (WriteNegotiationAcceptance WriteObject conn).1).2 = None
  /\ (Error err <> "accept"%string ->
      (ReadNegotiationAcceptance ReadObject
         (WriteNegotiationRejection WriteObject JoinErrors conn err).1).2
      = Some (errors_New (Error err)))
  /\ (Error err = "accept"%string ->
      (ReadNegotiationAcceptance ReadObject
         (WriteNegotiationRejection WriteObject JoinErrors conn err).1).2
      = None).
Proof.
  intros Hchan Hacc Hlen.
  assert (Hread : forall c s,
            fits s ->
            (ReadNegotiationAcceptance ReadObject (WriteObject c s).1).2
            = if String.eqb s AcceptResponse then None
              else Some (errors_New s)).
  { intros c s Hs. unfold ReadNegotiationAcceptance.
    specialize (Hchan c s Hs).
    destruct (ReadObject (WriteObject c s).1 MaxErrorSize) as [c' r].
    simpl in Hchan. subst r.
    destruct (String.eqb s AcceptResponse); reflexivity. }
  assert (Hrej : (WriteNegotiationRejection WriteObject JoinErrors conn err).1
                 = (WriteObject conn (Error err)).1).
  { unfold WriteNegotiationRejection.
    destruct (WriteObject conn (Error err)). reflexivity. }
  split; [|split].
  - unfold WriteNegotiationAcceptance. rewrite Hread; [reflexivity|exact Hacc].
  - intros Hne. rewrite Hrej, Hread by exact Hlen.
    destruct (String.eqb_spec (Error err) AcceptResponse) as [He|_];
      [contradiction|reflexivity].
  - intros He. rewrite Hrej, Hread by exact Hlen. rewrite He. reflexivity.
Qed.

End NegotiationRoundTrip.

(** ** A node that is not heavier stays off the path *)

Section ForkChoiceMore.
Context `{Externals}.

Lemma heavierFork_depth_not_below (s : State.t) (tip newNode : BlockNode.t) :
  currentBlockNode s = Ret tip ->
  SetBytes (BlockNode.Target tip) <> 0 ->
  SetBytes (BlockNode.Depth tip) <> 0 ->
  SetBytes (BlockNode.Depth tip) <= SetBytes (BlockNode.Depth newNode) ->
  heavierFork s newNode = Ret false.
Proof.
  intros Htip HT HD Hle.
  pose proof (SetBytes_bound (BlockNode.Target tip)) as [HT0 _].
  pose proof (SetBytes_bound (BlockNode.Depth tip)) as [HD0 _].
  unfold heavierFork, currentBlockWeight, Depth. rewrite Htip.
  unfold mbind, run_bind, mret, run_ret. cbn [bind].
  rewrite !NewRat_one_pos by lia. cbn [bind]. f_equal.
  destruct (Rat_Cmp _ _ =? 1) eqn:Hcmp; [exfalso|reflexivity].
  apply Rat_Cmp_gt in Hcmp. revert Hcmp. apply Qle_not_lt.
  set (w := ((1 # Z.to_pos (SetBytes (BlockNode.Target tip)))
             * SurpassThreshold)%Q).
  assert (Hw : (0 <= w)%Q) by (apply Qmult_le_0_compat; discriminate).
  assert (Hinv : (1 # Z.to_pos (SetBytes (BlockNode.Depth newNode))
                  <= 1 # Z.to_pos (SetBytes (BlockNode.Depth tip)))%Q).
  { unfold Qle. simpl. rewrite !Z2Pos.id by lia. lia. }
  eapply Qle_trans; [exact Hinv|].
  rewrite <- (Qplus_0_r (1 # Z.to_pos (SetBytes (BlockNode.Depth tip)))) at 1.
  apply Qplus_le_r. exact Hw.
Qed.


(** X28: a node whose depth, read as a number, is not below the depth of
    the current tip never displaces it: [heavierFork] returns [false].
    In particular a second block at the tip's own depth does not start a
    reorganisation. *)
Theorem heavierFork_not_lighter (s : State.t) (tip newNode : BlockNode.t) :
  currentBlockNode s = Ret tip ->
  SetBytes (BlockNode.Target tip) <> 0 ->
  SetBytes (BlockNode.Depth tip) <> 0 ->
  SetBytes (BlockNode.Depth tip) <= SetBytes (BlockNode.Depth newNode) ->
  heavierFork s newNode = Ret false.
Proof. exact (heavierFork_depth_not_below s tip newNode). Qed.

End ForkChoiceMore.

(** ** Rewinding a block *)

Section RewindFacts.
Context `{Externals}.

Lemma sameChain_refl (s : State.t) : sameChain s s.
Proof. repeat split. Qed.

Lemma sameChain_trans (s1 s2 s3 : State.t) :
  sameChain s1 s2 -> sameChain s2 s3 -> sameChain s1 s3.
Proof.
  intros (a1 & a2 & a3 & a4) (b1 & b2 & b3 & b4).
  repeat split; congruence.
Qed.

Lemma sameChain_currentBlockNode (s s' : State.t) :
  sameChain s s' -> currentBlockNode s' = currentBlockNode s.
Proof.
  intros (Hc & Hm & Hn & _).
  unfold currentBlockNode, currentBlockNodePtr. rewrite Hc, Hm, Hn. reflexivity.
Qed.

Lemma reopenContract_sameChain (s s' : State.t) (p : ptr) :
  reopenContract s p = Ret s' -> sameChain s s'.
Proof.
  unfold reopenContract.
  destruct (State.contracts s !! p); run_simpl; [|discriminate].
  intros [= <-]. repeat split.
Qed.

Lemma reverseMissedProof_sameChain (s s' : State.t) (m : MissedStorageProof.t) :
  reverseMissedProof s m = Ret s' -> sameChain s s'.
Proof.
  unfold reverseMissedProof.
  destruct (State.OpenContracts s !! _) as [p|]; run_simpl; [|discriminate].
  destruct (State.contracts s !! p); run_simpl; [|discriminate].
  intros [= <-]. repeat split.
Qed.

Lemma reverseTransactions_sameChain `{!TransactionFrame} (i : nat) :
  forall (s s' : State.t), reverseTransactions s i = Ret s' -> sameChain s s'.
Proof.
  induction i as [|i IH]; intros s s' Hrun; cbn [reverseTransactions] in Hrun.
  - injection Hrun as <-. apply sameChain_refl.
  - unfold mbind, run_bind in Hrun. unfold bind at 1 in Hrun.
    destruct (currentBlock s) as [b| |]; try discriminate.
    unfold bind at 1 in Hrun.
    destruct (deref (Block.Transactions b !! i)) as [txn| |]; try discriminate.
    eapply sameChain_trans; [|apply IH; exact Hrun].
    exact (reverse_frame s txn).
Qed.

(** X29: [rewindABlock] makes the parent of the current block the tip and
    leaves the tree as it was; the entry it deletes from [CurrentPath] is
    the one at the height of the parent, the new tip, since the height is
    read after the tip was moved. *)
Theorem rewindABlock_tip `{frame : !TransactionFrame} (s s' : State.t) :
  rewindABlock s = Ret s' ->
  exists node parentNode,
    currentBlockNode s = Ret node
    /\ nodeOf s (Block.ParentBlock (BlockNode.Block node)) = Ret parentNode
    /\ State.CurrentBlock s' = Block.ParentBlock (BlockNode.Block node)
    /\ State.CurrentPath s'
       = delete (BlockNode.Height parentNode) (State.CurrentPath s)
    /\ State.BlockMap s' = State.BlockMap s
    /\ State.nodes s' = State.nodes s.
Proof.
  unfold rewindABlock. intros Hrun.
  unfold mbind, run_bind, mret, run_ret in Hrun.
  destruct (currentBlockNode s) as [node| |] eqn:Hnode; try discriminate.
  assert (Hb : forall s0, sameChain s s0 ->
                 currentBlock s0 = Ret (BlockNode.Block node)).
  { intros s0 Hs0. unfold currentBlock.
    rewrite (sameChain_currentBlockNode _ _ Hs0), Hnode. reflexivity. }
  cbn [bind] in Hrun.
  destruct (forEach reopenContract s _) as [s1| |] eqn:Hloop1; try discriminate.
  cbn [bind] in Hrun.
  assert (H1 : sameChain s s1).
  { revert Hloop1. apply forEach_invariant;
      [apply sameChain_refl|apply sameChain_trans|].
    intros s0 a s0' _. apply reopenContract_sameChain. }
  rewrite (sameChain_currentBlockNode _ _ H1), Hnode in Hrun.
  cbn [bind] in Hrun.
  destruct (forEach reverseMissedProof s1 _) as [s2| |] eqn:Hloop2;
    try discriminate.
  cbn [bind] in Hrun.
  assert (H2 : sameChain s1 s2).
  { revert Hloop2. apply forEach_invariant;
      [apply sameChain_refl|apply sameChain_trans|].
    intros s0 a s0' _. apply reverseMissedProof_sameChain. }
  pose proof (sameChain_trans _ _ _ H1 H2) as H12.
  rewrite (Hb s2 H12) in Hrun.
  cbn [bind] in Hrun.
  destruct (reverseTransactions s2 _) as [s3| |] eqn:Hrev; try discriminate.
  cbn [bind] in Hrun.
  apply reverseTransactions_sameChain in Hrev.
  pose proof (sameChain_trans _ _ _ H12 Hrev) as H13.
  rewrite (Hb s3 H13) in Hrun. cbn [bind] in Hrun.
  destruct H13 as (Hc & Hm & Hn & Hp).
  unfold Height, currentBlockNode, currentBlockNodePtr in Hrun.
  unfold mbind, run_bind, mret, run_ret in Hrun. simpl in Hrun.
  rewrite Hm, Hn in Hrun.
  destruct (State.BlockMap s !! Block.ParentBlock (BlockNode.Block node))
    as [pp|] eqn:Hpp; simpl in Hrun; [|discriminate].
  destruct (State.nodes s !! pp) as [parentNode|] eqn:Hparent; simpl in Hrun;
    [|discriminate].
  injection Hrun as <-.
  exists node, parentNode. split; [reflexivity|].
  split.
  { unfold nodeOf. rewrite Hpp. simpl. rewrite Hparent. reflexivity. }
  simpl. rewrite Hp, Hm, Hn. auto.
Qed.

End RewindFacts.

(** ** A block that is not heavier than the tip *)

Section AcceptFacts.
Context `{Externals}.

(** The depth [addBlockToTree] gives the new node is [childDepth] of the
    parent. *)
Lemma addBlockToTree_depth
    (s s' : State.t) (parentNode newNode : ptr) (b : Block.t) :
  addBlockToTree s parentNode b = Ret (s', newNode) ->
  exists parent node,
    State.nodes s !! parentNode = Some parent
    /\ State.nodes s' !! newNode = Some node
    /\ childDepth parent = Ret (BlockNode.Depth node).
Proof.
  unfold addBlockToTree. intros Hrun.
  pose proof (is_fresh (dom (State.nodes s))) as Hfresh.
  set (fr := fresh (dom (State.nodes s))) in *.
  apply not_elem_of_dom in Hfresh.
  destruct (State.nodes s !! parentNode) as [parent|] eqn:Hparent;
    [|discriminate].
  assert (Hne : fr <> parentNode) by congruence.
  unfold mbind, run_bind, mret, run_ret in Hrun. cbn [deref bind] in Hrun.
  destruct (childTarget s parent _) as [target| |]; try discriminate.
  cbn [bind] in Hrun.
  destruct (childDepth parent) as [depth| |] eqn:Hdepth; try discriminate.
  cbn [bind] in Hrun. cbn [State.with_nodes State.with_BlockMap State.nodes]
    in Hrun.
  rewrite lookup_insert_ne in Hrun by exact Hne.
  rewrite Hparent in Hrun. cbn [deref bind] in Hrun.
  injection Hrun as <- <-.
  eexists parent, _.
  split; [reflexivity|].
  cbn [State.with_nodes State.with_BlockMap State.nodes].
  rewrite lookup_insert_ne by congruence. rewrite lookup_insert_eq.
  split; [reflexivity|exact Hdepth].
Qed.

(** Adding a block that is not in the block map keeps the tip, with its
    target and depth. *)
Lemma addBlockToTree_keeps_tip
    (s s' : State.t) (parentNode newNode : ptr) (b : Block.t)
    (tip : BlockNode.t) :
  addBlockToTree s parentNode b = Ret (s', newNode) ->
  State.BlockMap s !! ID b = None ->
  currentBlockNode s = Ret tip ->
  exists tip',
    currentBlockNode s' = Ret tip'
    /\ BlockNode.Target tip' = BlockNode.Target tip
    /\ BlockNode.Depth tip' = BlockNode.Depth tip.
Proof.
  intros Hrun Hnew Htip.
  destruct (addBlockToTree_effect _ _ _ _ _ Hrun)
    as (parent & node & Hparent & Hfree & Hmap & _ & _ & _ & _ & _ & _
        & Hp' & Hother & Hcur & _).
  unfold currentBlockNode, currentBlockNodePtr in *.
  rewrite Hcur, Hmap.
  destruct (State.BlockMap s !! State.CurrentBlock s) as [r|] eqn:Hr;
    [|discriminate].
  simpl in Htip.
  destruct (State.nodes s !! r) as [tip0|] eqn:Hnr; [|discriminate].
  injection Htip as ->.
  rewrite lookup_insert_ne by congruence. rewrite Hr. simpl.
  destruct (decide (r = parentNode)) as [->|Hrp].
  - rewrite Hp'. assert (parent = tip) by congruence. subst parent.
    eexists. split; [reflexivity|]. split; reflexivity.
  - rewrite Hother; [|congruence|exact Hrp]. rewrite Hnr.
    eexists. split; [reflexivity|]. split; reflexivity.
Qed.

(** X30: a block that passes the checks and whose node is not heavier than
    the tip goes into the tree and nothing else happens: [AcceptBlock]
    returns [nil] with the state [addBlockToTree] made, in which the tip,
    the path and the unspent outputs are as before.  The new node is not
    heavier when the tip's depth is at most [D * T / (D + T)] for the
    depth [D] and the target [T] of the parent. *)
Theorem AcceptBlock_side_branch
    (now : Z) (fuel : nat) (s s1 : State.t) (b : Block.t) (p q : ptr)
    (tip parent : BlockNode.t) :
  checkMaps s b = inr p ->
  validateHeader now s p b = Ret (s, None) ->
  addBlockToTree s p b = Ret (s1, q) ->
  currentBlockNode s = Ret tip ->
  State.nodes s !! p = Some parent ->
  SetBytes (BlockNode.Target tip) <> 0 ->
  SetBytes (BlockNode.Depth tip) <> 0 ->
  SetBytes (BlockNode.Target parent) <> 0 ->
  SetBytes (BlockNode.Depth parent) <> 0 ->
  length (BlockNode.Depth parent) = 32%nat ->
  SetBytes (BlockNode.Depth tip)
  <= SetBytes (BlockNode.Depth parent) * SetBytes (BlockNode.Target parent)
     / (SetBytes (BlockNode.Depth parent) + SetBytes (BlockNode.Target parent)) ->
  AcceptBlock now fuel s b = Ret (s1, None)
  /\ State.CurrentBlock s1 = State.CurrentBlock s
  /\ State.CurrentPath s1 = State.CurrentPath s
  /\ State.UnspentOutputs s1 = State.UnspentOutputs s
  /\ State.BlockMap s1 !! ID b = Some q.
Proof.
  intros Hcheck Hval Hadd Htip Hparent HTt HDt HTp HDp Hlen Hle.
  assert (Hnew : State.BlockMap s !! ID b = None).
  { unfold checkMaps in Hcheck.
    destruct (decide (ID b ∈ State.BadBlocks s)); [discriminate|].
    destruct (decide (is_Some (State.BlockMap s !! ID b))) as [|Hn];
      [discriminate|].
    destruct (State.BlockMap s !! ID b); [|reflexivity].
    exfalso. apply Hn. eauto. }
  destruct (addBlockToTree_depth _ _ _ _ _ Hadd)
    as (parent' & node & Hparent' & Hnode & Hdepth).
  assert (parent' = parent) by congruence. subst parent'.
  destruct (childDepth_result parent HTp HDp Hlen)
    as (depth & Hd & _ & Hvalue & _).
  assert (depth = BlockNode.Depth node) by congruence. subst depth.
  destruct (addBlockToTree_keeps_tip _ _ _ _ _ _ Hadd Hnew Htip)
    as (tip' & Htip' & HT' & HD').
  assert (Hlight : heavierFork s1 node = Ret false).
  { apply (heavierFork_depth_not_below s1 tip' node Htip'); rewrite ?HT', ?HD';
      try assumption.
    rewrite Hvalue. exact Hle. }
  destruct (addBlockToTree_effect _ _ _ _ _ Hadd)
    as (_ & _ & _ & _ & Hmap & _ & _ & _ & _ & _ & _ & _ & _
        & Hcur & Hpath & Hutxo & _).
  split.
  { unfold AcceptBlock. rewrite Hcheck, Hval.
    unfold mbind, run_bind, mret, run_ret. cbn [bind]. rewrite Hadd.
    cbn [bind]. rewrite Hnode. cbn [deref bind]. rewrite Hlight.
    reflexivity. }
  rewrite Hmap, lookup_insert_eq. auto.
Qed.

End AcceptFacts.

(** ** The properties above on the chains of the example *)

Section OutcomeExamples.
#[local] Existing Instance Toy.externals.

Lemma validateHeader_marks_bad_iff_witness :
  validateHeader Toy.now Toy.atX1 2%positive Sample.oldBlock
  = Ret (Sample.oldRejected, Some errPast)
  /\ Sample.oldRejected = markBad (ID Sample.oldBlock) Toy.atX1.
Proof.
  assert (H1 : validateHeader Toy.now Toy.atX1 2%positive Sample.oldBlock
               = Ret (Sample.oldRejected, Some errPast))
    by (apply Toy_after_ran; by_evaluation).
  split; [exact H1|].
  exact (proj1 (validateHeader_marks_bad_iff _ _ _ _ _ _ H1)
           (or_introl eq_refl)).
Defined.

Lemma validateHeader_returns_witness :
  State.nodes Toy.atX1 !! 2%positive = Some Toy.x1Node
  /\ length (BlockNode.RecentTimestamps Toy.x1Node) = 11%nat
  /\ exists s' err,
       validateHeader Toy.now Toy.atX1 2%positive Toy.y2 = Ret (s', err).
Proof.
  assert (H1 : State.nodes Toy.atX1 !! 2%positive = Some Toy.x1Node)
    by (vm_compute; reflexivity).
  assert (H2 : length (BlockNode.RecentTimestamps Toy.x1Node) = 11%nat)
    by reflexivity.
  do 2 (split; [assumption|]).
  exact (validateHeader_returns Toy.now Toy.atX1 2%positive Toy.x1Node Toy.y2
           H1 H2).
Defined.

Lemma validateHeader_past_iff_minority_witness :
  State.nodes Toy.atX1 !! 2%positive = Some Toy.x1Node
  /\ length (BlockNode.RecentTimestamps Toy.x1Node) = 11%nat
  /\ i64 (Block.Timestamp Sample.oldBlock - i64 Toy.now) <= FutureThreshold
  /\ (validateHeader Toy.now Toy.atX1 2%positive Sample.oldBlock
      = Ret (markBad (ID Sample.oldBlock) Toy.atX1, Some errPast)
      <-> (length (filter (fun x : Z => (x <= Block.Timestamp Sample.oldBlock)%Z)
                     (BlockNode.RecentTimestamps Toy.x1Node)) < 6)%nat).
Proof.
  assert (H1 : State.nodes Toy.atX1 !! 2%positive = Some Toy.x1Node)
    by (vm_compute; reflexivity).
  assert (H2 : length (BlockNode.RecentTimestamps Toy.x1Node) = 11%nat)
    by reflexivity.
  assert (H3 : i64 (Block.Timestamp Sample.oldBlock - i64 Toy.now)
               <= FutureThreshold)
    by (vm_compute; discriminate).
  do 3 (split; [assumption|]).
  exact (validateHeader_past_iff_minority Toy.now Toy.atX1 2%positive
           Toy.x1Node Sample.oldBlock H1 H2 H3).
Defined.

Lemma targetAdjustment_clamped_witness :
  (MaxAdjustmentDown <= MaxAdjustmentUp)%Q
  /\ targetAdjustment Toy.atX1 Toy.slowNode = Ret (1001 # 1000)
  /\ (MaxAdjustmentDown <= 1001 # 1000 <= MaxAdjustmentUp)%Q.
Proof.
  assert (H1 : (MaxAdjustmentDown <= MaxAdjustmentUp)%Q)
    by (vm_compute; discriminate).
  assert (H2 : targetAdjustment Toy.atX1 Toy.slowNode = Ret (1001 # 1000))
    by (vm_compute; reflexivity).
  do 2 (split; [assumption|]).
  exact (targetAdjustment_clamped Toy.atX1 Toy.slowNode (1001 # 1000) H1 H2).
Defined.

Lemma childTarget_within_clamps_witness :
  (0 <= MaxAdjustmentDown)%Q
  /\ (MaxAdjustmentDown <= MaxAdjustmentUp)%Q
  /\ childTarget Toy.atX1 Toy.x1Node Toy.x2Node = Ret Toy.maxTarget
  /\ length Toy.maxTarget = 32%nat
  /\ Qfloor (MaxAdjustmentDown
             * inject_Z (SetBytes (BlockNode.Target Toy.x1Node)))
     <= SetBytes Toy.maxTarget
     <= Qfloor (MaxAdjustmentUp
                * inject_Z (SetBytes (BlockNode.Target Toy.x1Node))).
Proof.
  assert (H1 : (0 <= MaxAdjustmentDown)%Q) by (vm_compute; discriminate).
  assert (H2 : (MaxAdjustmentDown <= MaxAdjustmentUp)%Q)
    by (vm_compute; discriminate).
  assert (H3 : childTarget Toy.atX1 Toy.x1Node Toy.x2Node = Ret Toy.maxTarget)
    by (vm_compute; reflexivity).
  do 3 (split; [assumption|]).
  exact (childTarget_within_clamps Toy.atX1 Toy.x1Node Toy.x2Node Toy.maxTarget
           H1 H2 H3).
Defined.

Lemma childTarget_on_schedule_witness :
  targetAdjustment Toy.atX1 Toy.x2Node = Ret (1200 # 1200)
  /\ (1200 # 1200 == 1)%Q
  /\ length (BlockNode.Target Toy.x1Node) = 32%nat
  /\ childTarget Toy.atX1 Toy.x1Node Toy.x2Node
     = Ret (BlockNode.Target Toy.x1Node).
Proof.
  assert (H1 : targetAdjustment Toy.atX1 Toy.x2Node = Ret (1200 # 1200))
    by (vm_compute; reflexivity).
  assert (H2 : (1200 # 1200 == 1)%Q) by (vm_compute; reflexivity).
  assert (H3 : length (BlockNode.Target Toy.x1Node) = 32%nat) by reflexivity.
  do 3 (split; [assumption|]).
  exact (childTarget_on_schedule Toy.atX1 Toy.x1Node Toy.x2Node (1200 # 1200)
           H1 H2 H3).
Defined.

Lemma childDepth_value_witness :
  SetBytes (BlockNode.Target Toy.x1Node) <> 0
  /\ SetBytes (BlockNode.Depth Toy.x1Node) <> 0
  /\ length (BlockNode.Depth Toy.x1Node) = 32%nat
  /\ exists depth,
       childDepth Toy.x1Node = Ret depth
       /\ length depth = 32%nat
       /\ SetBytes depth
          = SetBytes (BlockNode.Depth Toy.x1Node)
            * SetBytes (BlockNode.Target Toy.x1Node)
            / (SetBytes (BlockNode.Depth Toy.x1Node)
               + SetBytes (BlockNode.Target Toy.x1Node))
       /\ SetBytes depth < SetBytes (BlockNode.Depth Toy.x1Node)
       /\ SetBytes depth < SetBytes (BlockNode.Target Toy.x1Node).
Proof.
  assert (H1 : SetBytes (BlockNode.Target Toy.x1Node) <> 0)
    by (vm_compute; discriminate).
  assert (H2 : SetBytes (BlockNode.Depth Toy.x1Node) <> 0)
    by (vm_compute; discriminate).
  assert (H3 : length (BlockNode.Depth Toy.x1Node) = 32%nat)
    by (vm_compute; reflexivity).
  do 3 (split; [assumption|]).
  exact (childDepth_value Toy.x1Node H1 H2 H3).
Defined.

Lemma childDepth_zero_panics_witness :
  (SetBytes (BlockNode.Target Sample.zeroNode) = 0
   \/ SetBytes (BlockNode.Depth Sample.zeroNode) = 0)
  /\ childDepth Sample.zeroNode = Panic.
Proof.
  assert (H1 : SetBytes (BlockNode.Target Sample.zeroNode) = 0
               \/ SetBytes (BlockNode.Depth Sample.zeroNode) = 0)
    by (left; vm_compute; reflexivity).
  split; [exact H1|].
  exact (childDepth_zero_panics Sample.zeroNode H1).
Defined.

Lemma heavierFork_not_lighter_witness :
  currentBlockNode Toy.atX1 = Ret Toy.x1Node
  /\ SetBytes (BlockNode.Target Toy.x1Node) <> 0
  /\ SetBytes (BlockNode.Depth Toy.x1Node) <> 0
  /\ SetBytes (BlockNode.Depth Toy.x1Node)
     <= SetBytes (BlockNode.Depth Sample.w1Node)
  /\ heavierFork Toy.atX1 Sample.w1Node = Ret false.
Proof.
  assert (H1 : currentBlockNode Toy.atX1 = Ret Toy.x1Node)
    by (vm_compute; reflexivity).
  assert (H2 : SetBytes (BlockNode.Target Toy.x1Node) <> 0)
    by (vm_compute; discriminate).
  assert (H3 : SetBytes (BlockNode.Depth Toy.x1Node) <> 0)
    by (vm_compute; discriminate).
  assert (H4 : SetBytes (BlockNode.Depth Toy.x1Node)
               <= SetBytes (BlockNode.Depth Sample.w1Node))
    by (vm_compute; discriminate).
  do 4 (split; [assumption|]).
  exact (heavierFork_not_lighter Toy.atX1 Toy.x1Node Sample.w1Node H1 H2 H3 H4).
Defined.

Lemma addBlockToTree_registers_witness :
  addBlockToTree Toy.atX1 2%positive Toy.x2 = Ret (Toy.x2Attached, 3%positive)
  /\ State.nodes Toy.atX1 !! 3%positive = None
  /\ State.BlockMap Toy.x2Attached
     = <[ID Toy.x2 := 3%positive]> (State.BlockMap Toy.atX1)
  /\ State.CurrentBlock Toy.x2Attached = State.CurrentBlock Toy.atX1.
Proof.
  assert (H1 : addBlockToTree Toy.atX1 2%positive Toy.x2
               = Ret (Toy.x2Attached, 3%positive))
    by (apply Toy_attached_ran; by_evaluation).
  split; [exact H1|].
  destruct (addBlockToTree_registers _ _ _ _ _ H1)
    as (parent & node & _ & Hfree & Hmap & _ & _ & _ & _ & _ & _ & _ & _
        & Hcur & _).
  auto.
Defined.

Lemma addBlockToTree_ring_witness :
  State.nodes Toy.atX1 !! 2%positive = Some Toy.x1Node
  /\ length (BlockNode.RecentTimestamps Toy.x1Node) = 11%nat
  /\ addBlockToTree Toy.atX1 2%positive Toy.x2
     = Ret (Toy.x2Attached, 3%positive)
  /\ exists node,
       State.nodes Toy.x2Attached !! 3%positive = Some node
       /\ BlockNode.RecentTimestamps node
          = drop 1 (BlockNode.RecentTimestamps Toy.x1Node)
            ++ [Block.Timestamp Toy.x2]
       /\ length (BlockNode.RecentTimestamps node) = 11%nat.
Proof.
  assert (H1 : State.nodes Toy.atX1 !! 2%positive = Some Toy.x1Node)
    by (vm_compute; reflexivity).
  assert (H2 : length (BlockNode.RecentTimestamps Toy.x1Node) = 11%nat)
    by reflexivity.
  assert (H3 : addBlockToTree Toy.atX1 2%positive Toy.x2
               = Ret (Toy.x2Attached, 3%positive))
    by (apply Toy_attached_ran; by_evaluation).
  do 3 (split; [assumption|]).
  exact (addBlockToTree_ring _ _ _ _ _ _ H1 H2 H3).
Defined.

Lemma addBlockToTree_then_checkMaps_witness :
  addBlockToTree Toy.atX1 2%positive Toy.x2 = Ret (Toy.x2Attached, 3%positive)
  /\ (ID Toy.x2 ∉ State.BadBlocks Toy.atX1)
  /\ checkMaps Toy.x2Attached Toy.x2 = inl errBlockExists.
Proof.
  assert (H1 : addBlockToTree Toy.atX1 2%positive Toy.x2
               = Ret (Toy.x2Attached, 3%positive))
    by (apply Toy_attached_ran; by_evaluation).
  assert (H2 : ID Toy.x2 ∉ State.BadBlocks Toy.atX1)
    by (apply (bool_decide_unpack _); vm_compute; exact I).
  do 2 (split; [assumption|]).
  exact (addBlockToTree_then_checkMaps _ _ _ _ _ H1 H2).
Defined.

Lemma invalidateNode_invalidated_witness :
  invalidateNode 3 Toy.w2Attached 3%positive = Ret Sample.w1Invalidated
  /\ invalidated Toy.w2Attached Sample.w1Invalidated.
Proof.
  assert (H1 : invalidateNode 3 Toy.w2Attached 3%positive
               = Ret Sample.w1Invalidated)
    by (apply Toy_rewound_ran; by_evaluation).
  split; [exact H1|].
  exact (invalidateNode_invalidated _ _ _ _ H1).
Defined.

Lemma w2_below_w1 :
  inSubtree (State.nodes Toy.w2Attached) 3%positive 4%positive.
Proof.
  apply (inSubtree_child _ 3%positive 4%positive 4%positive
           (BlockNode.with_Children (fun l => l ++ [4%positive]) Sample.w1Node)).
  - vm_compute. reflexivity.
  - apply list_elem_of_here.
  - apply (inSubtree_here _ 4%positive Sample.w2Node). vm_compute. reflexivity.
Defined.

Lemma invalidateNode_subtree_witness :
  invalidateNode 3 Toy.w2Attached 3%positive = Ret Sample.w1Invalidated
  /\ inSubtree (State.nodes Toy.w2Attached) 3%positive 4%positive
  /\ exists n,
       State.nodes Toy.w2Attached !! 4%positive = Some n
       /\ (ID (BlockNode.Block n) ∈ State.BadBlocks Sample.w1Invalidated)
       /\ State.BlockMap Sample.w1Invalidated !! ID (BlockNode.Block n) = None.
Proof.
  assert (H1 : invalidateNode 3 Toy.w2Attached 3%positive
               = Ret Sample.w1Invalidated)
    by (apply Toy_rewound_ran; by_evaluation).
  split; [exact H1|]. split; [exact w2_below_w1|].
  exact (invalidateNode_subtree _ _ _ _ _ H1 w2_below_w1).
Defined.

Lemma invalidateNode_then_checkMaps_witness :
  invalidateNode 3 Toy.w2Attached 3%positive = Ret Sample.w1Invalidated
  /\ inSubtree (State.nodes Toy.w2Attached) 3%positive 4%positive
  /\ State.nodes Toy.w2Attached !! 4%positive = Some Sample.w2Node
  /\ checkMaps Sample.w1Invalidated Toy.w2 = inl errKnownInvalid.
Proof.
  assert (H1 : invalidateNode 3 Toy.w2Attached 3%positive
               = Ret Sample.w1Invalidated)
    by (apply Toy_rewound_ran; by_evaluation).
  assert (H2 : State.nodes Toy.w2Attached !! 4%positive = Some Sample.w2Node)
    by (vm_compute; reflexivity).
  split; [exact H1|]. split; [exact w2_below_w1|]. split; [exact H2|].
  exact (invalidateNode_then_checkMaps _ _ _ _ _ _ H1 w2_below_w1 H2).
Defined.

Lemma invalidateNode_returns_witness :
  subtreeWithin (State.nodes Toy.w2Attached) 2 3%positive = true
  /\ (2 <= 3)%nat
  /\ exists s', invalidateNode 3 Toy.w2Attached 3%positive = Ret s'.
Proof.
  assert (H1 : subtreeWithin (State.nodes Toy.w2Attached) 2 3%positive = true)
    by (vm_compute; reflexivity).
  assert (H2 : (2 <= 3)%nat) by lia.
  do 2 (split; [assumption|]).
  exact (invalidateNode_returns 3 2 Toy.w2Attached 3%positive H1 H2).
Defined.


Lemma missed_proof_round_trip_witness :
  exists s1 s2,
    windowRollover (Toy.withContract Toy.ocOne Toy.atX1) 1%positive = Ret s1
    /\ State.UnspentOutputs s1 !! Toy.be32 21002
       = Some (Output.mk 50 (Toy.be32 99))
    /\ reverseMissedProof s1
         (MissedStorageProof.mk (Toy.be32 21002) (Toy.be32 5)) = Ret s2
    /\ State.contracts s2
       = State.contracts (Toy.withContract Toy.ocOne Toy.atX1)
    /\ State.UnspentOutputs s2
       = State.UnspentOutputs (Toy.withContract Toy.ocOne Toy.atX1).
Proof.
  destruct (missed_proof_round_trip
              (Toy.withContract Toy.ocOne Toy.atX1) 1%positive Toy.ocOne 1
              (Toy.be32 21002))
    as (s1 & s2 & tip & Hroll & Hout & _ & _ & _ & Hrev & Hc & Hu & _).
  - vm_compute. reflexivity.
  - vm_compute. reflexivity.
  - vm_compute. reflexivity.
  - vm_compute. discriminate.
  - vm_compute. reflexivity.
  - vm_compute. reflexivity.
  - reflexivity.
  - vm_compute. reflexivity.
  - vm_compute. reflexivity.
  - vm_compute. split; [discriminate|reflexivity].
  - exists s1, s2. auto.
Defined.

Lemma termination_round_trip_witness :
  exists s1 s2,
    terminateContract (Toy.withContract Sample.ocEnd Toy.atX1, []) 1%positive
    = Ret (s1, [Toy.be32 5])
    /\ reopenContract (State.with_OpenContracts (delete (Toy.be32 5)) s1)
         1%positive = Ret s2
    /\ State.OpenContracts s2
       = State.OpenContracts (Toy.withContract Sample.ocEnd Toy.atX1)
    /\ State.UnspentOutputs s2
       = State.UnspentOutputs (Toy.withContract Sample.ocEnd Toy.atX1).
Proof.
  destruct (termination_round_trip
              (Toy.withContract Sample.ocEnd Toy.atX1) 1%positive Sample.ocEnd
              1 [])
    as (s1 & s2 & tip & Hterm & _ & _ & _ & Hre & Ho & Hu & _).
  - vm_compute. reflexivity.
  - vm_compute. reflexivity.
  - vm_compute. reflexivity.
  - right. left. reflexivity.
  - vm_compute. reflexivity.
  - exists s1, s2. auto.
Defined.

Lemma integrateFork_without_rewind_witness :
  integrateFork Toy.fuel Toy.x2Attached [] [ID Toy.x2] 0 None
  = Ret (Sample.x2Forked, None)
  /\ integrated Toy.x2Attached [ID Toy.x2] Sample.x2Forked.
Proof.
  assert (H1 : integrateFork Toy.fuel Toy.x2Attached [] [ID Toy.x2] 0 None
               = Ret (Sample.x2Forked, None))
    by (apply Toy_after_ran; by_evaluation).
  split; [exact H1|].
  destruct (integrateFork_without_rewind _ _ _ _ _ _ H1)
    as [[_ Hall]|(pre & id & rest & sMid & n & sBad & e & _ & _ & _ & _ & He)];
    [exact Hall|discriminate He].
Defined.

Lemma forkBlockchain_extends_tip_witness :
  integrateBlock Toy.x2Attached Toy.x2 = Ret (Toy.atX2, None)
  /\ forkBlockchain 2 Toy.x2Attached 3%positive = Ret (Toy.atX2, None).
Proof.
  assert (H1 : integrateBlock Toy.x2Attached Toy.x2 = Ret (Toy.atX2, None))
    by (apply Toy_after_ran; by_evaluation).
  split; [exact H1|].
  refine (proj1 (forkBlockchain_extends_tip 0 Toy.x2Attached 3%positive
                   2%positive Toy.x2Node Sample.x1Parent
                   _ _ _ _ _ _ _) Toy.atX2 H1).
  - vm_compute. reflexivity.
  - vm_compute. reflexivity.
  - vm_compute. discriminate.
  - vm_compute. reflexivity.
  - vm_compute. reflexivity.
  - vm_compute. reflexivity.
  - vm_compute. reflexivity.
Defined.

End OutcomeExamples.

Section ContractorExamples.
Import Contractor.

Lemma resolveID_final_witness :
  resolveID 2 Sample.renewals (Toy.be32 1) = Ret (Toy.be32 3)
  /\ Sample.renewals !! Toy.be32 3 = None
  /\ forall fuel', resolveID fuel' Sample.renewals (Toy.be32 3)
                   = Ret (Toy.be32 3).
Proof.
  assert (H1 : resolveID 2 Sample.renewals (Toy.be32 1) = Ret (Toy.be32 3))
    by (vm_compute; reflexivity).
  split; [exact H1|].
  exact (resolveID_final 2 Sample.renewals (Toy.be32 1) (Toy.be32 3) H1).
Defined.

Lemma resolveID_enough_fuel_witness :
  resolveID 5 Sample.renewals (Toy.be32 1) = Ret (Toy.be32 3)
  /\ forall fuel', (size Sample.renewals <= fuel')%nat ->
                   resolveID fuel' Sample.renewals (Toy.be32 1)
                   = Ret (Toy.be32 3).
Proof.
  assert (H1 : resolveID 5 Sample.renewals (Toy.be32 1) = Ret (Toy.be32 3))
    by (vm_compute; reflexivity).
  split; [exact H1|].
  exact (resolveID_enough_fuel 5 Sample.renewals (Toy.be32 1) (Toy.be32 3) H1).
Defined.

Lemma resolveID_cycle_witness :
  (forall k, k = Toy.be32 1 ->
             exists k', Sample.selfRenewal !! k = Some k' /\ k' = Toy.be32 1)
  /\ forall fuel, resolveID fuel Sample.selfRenewal (Toy.be32 1) = OutOfFuel.
Proof.
  assert (H1 : forall k, k = Toy.be32 1 ->
                 exists k', Sample.selfRenewal !! k = Some k'
                            /\ k' = Toy.be32 1).
  { intros k ->. exists (Toy.be32 1). split; [vm_compute|]; reflexivity. }
  split; [exact H1|].
  intros fuel.
  exact (resolveID_cycle (fun k => k = Toy.be32 1) Sample.selfRenewal H1
           fuel (Toy.be32 1) eq_refl).
Defined.

End ContractorExamples.

Section NegotiationExamples.
Import Negotiation NegotiationWriters.

Lemma negotiation_round_trip_witness :
  (ReadNegotiationAcceptance ToyConn.ReadObject
     (WriteNegotiationAcceptance ToyConn.WriteObject None).1).2 = None
  /\ (ReadNegotiationAcceptance ToyConn.ReadObject
        (WriteNegotiationRejection ToyConn.WriteObject ToyConn.JoinErrors None
           (errors_New "too expensive")).1).2
     = Some (errors_New "too expensive")
  /\ (ReadNegotiationAcceptance ToyConn.ReadObject
        (WriteNegotiationRejection ToyConn.WriteObject ToyConn.JoinErrors None
           (errors_New "accept")).1).2
     = None.
Proof.
  assert (Hchan : forall (c : option string) (s : string),
            ToyConn.encodedLen s <= MaxErrorSize ->
            (ToyConn.ReadObject (ToyConn.WriteObject c s).1 MaxErrorSize).2
            = inr s).
  { intros c s Hs. simpl. apply Z.leb_le in Hs. rewrite Hs. reflexivity. }
  assert (Hacc : ToyConn.encodedLen AcceptResponse <= MaxErrorSize)
    by (vm_compute; discriminate).
  split; [|split].
  - exact (proj1 (negotiation_round_trip ToyConn.ReadObject ToyConn.WriteObject
                    ToyConn.JoinErrors
                    (fun s => ToyConn.encodedLen s <= MaxErrorSize)
                    None (errors_New "too expensive") Hchan Hacc
                    ltac:(vm_compute; discriminate))).
  - apply (negotiation_round_trip ToyConn.ReadObject ToyConn.WriteObject
             ToyConn.JoinErrors
             (fun s => ToyConn.encodedLen s <= MaxErrorSize)
             None (errors_New "too expensive") Hchan Hacc
             ltac:(vm_compute; discriminate)).
    discriminate.
  - apply (negotiation_round_trip ToyConn.ReadObject ToyConn.WriteObject
             ToyConn.JoinErrors
             (fun s => ToyConn.encodedLen s <= MaxErrorSize)
             None (errors_New "accept") Hchan Hacc
             ltac:(vm_compute; discriminate)).
    reflexivity.
Defined.

End NegotiationExamples.

Section EntryExamples.
#[local] Existing Instance Toy.externals.

Lemma toy_transaction_frame : TransactionFrame.
Proof. split. intros s txn. repeat split. Qed.

Lemma rewindABlock_tip_witness :
  rewindABlock Toy.atX2 = Ret Toy.backAtX1
  /\ exists node parentNode,
       currentBlockNode Toy.atX2 = Ret node
       /\ nodeOf Toy.atX2 (Block.ParentBlock (BlockNode.Block node))
          = Ret parentNode
       /\ State.CurrentBlock Toy.backAtX1
          = Block.ParentBlock (BlockNode.Block node)
       /\ State.CurrentPath Toy.backAtX1
          = delete (BlockNode.Height parentNode) (State.CurrentPath Toy.atX2)
       /\ State.BlockMap Toy.backAtX1 = State.BlockMap Toy.atX2
       /\ State.nodes Toy.backAtX1 = State.nodes Toy.atX2.
Proof.
  assert (H1 : rewindABlock Toy.atX2 = Ret Toy.backAtX1)
    by (apply Toy_rewound_ran; by_evaluation).
  split; [exact H1|].
  exact (rewindABlock_tip (frame := toy_transaction_frame) _ _ H1).
Defined.

Lemma validateHeader_nil_unchanged
    (now : Z) (s : State.t) (parent : ptr) (b : Block.t) :
  snd <$> validateHeader now s parent b = Ret None ->
  validateHeader now s parent b = Ret (s, None).
Proof.
  unfold validateHeader.
  destruct (FutureThreshold <? i64 (Block.Timestamp b - i64 now));
    [discriminate|].
  destruct (State.nodes s !! parent) as [parentNode|]; run_simpl;
    [|discriminate].
  destruct (sort_Ints (BlockNode.RecentTimestamps parentNode) !! 5%nat)
    as [median|]; [|discriminate].
  destruct (Block.Timestamp b <? median); [discriminate|].
  destruct (bool_decide _); simpl; [|discriminate].
  destruct (checkTarget _ _); simpl; [reflexivity|discriminate].
Qed.

Lemma AcceptBlock_side_branch_witness :
  AcceptBlock Toy.now Toy.fuel Toy.atX1 Toy.w1 = Ret (Sample.w1Attached, None)
  /\ State.CurrentBlock Sample.w1Attached = State.CurrentBlock Toy.atX1
  /\ State.CurrentPath Sample.w1Attached = State.CurrentPath Toy.atX1
  /\ State.UnspentOutputs Sample.w1Attached = State.UnspentOutputs Toy.atX1
  /\ State.BlockMap Sample.w1Attached !! ID Toy.w1 = Some 3%positive.
Proof.
  apply (AcceptBlock_side_branch Toy.now Toy.fuel Toy.atX1 Sample.w1Attached
           Toy.w1 1%positive 3%positive Toy.x1Node Sample.gParent).
  - vm_compute. reflexivity.
  - apply validateHeader_nil_unchanged. vm_compute. reflexivity.
  - apply Toy_attached_ran. vm_compute. reflexivity.
  - vm_compute. reflexivity.
  - vm_compute. reflexivity.
  - vm_compute. discriminate.
  - vm_compute. discriminate.
  - vm_compute. discriminate.
  - vm_compute. discriminate.
  - vm_compute. reflexivity.
  - vm_compute. discriminate.
Defined.

End EntryExamples.
